(** * refactor-prompt: a shallow embedding of [refactor-prompt.mjs]

    The script scans a source file for function definitions with regular
    expressions, asks a chat model for a verdict on each of them and writes
    a [.refactor] sibling file.  The repository holds two revisions of the
    script in one file: the current one (lines 1-333, module [Current]
    below) and the previous one (lines 333-535, module [Previous]).

    Part I models the pieces of the JavaScript platform the script relies
    on (strings of UTF-16 code units, the backtracking regular expression
    matcher, [JSON.parse], [Array.prototype.sort], [Promise.all]), Part II
    embeds the functions of the script and [chat] of [models/deepseek.mjs],
    Part III states and proves the properties of the scanner, the analysis
    and the generators, Part IV those of the batches, of the runs of
    [main], of the chat and of what the scanner finds. *)

From Stdlib Require Import ZArith NArith List Ascii String Lia Sorted.
From stdpp Require Import base list gmap.

Set Default Proof Using "Type".
Set Warnings "-register-all".
Open Scope nat_scope.

(** * Part I: the platform *)

(** ** Strings

    A JavaScript string is a sequence of 16-bit code units; offsets such as
    [match.index] count code units. *)

Abbreviation jsstring := (list N).

(** The code units of an ASCII literal of the source. *)
Definition js (s : string) : jsstring :=
  map N_of_ascii (list_ascii_of_string s).

Definition LF : N := 10.
Definition DQUOTE : N := 34.

(** [\s] and [String.prototype.trim]: WhiteSpace and LineTerminator. *)
Definition isWhiteSpace (c : N) : bool :=
  ((9 <=? c) && (c <=? 13) || (c =? 32) || (c =? 160) || (c =? 5760)
   || (8192 <=? c) && (c <=? 8202) || (c =? 8232) || (c =? 8233)
   || (c =? 8239) || (c =? 8287) || (c =? 12288) || (c =? 65279))%N.

(** LineTerminator: LF, CR, LS, PS. *)
Definition isLineTerminator (c : N) : bool :=
  ((c =? 10) || (c =? 13) || (c =? 8232) || (c =? 8233))%N.

(** [\w]: [A-Za-z0-9_]. *)
Definition isWordChar (c : N) : bool :=
  ((65 <=? c) && (c <=? 90) || (97 <=? c) && (c <=? 122)
   || (48 <=? c) && (c <=? 57) || (c =? 95))%N.

(** Errors carry a message ([error.message]); the kind records which
    constructor made them. *)
Inductive ErrorKind := PlainError | TypeError | SyntaxError.

Record Error := mkError { errorKind : ErrorKind; message : jsstring }.

(** The outcome of evaluating a call: a value, or a thrown error. *)
Inductive Completion (A : Type) : Type :=
| Normal (a : A)
| Throw (e : Error).
Arguments Normal {A} a.
Arguments Throw {A} e.

Definition bindC {A B} (m : Completion A) (f : A -> Completion B) : Completion B :=
  match m with
  | Normal a => f a
  | Throw e => Throw e
  end.

Notation "x <- m ;;; k" := (bindC m (fun x => k))
  (at level 100, m at next level, right associativity).

(** [try { body } catch (error) { handler }] *)
Definition tryCatch {A} (body : Completion A) (handler : Error -> Completion A)
  : Completion A :=
  match body with
  | Normal a => Normal a
  | Throw e => handler e
  end.

(** The results of ToIntegerOrInfinity. *)
Inductive IntegerOrInfinity := NegInfinity | Int (z : Z) | PosInfinity.

(** [String.prototype.slice(start, end)]; [end = None] is [undefined]. *)
Definition clampIndex (len : nat) (i : IntegerOrInfinity) : nat :=
  match i with
  | NegInfinity => 0
  | Int z => if (z <? 0)%Z then Z.to_nat (Z.max (Z.of_nat len + z) 0)
             else Nat.min (Z.to_nat z) len
  | PosInfinity => len
  end.

Definition slice (s : jsstring) (start : IntegerOrInfinity)
    (end_ : option IntegerOrInfinity) : jsstring :=
  let len := length s in
  let from := clampIndex len start in
  let to := match end_ with None => len | Some e => clampIndex len e end in
  take (to - from) (drop from s).

(** The calls of the script pass offsets that are natural numbers. *)
Definition sliceN (s : jsstring) (start end_ : nat) : jsstring :=
  slice s (Int (Z.of_nat start)) (Some (Int (Z.of_nat end_))).

Definition sliceFrom (s : jsstring) (start : nat) : jsstring :=
  slice s (Int (Z.of_nat start)) None.

(** [String.prototype.trim] *)
Fixpoint trimStart (s : jsstring) : jsstring :=
  match s with
  | c :: s' => if isWhiteSpace c then trimStart s' else s
  | [] => []
  end.

Definition trimEnd (s : jsstring) : jsstring := rev (trimStart (rev s)).

Definition trim (s : jsstring) : jsstring := trimEnd (trimStart s).

(** [s.startsWith(p)] as a test on a suffix of the subject. *)
Fixpoint startsWith (p s : jsstring) : bool :=
  match p, s with
  | [], _ => true
  | a :: p', b :: s' => (a =? b)%N && startsWith p' s'
  | _ :: _, [] => false
  end.

(** [String.prototype.indexOf(p)]: the least offset of an occurrence. *)
Fixpoint indexOfFrom (p s : jsstring) (i : nat) : option nat :=
  if startsWith p s then Some i
  else match s with
       | [] => None
       | _ :: s' => indexOfFrom p s' (S i)
       end.

Definition indexOf (s p : jsstring) : option nat := indexOfFrom p s 0.

(** [String.prototype.lastIndexOf(p)]: the greatest offset of an occurrence. *)
Fixpoint lastIndexOfFrom (p s : jsstring) (i : nat) : option nat :=
  let here := if startsWith p s then Some i else None in
  match s with
  | [] => here
  | _ :: s' => match lastIndexOfFrom p s' (S i) with
               | Some j => Some j
               | None => here
               end
  end.

Definition lastIndexOf (s p : jsstring) : option nat := lastIndexOfFrom p s 0.

(** [String.prototype.includes(p)] *)
Definition includes (s p : jsstring) : bool :=
  match indexOf s p with Some _ => true | None => false end.

(** [String.prototype.split(sep)] for a separator of one code unit; the
    result is never empty. *)
Fixpoint split (sep : N) (s : jsstring) : list jsstring :=
  match s with
  | [] => [[]]
  | c :: s' =>
      if (c =? sep)%N then [] :: split sep s'
      else match split sep s' with
           | piece :: pieces => (c :: piece) :: pieces
           | [] => [[c]]
           end
  end.

(** [Array.prototype.join(sep)] on an array of strings. *)
Fixpoint join (sep : jsstring) (pieces : list jsstring) : jsstring :=
  match pieces with
  | [] => []
  | [p] => p
  | p :: ps => p ++ sep ++ join sep ps
  end.

(** The text of consecutive lines of a template literal of the source;
    [blank] is an empty line. *)
Definition blank : string := EmptyString.

Definition text (lines : list string) : jsstring := join [LF] (map js lines).

(** The decimal digits of a natural number, as [String(n)] prints them. *)
Fixpoint digitsOf (fuel n : nat) (acc : jsstring) : jsstring :=
  match fuel with
  | 0 => acc
  | S fuel' =>
      let acc' := (48 + N.of_nat (n mod 10))%N :: acc in
      if n / 10 =? 0 then acc' else digitsOf fuel' (n / 10) acc'
  end.

Definition numberToString (n : nat) : jsstring := digitsOf (S n) n [].

(** ** Regular expressions

    The pattern language of the script's regular expressions (none uses the
    [u], [i] or [s] flag, a backreference, a lookaround, the assertion at
    the start of a line or a word boundary) and its matcher, written like
    the one of the ECMAScript specification (22.2.2): a matcher takes a
    state and a continuation and backtracks by trying its alternatives in
    priority order. *)

Module RegExp.

Inductive regex : Type :=
| Eps                               (* the empty pattern *)
| Chr (p : N -> bool)               (* one code unit: a literal, an escape or a class *)
| Cat (r1 r2 : regex)               (* r1 r2 *)
| Alt (r1 r2 : regex)               (* r1 | r2 *)
| Rep (min : nat) (max : option nat) (greedy : bool) (r : regex)
                                    (* r{min,max}, lazy when not greedy; no max: None *)
| Grp (n : nat) (r : regex)         (* ( r ), the n-th capturing group *)
| Eol.                              (* $ under the m flag *)

(** The quantifiers of the script: r*, r*?, r+ and r?. *)
Definition Star (r : regex) : regex := Rep 0 None true r.
Definition LazyStar (r : regex) : regex := Rep 0 None false r.
Definition Plus (r : regex) : regex := Rep 1 None true r.
Definition Opt (r : regex) : regex := Rep 0 (Some 1) true r.

Definition only (c : N) : N -> bool := fun d => (d =? c)%N.
Definition chr (a : ascii) : N -> bool := only (N_of_ascii a).
Definition ch (a : ascii) : regex := Chr (chr a).
Definition anyChar : N -> bool := fun _ => true.       (* [\s\S] and [^] *)
Definition dot : N -> bool := fun c => negb (isLineTerminator c).
Definition noneOf (l : list (N -> bool)) : N -> bool :=
  fun c => negb (existsb (fun p => p c) l).
Definition oneOf (l : list (N -> bool)) : N -> bool :=
  fun c => existsb (fun p => p c) l.

(** A run of literal characters. *)
Fixpoint litChars (l : list ascii) : regex :=
  match l with
  | [] => Eps
  | [a] => ch a
  | a :: l' => Cat (ch a) (litChars l')
  end.
Definition lit (s : string) : regex := litChars (list_ascii_of_string s).

(** Concatenation of a sequence of terms. *)
Fixpoint cat (rs : list regex) : regex :=
  match rs with
  | [] => Eps
  | [r] => r
  | r :: rs' => Cat r (cat rs')
  end.

(** MatchState: the offset reached, the input from there on, and the
    captures as (group, (start, end)) with the latest first. *)
Record MatchState := mkState {
  endIndex : nat;
  rest : jsstring;
  captures : list (nat * (nat * nat))
}.

Definition MatcherContinuation := MatchState -> option MatchState.

Fixpoint groupsOf (r : regex) : list nat :=
  match r with
  | Cat r1 r2 | Alt r1 r2 => groupsOf r1 ++ groupsOf r2
  | Rep _ _ _ r1 => groupsOf r1
  | Grp n r1 => n :: groupsOf r1
  | _ => []
  end.

(** RepeatMatcher step 4: the captures of the repeated term are cleared
    before each iteration. *)
Definition clearCaptures (gs : list nat) (x : MatchState) : MatchState :=
  mkState (endIndex x) (rest x)
    (List.filter (fun cap => negb (existsb (Nat.eqb (fst cap)) gs)) (captures x)).

Definition setCapture (n start : nat) (y : MatchState) : MatchState :=
  mkState (endIndex y) (rest y) ((n, (start, endIndex y)) :: captures y).

Definition atLineEnd (x : MatchState) : bool :=
  match rest x with
  | [] => true
  | c :: _ => isLineTerminator c
  end.

(** RepeatMatcher (22.2.2.3.1) over the matcher [m] of the repeated term.
    While [min] is not 0 an iteration is due; after that an iteration that
    consumes nothing fails (step 2.b).  So every round lowers [min] or
    shortens [rest]: [fuel] starts above their sum and never runs out
    ([repeatMatcher_fuel] in Part III). *)
Fixpoint repeatMatcher (m : MatchState -> MatcherContinuation -> option MatchState)
    (min : nat) (max : option nat) (greedy : bool) (parens : list nat)
    (c : MatcherContinuation) (fuel : nat) (x : MatchState) {struct fuel}
  : option MatchState :=
  match fuel with
  | 0 => None
  | S fuel' =>
      match max with
      | Some 0 => c x
      | _ =>
          let d : MatcherContinuation := fun y =>
            if (min =? 0) && (endIndex y =? endIndex x) then None
            else repeatMatcher m (min - 1) (Nat.pred <$> max) greedy parens c fuel' y in
          let xr := clearCaptures parens x in
          if negb (min =? 0) then m xr d
          else if greedy then
            match m xr d with
            | Some z => Some z
            | None => c x
            end
          else
            match c x with
            | Some z => Some z
            | None => m xr d
            end
      end
  end.

(** The matcher of a pattern. *)
Fixpoint matcher (r : regex) (x : MatchState) (c : MatcherContinuation)
  : option MatchState :=
  match r with
  | Eps => c x
  | Chr p =>
      match rest x with
      | a :: tl => if p a then c (mkState (S (endIndex x)) tl (captures x)) else None
      | [] => None
      end
  | Cat r1 r2 => matcher r1 x (fun y => matcher r2 y c)
  | Alt r1 r2 =>
      match matcher r1 x c with
      | Some z => Some z
      | None => matcher r2 x c
      end
  | Rep min max greedy r1 =>
      repeatMatcher (matcher r1) min max greedy (groupsOf r1) c
        (S (min + length (rest x))) x
  | Grp n r1 => matcher r1 x (fun y => c (setCapture n (endIndex x) y))
  | Eol => if atLineEnd x then c x else None
  end.

(** The result of a successful [exec]: [index], [match[0]], the offset
    after the match and the captures. *)
Record MatchResult := mkMatch {
  index : nat;
  matched : jsstring;
  lastIndexAfter : nat;
  groups : list (nat * jsstring)
}.

(** [match[n]]: the text of the n-th group, [None] for [undefined]. *)
Definition group (m : MatchResult) (n : nat) : option jsstring :=
  snd <$> List.find (fun g => fst g =? n) (groups m).

(** RegExpBuiltinExec, the search: try the matcher at [i]; on failure
    advance by one code unit, up to and including the end of the input. *)
Fixpoint search (r : regex) (i : nat) (suffix : jsstring)
  : option (nat * MatchState) :=
  match matcher r (mkState i suffix []) Some with
  | Some y => Some (i, y)
  | None =>
      match suffix with
      | [] => None
      | _ :: tl => search r (S i) tl
      end
  end.

(** [r.exec(S)] for a regular expression whose [lastIndex] property is
    [lastIndex] (always 0 without the g flag). *)
Definition exec (r : regex) (subject : jsstring) (lastIndex : nat) : option MatchResult :=
  if length subject <? lastIndex then None
  else
    match search r lastIndex (drop lastIndex subject) with
    | None => None
    | Some (i, y) =>
        Some (mkMatch i (sliceN subject i (endIndex y)) (endIndex y)
                (map (fun cap => (fst cap, sliceN subject (fst (snd cap)) (snd (snd cap))))
                     (captures y)))
    end.

(** The matches that [S.matchAll(r)] and [S.replace(r, ...)] visit under the
    g flag: [exec] from offset 0, resuming at the end of each match, or one
    code unit further after an empty match (AdvanceStringIndex).  The offset
    grows with every match, so [length subject + 2] rounds always suffice. *)
Fixpoint execAll (fuel : nat) (r : regex) (subject : jsstring) (lastIndex : nat)
  : list MatchResult :=
  match fuel with
  | 0 => []
  | S fuel' =>
      match exec r subject lastIndex with
      | None => []
      | Some m =>
          let next := match matched m with
                      | [] => S (lastIndexAfter m)
                      | _ => lastIndexAfter m
                      end in
          m :: execAll fuel' r subject next
      end
  end.

Definition matchAll (r : regex) (subject : jsstring) : list MatchResult :=
  execAll (length subject + 2) r subject 0.

(** [S.replace(r, replacement)] under the g flag, for a replacement text
    without [$] patterns. *)
Fixpoint substitute (subject : jsstring) (replacement : jsstring)
    (ms : list MatchResult) (nextSourcePosition : nat) : jsstring :=
  match ms with
  | [] => sliceFrom subject nextSourcePosition
  | m :: ms' =>
      if nextSourcePosition <=? index m then
        sliceN subject nextSourcePosition (index m) ++ replacement
          ++ substitute subject replacement ms' (index m + length (matched m))
      else substitute subject replacement ms' nextSourcePosition
  end.

Definition replaceAll (r : regex) (subject replacement : jsstring) : jsstring :=
  substitute subject replacement (matchAll r subject) 0.

End RegExp.

(** ** JSON

    The values [JSON.parse] returns.  A number is kept as the decimal
    [mantissa * 10 ^ exponent] the text denotes. *)

Inductive json : Type :=
| JNull
| JBool (b : bool)
| JNumber (mantissa exponent : Z)
| JString (s : jsstring)
| JArray (items : list json)
| JObject (props : list (jsstring * json)).

Module JSON.

Definition eqStr (a b : jsstring) : bool := bool_decide (a = b).

(** CreateDataProperty: a repeated key keeps its place and takes the later
    value. *)
Fixpoint setProp (k : jsstring) (v : json) (props : list (jsstring * json))
  : list (jsstring * json) :=
  match props with
  | [] => [(k, v)]
  | (k', v') :: ps => if eqStr k k' then (k, v) :: ps else (k', v') :: setProp k v ps
  end.

Definition isJsonWs (c : N) : bool :=
  ((c =? 9) || (c =? 10) || (c =? 13) || (c =? 32))%N.

Fixpoint skipWs (s : jsstring) : jsstring :=
  match s with
  | c :: s' => if isJsonWs c then skipWs s' else s
  | [] => []
  end.

Definition isDigit (c : N) : bool := ((48 <=? c) && (c <=? 57))%N.

Definition hexValue (c : N) : option N :=
  if isDigit c then Some (c - 48)%N
  else if ((97 <=? c) && (c <=? 102))%N then Some (c - 87)%N
  else if ((65 <=? c) && (c <=? 70))%N then Some (c - 55)%N
  else None.

(** Digits: the value so far and the number of digits read. *)
Fixpoint digits (s : jsstring) (acc : Z) (n : nat) : Z * nat * jsstring :=
  match s with
  | c :: s' => if isDigit c then digits s' (10 * acc + Z.of_N (c - 48)) (S n)
               else (acc, n, s)
  | [] => (acc, n, s)
  end.

(** [s] without its first code unit when that is [c]. *)
Definition eat (c : N) (s : jsstring) : option jsstring :=
  match s with
  | a :: s' => if (a =? c)%N then Some s' else None
  | [] => None
  end.

(** [s] without the prefix [p] when it starts with it. *)
Fixpoint stripPrefix (p s : jsstring) : option jsstring :=
  match p, s with
  | [], _ => Some s
  | a :: p', b :: s' => if (a =? b)%N then stripPrefix p' s' else None
  | _ :: _, [] => None
  end.

(** JSONNumber: an optional minus sign, then 0 or a digit from 1 to 9
    followed by digits, then optionally a point and one or more digits,
    then optionally e or E, a sign and one or more digits. *)
Definition parseSign (s : jsstring) : bool * jsstring :=
  match eat 45 s with
  | Some s' => (true, s')
  | None => (false, s)
  end.

Definition parseInt (s : jsstring) : option (Z * jsstring) :=
  match eat 48 s with
  | Some s' => Some (0%Z, s')
  | None =>
      let '(v, n, s') := digits s 0%Z 0 in
      if n =? 0 then None else Some (v, s')
  end.

(** The digits after the point extend the mantissa [i]; the result holds
    their number. *)
Definition parseFraction (i : Z) (s : jsstring) : option (Z * Z * jsstring) :=
  match eat 46 s with
  | Some s' =>
      let '(v, n, s'') := digits s' i 0 in
      if n =? 0 then None else Some (v, Z.of_nat n, s'')
  | None => Some (i, 0%Z, s)
  end.

Definition parseExponent (s : jsstring) : option (Z * jsstring) :=
  match s with
  | c :: s' =>
      if ((c =? 101) || (c =? 69))%N then
        let '(negative, s'') :=
          match eat 45 s' with
          | Some t => (true, t)
          | None => match eat 43 s' with
                    | Some t => (false, t)
                    | None => (false, s')
                    end
          end in
        let '(v, n, rest) := digits s'' 0%Z 0 in
        if n =? 0 then None else Some ((if negative then - v else v)%Z, rest)
      else Some (0%Z, s)
  | [] => Some (0%Z, s)
  end.

Definition parseNumber (s : jsstring) : option (json * jsstring) :=
  let '(negative, s0) := parseSign s in
  match parseInt s0 with
  | None => None
  | Some (i, s1) =>
      match parseFraction i s1 with
      | None => None
      | Some (m, scale, s2) =>
          match parseExponent s2 with
          | None => None
          | Some (e, rest) =>
              Some (JNumber (if negative then - m else m)%Z (e - scale)%Z, rest)
          end
      end
  end.

(** The code unit of a one-letter escape: quotation mark, reverse
    solidus, solidus, then b, f, n, r and t. *)
Definition simpleEscape (e : N) : option N :=
  if (e =? 34)%N then Some 34%N
  else if (e =? 92)%N then Some 92%N
  else if (e =? 47)%N then Some 47%N
  else if (e =? 98)%N then Some 8%N
  else if (e =? 102)%N then Some 12%N
  else if (e =? 110)%N then Some 10%N
  else if (e =? 114)%N then Some 13%N
  else if (e =? 116)%N then Some 9%N
  else None.

(** JSONString after the opening quote: up to the closing quote, with the
    escapes; a raw control character is an error. *)
Fixpoint parseString (s : jsstring) (acc : jsstring) : option (jsstring * jsstring) :=
  match s with
  | [] => None
  | c :: s' =>
      if (c =? 34)%N then Some (rev acc, s')
      else if (c =? 92)%N then
        match s' with
        | [] => None
        | e :: s'' =>
            match simpleEscape e with
            | Some d => parseString s'' (d :: acc)
            | None =>
                if (e =? 117)%N then
                  match s'' with
                  | h1 :: h2 :: h3 :: h4 :: s3 =>
                      match hexValue h1, hexValue h2, hexValue h3, hexValue h4 with
                      | Some a, Some b, Some c, Some d =>
                          parseString s3 ((4096 * a + 256 * b + 16 * c + d)%N :: acc)
                      | _, _, _, _ => None
                      end
                  | _ => None
                  end
                else None
            end
        end
      else if (c <? 32)%N then None
      else parseString s' (c :: acc)
  end.

(** JSONValue, the elements of an array after its opening bracket and the
    members of an object after its opening brace.  Each call is made after
    at least one code unit was read or hands the same input to the next
    function once, so [2 * length text + 2] rounds suffice ([parse_fuel]
    in Part III). *)
Fixpoint parseValue (fuel : nat) (s : jsstring) : option (json * jsstring) :=
  match fuel with
  | 0 => None
  | S fuel' =>
      match skipWs s with
      | [] => None
      | c :: s' =>
          if (c =? 123)%N then
            match eat 125 (skipWs s') with
            | Some rest => Some (JObject [], rest)
            | None => parseMembers fuel' s' []
            end
          else if (c =? 91)%N then
            match eat 93 (skipWs s') with
            | Some rest => Some (JArray [], rest)
            | None => parseElements fuel' s' []
            end
          else if (c =? 34)%N then
            match parseString s' [] with
            | Some (str, rest) => Some (JString str, rest)
            | None => None
            end
          else
            match stripPrefix (js "true") (c :: s') with
            | Some rest => Some (JBool true, rest)
            | None =>
                match stripPrefix (js "false") (c :: s') with
                | Some rest => Some (JBool false, rest)
                | None =>
                    match stripPrefix (js "null") (c :: s') with
                    | Some rest => Some (JNull, rest)
                    | None => parseNumber (c :: s')
                    end
                end
            end
      end
  end
with parseElements (fuel : nat) (s : jsstring) (acc : list json)
  : option (json * jsstring) :=
  match fuel with
  | 0 => None
  | S fuel' =>
      match parseValue fuel' s with
      | None => None
      | Some (v, s') =>
          match skipWs s' with
          | [] => None
          | c :: s'' =>
              if (c =? 44)%N then parseElements fuel' s'' (v :: acc)
              else if (c =? 93)%N then Some (JArray (rev (v :: acc)), s'')
              else None
          end
      end
  end
with parseMembers (fuel : nat) (s : jsstring) (acc : list (jsstring * json))
  : option (json * jsstring) :=
  match fuel with
  | 0 => None
  | S fuel' =>
      match eat 34 (skipWs s) with
      | None => None
      | Some s1 =>
          match parseString s1 [] with
          | None => None
          | Some (k, s2) =>
              match eat 58 (skipWs s2) with
              | None => None
              | Some s3 =>
                  match parseValue fuel' s3 with
                  | None => None
                  | Some (v, s4) =>
                      match skipWs s4 with
                      | [] => None
                      | c :: s5 =>
                          if (c =? 44)%N then parseMembers fuel' s5 (setProp k v acc)
                          else if (c =? 125)%N then Some (JObject (setProp k v acc), s5)
                          else None
                      end
                  end
              end
          end
      end
  end.

(** The message of the SyntaxError depends on the engine; nothing below
    depends on its text. *)
Definition syntaxError : Error :=
  mkError SyntaxError (js "Unexpected token in JSON").

(** [JSON.parse(text)] without a reviver. *)
Definition parse (text : jsstring) : Completion json :=
  match parseValue (2 * length text + 2) text with
  | Some (v, s') =>
      match skipWs s' with
      | [] => Normal v
      | _ => Throw syntaxError
      end
  | None => Throw syntaxError
  end.

End JSON.

(** ** Values read back from a parsed object *)

(** The result of reading a property: [None] is [undefined]. *)
Abbreviation value := (option json).

(** The number a JSON number converts to is zero when its absolute value
    is at most 2^-1075, half the least positive double. *)
Definition isZeroNumber (mantissa exponent : Z) : bool :=
  if (mantissa =? 0)%Z then true
  else if (0 <=? exponent)%Z then false
  else (Z.abs mantissa * 2 ^ 1075 <=? 10 ^ (- exponent))%Z.

(** ToBoolean *)
Definition truthy (v : value) : bool :=
  match v with
  | None | Some JNull => false
  | Some (JBool b) => b
  | Some (JNumber m e) => negb (isZeroNumber m e)
  | Some (JString s) => match s with [] => false | _ => true end
  | Some (JArray _) | Some (JObject _) => true
  end.

(** The message of the engine's TypeError for a property read on [null]
    or a call of something that is not a function; nothing below depends
    on its text. *)
Definition typeError (what : string) : Error :=
  mkError TypeError (js what).

(** [o.key] for one of the two keys the script reads ([needsRefactor],
    [refactorPrompt]), which no built-in prototype defines: an own
    property of an object, [undefined] on any other value, a TypeError on
    [null]. *)
Definition getProp (o : json) (key : jsstring) : Completion value :=
  match o with
  | JNull => Throw (typeError "Cannot read properties of null")
  | JObject props =>
      Normal (snd <$> List.find (fun kv => JSON.eqStr (fst kv) key) props)
  | _ => Normal None
  end.

(** ** Arrays and promises *)

(** [Array.prototype.sort(compare)]: a stable sort; [x] is placed before
    the first [y] of the sorted rest that it does not have to follow. *)
Fixpoint insertSorted {A} (compare : A -> A -> Z) (x : A) (l : list A) : list A :=
  match l with
  | [] => [x]
  | y :: l' => if (0 <? compare x y)%Z then y :: insertSorted compare x l'
               else x :: l
  end.

Definition sort {A} (compare : A -> A -> Z) (l : list A) : list A :=
  foldr (insertSorted compare) [] l.

(** [Array.prototype.filter] and [Array.prototype.map] with a callback that
    may throw: the elements are visited in order and the first error ends
    the call. *)
Fixpoint filterC {A} (f : A -> Completion bool) (l : list A) : Completion (list A) :=
  match l with
  | [] => Normal []
  | x :: l' =>
      keep <- f x ;;;
      tl <- filterC f l' ;;;
      Normal (if keep then x :: tl else tl)
  end.

Fixpoint mapIndexC {A B} (f : A -> nat -> Completion B) (i : nat) (l : list A)
  : Completion (list B) :=
  match l with
  | [] => Normal []
  | x :: l' =>
      y <- f x i ;;;
      tl <- mapIndexC f (S i) l' ;;;
      Normal (y :: tl)
  end.

(** [Promise.all(promises)].  [promises] holds what each promise settles
    to and [schedule] the order in which they settle (the indices of the
    promises that do settle).  The value of promise [i] is stored at index
    [i]; the first rejection rejects the whole; the result is [None]
    (pending for ever) when some promise never settles. *)
Fixpoint promiseAllFrom {A} (promises : list (Completion A))
    (values : list (option A)) (schedule : list nat)
  : option (Completion (list A)) :=
  match schedule with
  | [] => Normal <$> mapM id values
  | i :: schedule' =>
      match promises !! i with
      | Some (Normal v) => promiseAllFrom promises (<[i := Some v]> values) schedule'
      | Some (Throw e) => Some (Throw e)
      | None => promiseAllFrom promises values schedule'
      end
  end.

Definition promiseAll {A} (promises : list (Completion A)) (schedule : list nat)
  : option (Completion (list A)) :=
  promiseAllFrom promises (replicate (length promises) None) schedule.

(** ** Values passed as arguments

    [extractModuleContext] inspects its arguments with [typeof]. *)

(** A number: NaN, an infinity, or the rational a finite double is. *)
Inductive number := NaN | Infinity (negative : bool) | Finite (num : Z) (den : positive).

Inductive jsvalue :=
| VUndefined
| VNull
| VBoolean (b : bool)
| VNumber (n : number)
| VString (s : jsstring)
| VBigInt (z : Z)
| VSymbol
| VObject
| VFunction.

Definition typeof (v : jsvalue) : jsstring :=
  match v with
  | VUndefined => js "undefined"
  | VNull | VObject => js "object"
  | VBoolean _ => js "boolean"
  | VNumber _ => js "number"
  | VString _ => js "string"
  | VBigInt _ => js "bigint"
  | VSymbol => js "symbol"
  | VFunction => js "function"
  end.

Definition ToIntegerOrInfinity (n : number) : IntegerOrInfinity :=
  match n with
  | NaN => Int 0
  | Infinity true => NegInfinity
  | Infinity false => PosInfinity
  | Finite num den => Int (Z.quot num (Z.pos den))
  end.

Definition numberOfNat (n : nat) : number := Finite (Z.of_nat n) 1.

(** ** The file system, [path] and the chat capability *)

(** The files, the paths that cannot be written, and the calls of
    [fs.writeFile] that succeeded, oldest first. *)
Record Disk := mkDisk {
  files : gmap jsstring jsstring;
  readOnly : jsstring -> bool;
  writes : list (jsstring * jsstring)
}.

(** [fs.readFile(path, 'utf-8')] *)
Definition readFile (d : Disk) (path : jsstring) : Completion jsstring :=
  match files d !! path with
  | Some content => Normal content
  | None => Throw (mkError PlainError (js "ENOENT: no such file or directory"))
  end.

(** [fs.writeFile(path, data, 'utf-8')] *)
Definition writeFile (d : Disk) (path data : jsstring) : Completion unit * Disk :=
  if readOnly d path then
    (Throw (mkError PlainError (js "EACCES: permission denied")), d)
  else
    (Normal tt, mkDisk (<[path := data]> (files d)) (readOnly d)
                  (writes d ++ [(path, data)])).

(** Code that reads and writes files threads the disk and may throw. *)
Definition IO (A : Type) : Type := Disk -> Completion A * Disk.

Definition retIO {A} (a : A) : IO A := fun d => (Normal a, d).

Definition bindIO {A B} (m : IO A) (f : A -> IO B) : IO B :=
  fun d => match m d with
           | (Normal a, d') => f a d'
           | (Throw e, d') => (Throw e, d')
           end.

Definition liftC {A} (c : Completion A) : IO A := fun d => (c, d).

Definition tryCatchIO {A} (body : IO A) (handler : Error -> IO A) : IO A :=
  fun d => match body d with
           | (Normal a, d') => (Normal a, d')
           | (Throw e, d') => handler e d'
           end.

Notation "x <~ m ;;; k" := (bindIO m (fun x => k))
  (at level 100, m at next level, right associativity).

(** The functions of Node's [path] module that the script calls. *)
Record PathModule := mkPath {
  path_join : jsstring -> jsstring -> jsstring;
  path_dirname : jsstring -> jsstring;
  path_basename : jsstring -> jsstring -> jsstring;
  path_extname : jsstring -> jsstring
}.

(** [path.posix] on normalized paths that do not end in a slash and whose
    file name does not end in a dot, for the examples. *)
Definition posixBase (p : jsstring) : jsstring :=
  match lastIndexOf p (js "/") with
  | Some i => drop (S i) p
  | None => p
  end.

Definition posixPath : PathModule := {|
  path_join a b :=
    if bool_decide (a = js ".") then b
    else if bool_decide (a = js "/") then a ++ b
    else a ++ js "/" ++ b;
  path_dirname p :=
    match lastIndexOf p (js "/") with
    | None => js "."
    | Some 0 => js "/"
    | Some i => take i p
    end;
  path_basename p ext :=
    let base := posixBase p in
    let n := length base - length ext in
    if bool_decide (drop n base = ext) && (0 <? n) then take n base else base;
  path_extname p :=
    let base := posixBase p in
    match lastIndexOf base (js ".") with
    | None | Some 0 => []
    | Some i => drop i base
    end
|}.

(** [chat({ messages, stream: true })] of [models/deepseek.mjs]: the
    request fails, or the answer arrives as the sequence of text chunks
    that [for await] visits. *)
Record Message := mkMessage { role : jsstring; content : jsstring }.

Abbreviation ChatCapability := (list Message -> Completion (list jsstring)).

(** What [console.error] printed for a failed analysis: the name of the
    function and the error. *)
Abbreviation Console := (list (option jsstring * Error)).

(** [`${name}`] for a name that may be [undefined]. *)
Definition showName (name : option jsstring) : jsstring :=
  match name with
  | Some n => n
  | None => js "undefined"
  end.

(** [v.split('\n')] for a value read from the analysis: defined on strings
    only. *)
Definition splitLines (v : value) : Completion (list jsstring) :=
  match v with
  | Some (JString s) => Normal (split LF s)
  | None | Some JNull => Throw (typeError "Cannot read properties of null or undefined")
  | Some _ => Throw (typeError "split is not a function")
  end.

(** * Part II: the script *)

(** ** The current revision (lines 1-333 of [refactor-prompt.mjs]) *)

Module Current.

Import RegExp.

Definition DEFAULT_ANALYSIS_PROMPT : jsstring := text [
    "Analyze this function in the context of its module and suggest safe refactoring if needed.";
    "Consider:";
    blank;
    "1. Module Context:";
    "- Available imports and dependencies";
    "- Module-level variables and configurations";
    "- Related utility functions and helpers";
    "- Type definitions and interfaces";
    blank;
    "2. Current Behavior:";
    "- Document existing functionality and dependencies";
    "- List external APIs and side effects ";
    "- Identify key usage patterns that must be preserved";
    blank;
    "3. Code Quality:";
    "- Complexity and documentation";
    "- Error handling and edge cases";
    "- Performance and security concerns";
    "- Common bugs (off-by-one, type issues)";
    blank;
    "4. Refactoring (if needed):";
    "- What must stay the same";
    "- Step-by-step changes that won't break existing behavior";
    "- Any unavoidable breaking changes";
    blank;
    "Please ensure suggestions maintain backward compatibility unless explicitly noted." ]%string.

(** The text the template of [buildAnalysisPrompt] ends with. *)
Definition RESPONSE_FORMAT : jsstring :=
  text [ blank;
         blank;
         "Return your analysis in this exact JSON format without any markdown formatting or code blocks:";
         "{";
         "  " ]%string ++ [DQUOTE] ++ js "needsRefactor" ++ [DQUOTE] ++
  text [ ": boolean,";
         "  " ]%string ++ [DQUOTE] ++ js "refactorPrompt" ++ [DQUOTE] ++
  text [ ": string or null";
         "}" ]%string.

(** [userFeatureRequest] is a string, or [None] for [undefined] or [null];
    the empty string is falsy. *)
Definition buildAnalysisPrompt (userFeatureRequest : option jsstring) : jsstring :=
  let basePrompt := DEFAULT_ANALYSIS_PROMPT in
  let featureRequest :=
    match userFeatureRequest with
    | Some ((_ :: _) as request) =>
        text [blank; "Additional requirements:"; blank]%string ++ request
    | _ => []
    end in
  basePrompt ++ featureRequest ++ RESPONSE_FORMAT.

Record ModuleContext := mkContext {
  imports : list jsstring;
  declarations : list jsstring;
  fullContext : jsstring
}.

Definition ws : regex := Chr isWhiteSpace.
Definition word : regex := Chr isWordChar.
Definition quoteOrSpace : N -> bool := oneOf [only DQUOTE; chr "'"; isWhiteSpace].

(** import
    (?: [\x22'\s]* (?: [\w*${}\n\r\t, ]+ ) from \s* )?
    [\x22'\s] [\x22'\s] (?: [@\w_\-./]+ ) [\x22'\s] .*? $      flags gm
    (\x22 stands for the double quote of the source) *)
Definition importRegex : regex :=
  cat [ lit "import";
        Opt (cat [ Star (Chr quoteOrSpace);
                   Plus (Chr (oneOf [isWordChar; chr "*"; chr "$"; chr "{"; chr "}";
                                     only 10; only 13; only 9; chr ","; chr " "]));
                   lit "from";
                   Star ws ]);
        Chr quoteOrSpace; Chr quoteOrSpace;
        Plus (Chr (oneOf [chr "@"; isWordChar; chr "_"; chr "-"; chr "."; chr "/"]));
        Chr quoteOrSpace;
        LazyStar (Chr dot);
        Eol ].

(** (?: const | let | var | type | interface ) \s+ \w+ \s*
    (?: = \s* (?: { [^}]* } | [^;]+ ) | { [^}]* } | [^;{]+ ) ;?   flags gm *)
Definition declRegex : regex :=
  let braces := cat [ch "{"; Star (Chr (noneOf [chr "}"])); ch "}"] in
  cat [ Alt (lit "const") (Alt (lit "let") (Alt (lit "var")
          (Alt (lit "type") (lit "interface"))));
        Plus ws; Plus word; Star ws;
        Alt (cat [ch "="; Star ws; Alt braces (Plus (Chr (noneOf [chr ";"])))])
          (Alt braces (Plus (Chr (noneOf [chr ";"; chr "{"]))));
        Opt (ch ";") ].

Definition invalidArguments : Error :=
  mkError PlainError
    (js "Invalid arguments: content must be string and functionEndIndex must be number").

(** The body of the [try] block: nothing in it throws. *)
Definition extractModuleContext (content functionEndIndex : jsvalue)
  : Completion ModuleContext :=
  match content, functionEndIndex with
  | VString content, VNumber functionEndIndex =>
      tryCatch
        (let contextCode :=
           slice content (Int 0) (Some (ToIntegerOrInfinity functionEndIndex)) in
         let imports := map (fun m => trim (matched m)) (matchAll importRegex contextCode) in
         let declarations := map (fun m => trim (matched m)) (matchAll declRegex contextCode) in
         Normal (mkContext imports declarations contextCode))
        (fun error =>
           Throw (mkError PlainError
                    (js "Failed to extract module context: " ++ message error)))
  | _, _ => Throw invalidArguments
  end.

Record FunctionRecord := mkFunction {
  name : option jsstring;
  code : jsstring;
  preText : jsstring;
  startIndex : nat;
  endIndex : nat;
  moduleContext : ModuleContext
}.

(** What [extractFunctions] returns. *)
Record FileContent := mkFileContent {
  functions : list FunctionRecord;
  postText : jsstring;
  originalContent : jsstring
}.

(** (?: \/\*\* (?: [\s\S]*? ) \*\/ \s* )*
    (?: async \s+ )?
    (?: function \s+ (\w+)
      | const \s+ (\w+) \s* = (?: \s* async )? \s* (?: function | \( [^)]* \) \s* => ) )
    \s* \( [^)]* \) \s* { (?: { [^}]* } | [^}] )* }            flag g *)
Definition functionRegex : regex :=
  let params := cat [ch "("; Star (Chr (noneOf [chr ")"])); ch ")"] in
  cat [ Star (cat [lit "/**"; LazyStar (Chr anyChar); lit "*/"; Star ws]);
        Opt (cat [lit "async"; Plus ws]);
        Alt (cat [lit "function"; Plus ws; Grp 1 (Plus word)])
            (cat [ lit "const"; Plus ws; Grp 2 (Plus word); Star ws; ch "=";
                   Opt (cat [Star ws; lit "async"]); Star ws;
                   Alt (lit "function") (cat [params; Star ws; lit "=>"]) ]);
        Star ws; params; Star ws; ch "{";
        Star (Alt (cat [ch "{"; Star (Chr (noneOf [chr "}"])); ch "}"])
                  (Chr (noneOf [chr "}"])));
        ch "}" ].

(** \/\*\* \s* \n \s* \* \s* REFACTOR: [^*]* \*\/              flag g *)
Definition refactorCommentRegex : regex :=
  cat [ lit "/**"; Star ws; Chr (only LF); Star ws; ch "*"; Star ws;
        lit "REFACTOR:"; Star (Chr (noneOf [chr "*"])); lit "*/" ].

(** The state of the [while] loop of [extractFunctions]: the [lastIndex]
    property of [functionRegex], the array [functions] and the variable
    [lastIndex]. *)
Record ScanState := mkScan {
  regexLastIndex : nat;
  scanned : list FunctionRecord;
  lastIndex : nat
}.

(** [a || b] on the two captures: a captured name is never empty. *)
Definition firstTruthy (a b : option jsstring) : option jsstring :=
  match a with
  | Some (_ :: _) => a
  | _ => b
  end.

(** One round per match; [None] when [fuel] rounds do not reach the end of
    the loop.  [exec] resumes at [functionRegex.lastIndex] and sets it to
    the end of the match. *)
Fixpoint scanLoop (fuel : nat) (content : jsstring) (st : ScanState)
  : option (Completion ScanState) :=
  match fuel with
  | 0 => None
  | S fuel' =>
      match exec functionRegex content (regexLastIndex st) with
      | None => Some (Normal (mkScan 0 (scanned st) (lastIndex st)))
      | Some m =>
          let preText := sliceN content (lastIndex st) (index m) in
          let lastIndex' := index m + length (matched m) in
          let functionName := firstTruthy (group m 1) (group m 2) in
          let refactorComments := map matched (matchAll refactorCommentRegex preText) in
          match extractModuleContext (VString content) (VNumber (numberOfNat (index m))) with
          | Throw e => Some (Throw e)
          | Normal context =>
              scanLoop fuel' content
                (mkScan (lastIndexAfter m)
                   (scanned st ++
                      [mkFunction functionName (matched m)
                         (default [] (last refactorComments))
                         (index m) (index m + length (matched m)) context])
                   lastIndex')
          end
      end
  end.

Definition byStartIndex (a b : FunctionRecord) : Z :=
  Z.of_nat (startIndex a) - Z.of_nat (startIndex b).

(** [extractFunctions(filePath)]; [fuel] bounds the rounds of the loop. *)
Definition extractFunctions (fuel : nat) (disk : Disk) (filePath : jsstring)
  : option (Completion FileContent) :=
  let wrap (error : Error) :=
    Throw (mkError PlainError (js "Failed to extract functions: " ++ message error)) in
  match readFile disk filePath with
  | Throw error => Some (wrap error)
  | Normal content =>
      match scanLoop fuel content (mkScan 0 [] 0) with
      | None => None
      | Some (Throw error) => Some (wrap error)
      | Some (Normal st) =>
          Some (Normal (mkFileContent (sort byStartIndex (scanned st))
                          (sliceFrom content (lastIndex st)) content))
      end
  end.

(** [{ ...functionData, analysis }]: the fields of the record and the
    analysis. *)
Record AnalyzedFunctionRecord := mkAnalyzed {
  functionData : FunctionRecord;
  analysis : json
}.

(** [{ needsRefactor: false, refactorPrompt: null }] *)
Definition defaultAnalysis : json :=
  JObject [(js "needsRefactor", JBool false); (js "refactorPrompt", JNull)].

Definition createContextMessage (functionData : FunctionRecord) : jsstring :=
  text [blank; "Module Imports:"; blank]%string
    ++ join [LF] (imports (moduleContext functionData))
    ++ text [blank; blank; "Module-Level Declarations:"; blank]%string
    ++ join [LF] (declarations (moduleContext functionData))
    ++ text [blank; blank; "Function Definition:"; blank]%string
    ++ code functionData
    ++ text [blank; blank]%string.

(** { [^]* } *)
Definition jsonObjectRegex : regex :=
  cat [ch "{"; Star (Chr anyChar); ch "}"].

(** The [messages] of [analyzeFunction]. *)
Definition analysisMessages (analysisPrompt : jsstring) (functionData : FunctionRecord)
  : list Message :=
  [ mkMessage (js "system")
      (js "You are a code analysis assistant focused on functional programming principles and module-level context. Always return JSON without markdown formatting.");
    mkMessage (js "user")
      (analysisPrompt
         ++ text [blank; blank; "Module Context and Function to Analyze:"; blank]%string
         ++ createContextMessage functionData) ].

(** [analysisResult += chunk] over the chunks of the response. *)
Definition accumulate (response : list jsstring) : jsstring :=
  foldl (fun analysisResult chunk => analysisResult ++ chunk) [] response.

(** [analyzeFunction] of [analyzeFunctionBatch]: the record with its
    analysis, and what it printed with [console.error]. *)
Definition analyzeFunction (chat : ChatCapability) (analysisPrompt : jsstring)
    (functionData : FunctionRecord) : AnalyzedFunctionRecord * Console :=
  let attempt : Completion json :=
    let messages := analysisMessages analysisPrompt functionData in
    response <- chat messages ;;;
    let analysisResult := accumulate response in
    match exec jsonObjectRegex analysisResult 0 with
    | None => Throw (mkError PlainError (js "No valid JSON object found in response"))
    | Some jsonMatch =>
        parsed <- JSON.parse (matched jsonMatch) ;;;
        Normal parsed
    end in
  match attempt with
  | Normal parsed => (mkAnalyzed functionData parsed, [])
  | Throw error =>
      (mkAnalyzed functionData defaultAnalysis, [(name functionData, error)])
  end.

Definition invalidBatch : Error :=
  mkError PlainError
    (js "Invalid arguments: functionBatch must be non-empty array and analysisPrompt must be string").

(** [analyzeFunctionBatch(functionBatch, analysisPrompt)].  The analyses
    are started in the order of the batch and settle in the order of
    [schedule]; the console holds their messages in that order. *)
Definition analyzeFunctionBatch (chat : ChatCapability)
    (functionBatch : list FunctionRecord) (analysisPrompt : jsstring)
    (schedule : list nat)
  : option (Completion (list AnalyzedFunctionRecord)) * Console :=
  if (length functionBatch =? 0) || (length analysisPrompt =? 0) then
    (Some (Throw invalidBatch), [])
  else
    let analyses := map (analyzeFunction chat analysisPrompt) functionBatch in
    (promiseAll (map (fun a => Normal (fst a)) analyses) schedule,
     concat (map (fun i => default [] (snd <$> analyses !! i)) schedule)).

Definition byAnalyzedStartIndex (a b : AnalyzedFunctionRecord) : Z :=
  Z.of_nat (startIndex (functionData a)) - Z.of_nat (startIndex (functionData b)).

(** [result.analysis.needsRefactor] as a condition *)
Definition needsRefactor (result : AnalyzedFunctionRecord) : Completion bool :=
  v <- getProp (analysis result) (js "needsRefactor") ;;;
  Normal (truthy v).

Definition formatRefactorPrompt (result : AnalyzedFunctionRecord) (index : nat)
  : Completion jsstring :=
  refactorPrompt <- getProp (analysis result) (js "refactorPrompt") ;;;
  lines <- splitLines refactorPrompt ;;;
  let prompt :=
    replaceAll (Plus ws)
      (join (js " ")
         (map trim
            (List.filter
               (fun line => negb (includes line (js "Module Context"))
                            && negb (JSON.eqStr (trim line) [])
                            && negb (includes line (js "javascript")))
               lines)))
      (js " ") in
  Normal (numberToString (index + 1) ++ js ". Function '"
            ++ showName (name (functionData result)) ++ js "': " ++ prompt).

(** [generateRefactorFile(filePath, analysisResults, originalContent)], the
    consolidated variant: the path written, or [None] for [null]. *)
Definition generateRefactorFile (path : PathModule) (filePath : jsstring)
    (analysisResults : list AnalyzedFunctionRecord) (original : FileContent)
  : IO (option jsstring) :=
  tryCatchIO
    (flagged <~ liftC (filterC needsRefactor analysisResults) ;;;
     let needsRefactoring := sort byAnalyzedStartIndex flagged in
     if length needsRefactoring =? 0 then retIO None
     else
       let refactorPath :=
         path_join path (path_dirname path filePath)
           (path_basename path filePath (path_extname path filePath)
              ++ js ".refactor" ++ path_extname path filePath) in
       prompts <~ liftC (mapIndexC formatRefactorPrompt 0 needsRefactoring) ;;;
       let outputContent :=
         js "Refactor the following file, focusing on these "
           ++ numberToString (length needsRefactoring)
           ++ text [" functions:"; blank; blank]%string
           ++ join [LF] prompts
           ++ text [blank; blank; "FILE CONTENT:"; blank]%string
           ++ originalContent original
           ++ text [blank; blank;
                    "Return only the complete refactored code, maintaining the same exports and core functionality."]%string in
       _ <~ (fun disk => writeFile disk refactorPath outputContent) ;;;
       retIO (Some refactorPath))
    (fun error =>
       liftC (Throw (mkError PlainError
                       (js "Failed to generate refactor file: " ++ message error)))).

End Current.

(** ** The previous revision (lines 333-535 of [refactor-prompt.mjs]) *)

Module Previous.

Import RegExp.

Record FunctionRecord := mkFunction {
  name : option jsstring;
  code : jsstring;
  preText : jsstring;
  startIndex : nat;
  endIndex : nat
}.

Record FileContent := mkFileContent {
  functions : list FunctionRecord;
  postText : jsstring;
  originalContent : jsstring
}.

(** function \s+ (\w+) \s* \( [^)]* \) \s* { [^}]* }           flag g *)
Definition functionRegex : regex :=
  cat [ lit "function"; Plus (Chr isWhiteSpace); Grp 1 (Plus (Chr isWordChar));
        Star (Chr isWhiteSpace);
        ch "("; Star (Chr (noneOf [chr ")"])); ch ")";
        Star (Chr isWhiteSpace);
        ch "{"; Star (Chr (noneOf [chr "}"])); ch "}" ].

Record ScanState := mkScan {
  regexLastIndex : nat;
  scanned : list FunctionRecord;
  lastIndex : nat
}.

(** The [while] loop of [extractFunctions]; [None] when [fuel] rounds do
    not reach its end. *)
Fixpoint scanLoop (fuel : nat) (content : jsstring) (st : ScanState)
  : option ScanState :=
  match fuel with
  | 0 => None
  | S fuel' =>
      match exec functionRegex content (regexLastIndex st) with
      | None => Some (mkScan 0 (scanned st) (lastIndex st))
      | Some m =>
          let preText := sliceN content (lastIndex st) (index m) in
          let lastIndex' := index m + length (matched m) in
          scanLoop fuel' content
            (mkScan (lastIndexAfter m)
               (scanned st ++
                  [mkFunction (group m 1) (matched m) preText (index m) lastIndex'])
               lastIndex')
      end
  end.

(** [extractFunctions(filePath)]; [fuel] bounds the rounds of the loop. *)
Definition extractFunctions (fuel : nat) (disk : Disk) (filePath : jsstring)
  : option (Completion FileContent) :=
  match readFile disk filePath with
  | Throw error => Some (Throw error)
  | Normal content =>
      match scanLoop fuel content (mkScan 0 [] 0) with
      | None => None
      | Some st =>
          let postText := sliceFrom content (lastIndex st) in
          Some (Normal (mkFileContent (scanned st) postText content))
      end
  end.

Definition defaultAnalysis : json :=
  JObject [(js "needsRefactor", JBool false); (js "refactorPrompt", JNull)].

(** ```json \s*   and   ``` \s*                                 flag g *)
Definition jsonFenceRegex : regex := cat [lit "```json"; Star (Chr isWhiteSpace)].
Definition fenceRegex : regex := cat [lit "```"; Star (Chr isWhiteSpace)].

(** [analyzeFunctionForRefactoring(functionCode, analysisPrompt)]; what it
    prints with [console.error] is left out.  [None] from [indexOf] and
    [lastIndexOf] is the -1 of the source. *)
Definition analysisMessages (functionCode analysisPrompt : jsstring) : list Message :=
  [ mkMessage (js "system")
      (js "You are a code analysis assistant focused on functional programming principles. Always return JSON without markdown formatting.");
    mkMessage (js "user")
      (analysisPrompt ++ text [blank; blank; "Function to analyze:"; blank]%string
         ++ functionCode) ].

Definition accumulate (response : list jsstring) : jsstring :=
  foldl (fun analysisResult chunk => analysisResult ++ chunk) [] response.

(** [cleanedResult] *)
Definition cleaned (analysisResult : jsstring) : jsstring :=
  trim (replaceAll fenceRegex (replaceAll jsonFenceRegex analysisResult []) []).

Definition analyzeFunctionForRefactoring (chat : ChatCapability)
    (functionCode analysisPrompt : jsstring) : Completion json :=
  let messages := analysisMessages functionCode analysisPrompt in
  response <- chat messages ;;;
  let analysisResult := accumulate response in
  tryCatch
    (let cleanedResult := cleaned analysisResult in
     let start := indexOf cleanedResult (js "{") in
     let end_ := match lastIndexOf cleanedResult (js "}") with
                 | Some i => i + 1
                 | None => 0
                 end in
     match start with
     | None => Throw (mkError PlainError (js "No valid JSON object found in response"))
     | Some start =>
         if end_ =? 0 then
           Throw (mkError PlainError (js "No valid JSON object found in response"))
         else
           let jsonStr := sliceN cleanedResult start end_ in
           JSON.parse jsonStr
     end)
    (fun error => Normal defaultAnalysis).

Record AnalyzedFunctionRecord := mkAnalyzed {
  functionData : FunctionRecord;
  analysis : json
}.

Definition byStartIndexDescending (a b : AnalyzedFunctionRecord) : Z :=
  Z.of_nat (startIndex (functionData b)) - Z.of_nat (startIndex (functionData a)).

Definition needsRefactor (result : AnalyzedFunctionRecord) : Completion bool :=
  v <- getProp (analysis result) (js "needsRefactor") ;;;
  Normal (truthy v).

(** The comment that is put before a function. *)
Definition refactorComment (lines : list jsstring) : jsstring :=
  let commentLines := join [LF] (map (fun line => js " * " ++ trim line) lines) in
  text [blank; "/**"; " * REFACTOR:"; blank]%string ++ commentLines
    ++ text [blank; " */"; blank]%string.

(** The body of the [for] loop of [generateRefactorFile]. *)
Definition insertComment (refactoredContent : jsstring) (result : AnalyzedFunctionRecord)
  : Completion jsstring :=
  refactorPrompt <- getProp (analysis result) (js "refactorPrompt") ;;;
  if truthy refactorPrompt then
    lines <- splitLines refactorPrompt ;;;
    Normal (sliceN refactoredContent 0 (startIndex (functionData result))
              ++ refactorComment lines
              ++ sliceFrom refactoredContent (startIndex (functionData result)))
  else Normal refactoredContent.

Fixpoint forEach (results : list AnalyzedFunctionRecord) (refactoredContent : jsstring)
  : Completion jsstring :=
  match results with
  | [] => Normal refactoredContent
  | result :: results' =>
      refactoredContent' <- insertComment refactoredContent result ;;;
      forEach results' refactoredContent'
  end.

(** [generateRefactorFile(filePath, analysisResults, originalContent)], the
    spliced variant. *)
Definition generateRefactorFile (path : PathModule) (filePath : jsstring)
    (analysisResults : list AnalyzedFunctionRecord) (original : FileContent)
  : IO jsstring :=
  let fileExt := path_extname path filePath in
  let baseName := path_basename path filePath fileExt in
  let dirName := path_dirname path filePath in
  let refactorPath := path_join path dirName (baseName ++ js ".refactor" ++ fileExt) in
  let refactoredContent := originalContent original in
  sortedResults <~
    liftC (filterC needsRefactor (sort byStartIndexDescending analysisResults)) ;;;
  refactoredContent' <~ liftC (forEach sortedResults refactoredContent) ;;;
  _ <~ (fun disk => writeFile disk refactorPath refactoredContent') ;;;
  retIO refactorPath.

End Previous.

(** ** The terminal, the timer and the exit status *)

Module Process.

(** An argument of [console.log] or [console.error]: a string or an error
    object. *)
Inductive Printed := Text (s : jsstring) | Thrown (e : Error).

(** What a run does besides reading and writing files, in order: the calls
    of [console.log], [console.error] and [process.stdout.write], and the
    waits of [sleep(ms)]. *)
Inductive Event :=
| ConsoleLog (args : list Printed)
| ConsoleError (args : list Printed)
| StdoutWrite (s : jsstring)
| Sleep (ms : nat).

(** How [main] ends: it returns, or [process.exit(code)] ends the run. *)
Inductive Outcome := Returned | Exited (code : nat).

Record Run := mkRun {
  outcome : Outcome;
  output : list Event;
  finalDisk : Disk
}.

(** [catch (error) { console.error('Error:', error.message); process.exit(1); }] *)
Definition fail (out : list Event) (message : jsstring) (disk : Disk) : Run :=
  mkRun (Exited 1) (out ++ [ConsoleError [Text (js "Error:"); Text message]]) disk.

(** The text that [printUsage] of both revisions prints. *)
Definition USAGE_TEXT : jsstring :=
  text [ blank;
         "Usage: node refactor-prompt.mjs <file-path> [custom-prompt]";
         blank;
         "Arguments:";
         "  file-path       Path to the JavaScript file to analyze";
         "  custom-prompt   Optional additional analysis requirements or feature requests";
         blank;
         "Example:";
         "  node refactor-prompt.mjs ./src/utils.js";
         "  node refactor-prompt.mjs ./src/utils.js " ]%string
    ++ [DQUOTE] ++ js "Check for proper TypeScript types" ++ [DQUOTE] ++ [LF].

Definition printUsage : list Event := [ConsoleLog [Text USAGE_TEXT]].

(** [const [,, filePath, userPrompt] = process.argv] and the test on
    [filePath] of both revisions: the exit code when the usage is printed,
    or the two arguments. *)
Definition parseArguments (argv : list jsstring)
  : list Event * (nat + jsstring * option jsstring) :=
  match argv !! 2 with
  | None | Some [] => (printUsage, inl 1)
  | Some filePath =>
      if bool_decide (filePath = js "--help") || bool_decide (filePath = js "-h")
      then (printUsage, inl 0)
      else ([], inr (filePath, argv !! 3))
  end.

(** [if (userPrompt) console.log('- Additional requirements:', userPrompt)] *)
Definition logRequirements (userPrompt : option jsstring) : list Event :=
  match userPrompt with
  | Some ((_ :: _) as request) =>
      [ConsoleLog [Text (js "- Additional requirements:"); Text request]]
  | _ => []
  end.

(** [Array.prototype.some] with a callback that may throw: the elements
    are visited in order up to the first that passes. *)
Fixpoint someC {A} (f : A -> Completion bool) (l : list A) : Completion bool :=
  match l with
  | [] => Normal false
  | x :: l' =>
      found <- f x ;;;
      if found then Normal true else someC f l'
  end.

(** [array.slice(from, to)] for offsets that are natural numbers. *)
Definition arraySlice {A} (array : list A) (from to : nat) : list A :=
  take (to - from) (drop from array).

(** The iterator of a string, which [for await] falls back to: the code
    points in order, a surrogate pair as one string of two code units. *)
Definition isLeadingSurrogate (c : N) : bool := ((55296 <=? c) && (c <=? 56319))%N.
Definition isTrailingSurrogate (c : N) : bool := ((56320 <=? c) && (c <=? 57343))%N.

Fixpoint stringIterator (s : jsstring) : list jsstring :=
  match s with
  | [] => []
  | c :: s' =>
      match s' with
      | d :: s'' =>
          if isLeadingSurrogate c && isTrailingSurrogate d
          then [c; d] :: stringIterator s''
          else [c] :: stringIterator s'
      | [] => [[c]]
      end
  end.

End Process.

(** ** The rest of the current revision: [chunkArray], [sleep],
    [printUsage] and [main] *)

Module CurrentRun.

Import Process.

Definition BATCH_SIZE : nat := 1.
Definition BATCH_DELAY : nat := 1000.

(** [Math.ceil(n / size)] for natural numbers, [size] not 0.  The quotient
    of two array lengths is rounded to a double that lies on the same side
    of every integer, so its ceiling is the exact one. *)
Definition ceilDiv (n size : nat) : nat :=
  if n mod size =? 0 then n / size else S (n / size).

(** What [Array.from({ length }, ...)] gives: the array, or the RangeError
    for a length that is no array length. *)
Inductive Chunked (A : Type) : Type :=
| Chunks (chunks : list (list A))
| InvalidArrayLength.
Arguments Chunks {A} chunks.
Arguments InvalidArrayLength {A}.

(** The message of the engine's RangeError. *)
Definition invalidArrayLength : jsstring := js "Invalid array length".

(** [chunkArray(array, size)] for a [size] that is a natural number.  For
    the size 0 the length [Math.ceil(array.length / 0)] is NaN on the empty
    array, which [Array.from] takes as 0, and Infinity on any other. *)
Definition chunkArray {A} (array : list A) (size : nat) : Chunked A :=
  match size, array with
  | 0, [] => Chunks []
  | 0, _ :: _ => InvalidArrayLength
  | _, _ =>
      Chunks (map (fun index => arraySlice array (index * size) ((index + 1) * size))
                (seq 0 (ceilDiv (length array) size)))
  end.

(** [console.error(`Failed to analyze function ${functionData.name}:`, error)]
    of [analyzeFunction]. *)
Definition failureReport (entry : option jsstring * Error) : Event :=
  ConsoleError [ Text (js "Failed to analyze function " ++ showName (fst entry) ++ js ":");
                 Thrown (snd entry) ].

(** The [for] loop of [processBatches] from the batch [i] on; [count] is
    [functionBatches.length] and [schedule i] the order in which the
    analyses of the batch [i] settle. *)
Fixpoint processFrom (chat : ChatCapability) (schedule : nat -> list nat)
    (analysisPrompt : jsstring) (count i : nat)
    (functionBatches : list (list Current.FunctionRecord))
    (analysisResults : list Current.AnalyzedFunctionRecord)
  : option (Completion (list Current.AnalyzedFunctionRecord)) * list Event :=
  match functionBatches with
  | [] => (Some (Normal analysisResults), [])
  | batch :: batches =>
      let announce :=
        StdoutWrite ([LF] ++ js "Processing batch " ++ numberToString (i + 1) ++ js "/"
                       ++ numberToString count ++ js "..." ++ [LF]) in
      match Current.analyzeFunctionBatch chat batch analysisPrompt (schedule i) with
      | (Some (Normal batchResults), console) =>
          let pause := if i <? count - 1 then [Sleep BATCH_DELAY] else [] in
          let next := processFrom chat schedule analysisPrompt count (S i) batches
                        (analysisResults ++ batchResults) in
          (fst next, announce :: map failureReport console ++ pause ++ snd next)
      | (Some (Throw error), console) =>
          (Some (Throw error), announce :: map failureReport console)
      | (None, console) => (None, announce :: map failureReport console)
      end
  end.

Definition processBatches (chat : ChatCapability) (schedule : nat -> list nat)
    (functionBatches : list (list Current.FunctionRecord)) (analysisPrompt : jsstring)
  : option (Completion (list Current.AnalyzedFunctionRecord)) * list Event :=
  processFrom chat schedule analysisPrompt (length functionBatches) 0 functionBatches [].

(** [`${refactorPath}`] for a path that may be [null]. *)
Definition showPath (refactorPath : option jsstring) : jsstring :=
  match refactorPath with
  | Some p => p
  | None => js "null"
  end.

(** The end of [main], from [analysisResults.some(...)] on; [out] is what
    was printed before. *)
Definition conclude (path : PathModule) (filePath : jsstring)
    (fileContent : Current.FileContent) (out : list Event)
    (analysisResults : list Current.AnalyzedFunctionRecord) (disk : Disk) : Run :=
  match someC Current.needsRefactor analysisResults with
  | Throw error => fail out (message error) disk
  | Normal false =>
      mkRun Returned
        (out ++ [ConsoleLog [Text ([LF] ++ js "No functions require refactoring!")]]) disk
  | Normal true =>
      match Current.generateRefactorFile path filePath analysisResults fileContent disk with
      | (Throw error, disk') => fail out (message error) disk'
      | (Normal refactorPath, disk') =>
          match filterC Current.needsRefactor analysisResults with
          | Throw error => fail out (message error) disk'
          | Normal flagged =>
              mkRun Returned
                (out ++
                   [ ConsoleLog [Text ([LF] ++ js "Refactoring prompts have been written to: "
                                         ++ showPath refactorPath)];
                     ConsoleLog [Text (js "Found " ++ numberToString (length flagged)
                                         ++ js " function(s) that need refactoring.")] ])
                disk'
          end
      end
  end.

(** What [main] prints once the file is scanned. *)
Definition configuration (filePath : jsstring) (userPrompt : option jsstring)
    (fileContent : Current.FileContent) : list Event :=
  [ ConsoleLog [Text (js "Analysis configuration:")];
    ConsoleLog [Text (js "- File:"); Text filePath];
    ConsoleLog [Text (js "- Found " ++ numberToString (length (Current.functions fileContent))
                        ++ js " functions to analyze")];
    ConsoleLog [Text (js "- Processing in batches of " ++ numberToString BATCH_SIZE)] ]
  ++ logRequirements userPrompt.

(** [main()]: [argv] is [process.argv]; [fuel] bounds the rounds of the
    scanner.  [None] when the run never ends. *)
Definition main (fuel : nat) (path : PathModule) (chat : ChatCapability)
    (schedule : nat -> list nat) (argv : list jsstring) (disk : Disk) : option Run :=
  match parseArguments argv with
  | (usage, inl code) => Some (mkRun (Exited code) usage disk)
  | (_, inr (filePath, userPrompt)) =>
      let analysisPrompt := Current.buildAnalysisPrompt userPrompt in
      match Current.extractFunctions fuel disk filePath with
      | None => None
      | Some (Throw error) => Some (fail [] (message error) disk)
      | Some (Normal fileContent) =>
          let printed := configuration filePath userPrompt fileContent in
          match chunkArray (Current.functions fileContent) BATCH_SIZE with
          | InvalidArrayLength => Some (fail printed invalidArrayLength disk)
          | Chunks functionBatches =>
              match processBatches chat schedule functionBatches analysisPrompt with
              | (None, _) => None
              | (Some (Throw error), progress) =>
                  Some (fail (printed ++ progress) (message error) disk)
              | (Some (Normal analysisResults), progress) =>
                  Some (conclude path filePath fileContent (printed ++ progress)
                          analysisResults disk)
              end
          end
      end
  end.

End CurrentRun.

(** ** The rest of the previous revision: [buildAnalysisPrompt] and [main] *)

Module PreviousRun.

Import Process.

Definition DEFAULT_ANALYSIS_PROMPT : jsstring := text [
    "Analyze the following function for clarity, correctness, and efficiency. ";
    "Determine if it needs refactoring. If it does, provide a specific prompt that would guide an AI ";
    "to refactor it appropriately. Consider:";
    "- Function complexity and documentation";
    "- Pure function principles and error handling";
    "- Performance implications";
    "- Edge cases and potential bugs";
    "- Common logical errors (off-by-one, type issues, etc.)";
    "- Security risks and input validation" ]%string.

(** The template ends with the same text as the one of the current
    revision. *)
Definition buildAnalysisPrompt (userFeatureRequest : option jsstring) : jsstring :=
  let basePrompt := DEFAULT_ANALYSIS_PROMPT in
  let featureRequest :=
    match userFeatureRequest with
    | Some ((_ :: _) as request) =>
        text [blank; "Additional requirements:"; blank]%string ++ request
    | _ => []
    end in
  basePrompt ++ featureRequest ++ Current.RESPONSE_FORMAT.

(** The body of the [try] block of [analyzeFunctionForRefactoring]. *)
Definition parseAnalysis (analysisResult : jsstring) : Completion json :=
  let cleanedResult := Previous.cleaned analysisResult in
  let start := indexOf cleanedResult (js "{") in
  let end_ := match lastIndexOf cleanedResult (js "}") with
              | Some i => i + 1
              | None => 0
              end in
  match start with
  | None => Throw (mkError PlainError (js "No valid JSON object found in response"))
  | Some start =>
      if end_ =? 0 then
        Throw (mkError PlainError (js "No valid JSON object found in response"))
      else JSON.parse (sliceN cleanedResult start end_)
  end.

(** [analyzeFunctionForRefactoring(functionCode, analysisPrompt)] with what
    its [catch] block prints. *)
Definition analyzeFunctionForRefactoring (chat : ChatCapability)
    (functionCode analysisPrompt : jsstring) : Completion json * list Event :=
  match chat (Previous.analysisMessages functionCode analysisPrompt) with
  | Throw error => (Throw error, [])
  | Normal response =>
      let analysisResult := Previous.accumulate response in
      match parseAnalysis analysisResult with
      | Normal parsed => (Normal parsed, [])
      | Throw error =>
          (Normal Previous.defaultAnalysis,
           [ ConsoleError [Text (js "Failed to parse analysis result:"); Thrown error];
             ConsoleError [Text (js "Raw response:"); Text analysisResult] ])
      end
  end.

(** The [for] loop of [main] over [fileContent.functions]. *)
Fixpoint analyzeAll (chat : ChatCapability) (analysisPrompt : jsstring)
    (functions : list Previous.FunctionRecord)
    (analysisResults : list Previous.AnalyzedFunctionRecord)
  : Completion (list Previous.AnalyzedFunctionRecord) * list Event :=
  match functions with
  | [] => (Normal analysisResults, [])
  | func :: functions' =>
      let announce :=
        StdoutWrite (js "  [Analyzing..] " ++ showName (Previous.name func)
                       ++ js "..." ++ [13%N]) in
      match analyzeFunctionForRefactoring chat (Previous.code func) analysisPrompt with
      | (Throw error, printed) => (Throw error, announce :: printed)
      | (Normal analysis, printed) =>
          let next := analyzeAll chat analysisPrompt functions'
                        (analysisResults ++ [Previous.mkAnalyzed func analysis]) in
          (fst next,
           announce :: printed ++ StdoutWrite ([13%N; 27%N] ++ js "[K") :: snd next)
      end
  end.

(** The end of [main], from [analysisResults.some(...)] on; [out] is what
    was printed before. *)
Definition conclude (path : PathModule) (filePath : jsstring)
    (fileContent : Previous.FileContent) (out : list Event)
    (analysisResults : list Previous.AnalyzedFunctionRecord) (disk : Disk) : Run :=
  match someC Previous.needsRefactor analysisResults with
  | Throw error => fail out (message error) disk
  | Normal false =>
      mkRun Returned
        (out ++ [ConsoleLog [Text ([LF] ++ js "No functions require refactoring!")]]) disk
  | Normal true =>
      match Previous.generateRefactorFile path filePath analysisResults fileContent disk with
      | (Throw error, disk') => fail out (message error) disk'
      | (Normal refactorPath, disk') =>
          let written :=
            ConsoleLog [Text ([LF] ++ js "Refactoring prompts have been written to: "
                                ++ refactorPath)] in
          match filterC Previous.needsRefactor analysisResults with
          | Throw error => fail (out ++ [written]) (message error) disk'
          | Normal flagged =>
              mkRun Returned
                (out ++
                   [ written;
                     ConsoleLog [Text (js "Found " ++ numberToString (length flagged)
                                         ++ js " function(s) that need refactoring.")] ])
                disk'
          end
      end
  end.

(** What [main] prints once the file is scanned. *)
Definition configuration (filePath : jsstring) (userPrompt : option jsstring)
  : list Event :=
  [ ConsoleLog [Text (js "Analysis configuration:")];
    ConsoleLog [Text (js "- File:"); Text filePath] ]
  ++ logRequirements userPrompt.

(** [main()] of the previous revision. *)
Definition main (fuel : nat) (path : PathModule) (chat : ChatCapability)
    (argv : list jsstring) (disk : Disk) : option Run :=
  match parseArguments argv with
  | (usage, inl code) => Some (mkRun (Exited code) usage disk)
  | (_, inr (filePath, userPrompt)) =>
      let analysisPrompt := buildAnalysisPrompt userPrompt in
      match Previous.extractFunctions fuel disk filePath with
      | None => None
      | Some (Throw error) => Some (fail [] (message error) disk)
      | Some (Normal fileContent) =>
          let printed := configuration filePath userPrompt in
          match analyzeAll chat analysisPrompt (Previous.functions fileContent) [] with
          | (Throw error, progress) =>
              Some (fail (printed ++ progress) (message error) disk)
          | (Normal analysisResults, progress) =>
              Some (conclude path filePath fileContent (printed ++ progress)
                      analysisResults disk)
          end
      end
  end.

End PreviousRun.

(** ** [models/deepseek.mjs] *)

Module DeepSeek.

Import Process.

(** A chunk of the stream of the chat-completions API, as far as
    [chunk.choices[0]?.delta?.content] reads it; [None] is an absent
    or [null] property. *)
Record Choice := mkChoice { delta : option (option jsstring) }.
Record Chunk := mkChunk { choices : list Choice }.

(** The answer to a request without streaming, as far as
    [completion.choices[0].message.content] reads it. *)
Record Completed := mkCompleted { completedChoices : list (option jsstring) }.

Record Request := mkRequest {
  baseURL : jsstring;
  apiKey : jsstring;
  requestModel : jsstring;
  requestMessages : list Message;
  requestMaxTokens : N;
  requestTemperature : number;
  requestStream : bool
}.

(** [client.chat.completions.create(...)]: with [stream: true] the chunks
    of the stream and the error that ends it, if any; without, the
    completion. *)
Record Api := mkApi {
  createStream : Request -> Completion (list Chunk * option Error);
  createCompletion : Request -> Completion Completed
}.

(** The argument of [chat]; [None] is a property that is left out. *)
Record Options := mkOptions {
  messages : list Message;
  model : option jsstring;
  temperature : option number;
  max_tokens : option N;
  stream : option bool
}.

(** [path.join(process.env.HOME, '.config', 'deepseek.token')], the
    segments joined from left to right, then the file read and trimmed. *)
Definition getDeepSeekKey (path : PathModule) (home : option jsstring) (disk : Disk)
  : Completion jsstring :=
  match home with
  | None => Throw (typeError "The path argument must be of type string")
  | Some home =>
      let keyPath := path_join path (path_join path home (js ".config"))
                       (js "deepseek.token") in
      key <- readFile disk keyPath ;;;
      Normal (trim key)
  end.

(** [chunk.choices[0]?.delta?.content || ''] *)
Definition contentOf (chunk : Chunk) : jsstring :=
  match choices chunk !! 0 with
  | Some (mkChoice (Some (Some content))) => content
  | _ => []
  end.

(** The [for await] loop over the stream: [fullContent] and what is
    written to the terminal. *)
Definition echo (chunks : list Chunk) : jsstring * list Event :=
  foldl (fun state chunk =>
           let content := contentOf chunk in
           (fst state ++ content, snd state ++ [StdoutWrite content]))
        ([], []) chunks.

(** The request that [chat] sends, but for its [stream] property. *)
Definition requestFor (key : jsstring) (options : Options) : bool -> Request :=
  mkRequest (js "https://api.deepseek.com") key
    (default (js "deepseek-chat") (model options)) (messages options)
    (default 8192%N (max_tokens options))
    (default (numberOfNat 1) (temperature options)).

(** [chat({ messages, model, temperature, max_tokens, stream })]: what it
    returns ([None] for [null]) and what it prints. *)
Definition chat (path : PathModule) (home : option jsstring) (api : Api)
    (options : Options) (disk : Disk) : Completion (option jsstring) * list Event :=
  match getDeepSeekKey path home disk with
  | Throw error => (Throw error, [])
  | Normal key =>
      if default true (stream options) then
        match createStream api (requestFor key options true) with
        | Throw error => (Throw error, [])
        | Normal (chunks, failure) =>
            let '(fullContent, written) := echo chunks in
            match failure with
            | Some error => (Throw error, written)
            | None => (Normal (Some fullContent), written ++ [ConsoleLog []])
            end
        end
      else
        match createCompletion api (requestFor key options false) with
        | Throw error => (Throw error, [])
        | Normal completion =>
            match completedChoices completion !! 0 with
            | Some content => (Normal content, [])
            | None => (Throw (typeError "Cannot read properties of undefined"), [])
            end
        end
  end.

(** [chat({ messages, stream: true })] followed by
    [for await (const chunk of response)], as the script calls it. *)
Definition capability (path : PathModule) (home : option jsstring) (api : Api)
    (disk : Disk) : ChatCapability :=
  fun messages =>
    match fst (chat path home api (mkOptions messages None None None (Some true)) disk) with
    | Throw error => Throw error
    | Normal (Some response) => Normal (stringIterator response)
    | Normal None => Throw (typeError "response is not async iterable")
    end.

End DeepSeek.

(** * Part III: properties *)

(** ** Notions used in the statements *)

Module Spec.

Import RegExp.

(** [y] is a state the matcher can reach from [x]: it has read a prefix
    [pre] of the input that was left at [x]. *)
Definition extends (x y : MatchState) : Prop :=
  exists pre, rest x = pre ++ rest y /\ endIndex y = endIndex x + length pre.

(** A pattern every match of which reads at least one code unit. *)
Fixpoint consumes (r : regex) : bool :=
  match r with
  | Chr _ => true
  | Cat r1 r2 => consumes r1 || consumes r2
  | Alt r1 r2 => consumes r1 && consumes r2
  | Grp _ r1 => consumes r1
  | Eps | Rep _ _ _ _ | Eol => false
  end.

(** What a successful matcher did: it called its continuation on a state
    reached from [x], further on when the pattern consumes input. *)
Definition sound (strict : bool)
    (m : MatchState -> MatcherContinuation -> option MatchState) : Prop :=
  forall x c z, m x c = Some z ->
    exists y, extends x y /\ (strict = true -> endIndex x < endIndex y) /\ c y = Some z.

(** A matcher consults its continuation on states reached from [x] only. *)
Definition local (m : MatchState -> MatcherContinuation -> option MatchState) : Prop :=
  forall x c c', (forall y, extends x y -> c y = c' y) -> m x c = m x c'.

(** The span of a record: its offsets and its text. *)
Abbreviation span := (nat * nat * jsstring)%type.

(** Spans in source order from offset [lo] on: each starts at or after the
    end of the one before, is not empty, lies within [content] and carries
    the text of [content] between its offsets. *)
Fixpoint wellScanned (content : jsstring) (lo : nat) (l : list span) : Prop :=
  match l with
  | [] => True
  | (s, e, c) :: l' =>
      lo <= s /\ s < e /\ e <= length content /\ c = sliceN content s e
      /\ wellScanned content e l'
  end.

(** The end of the last span, [lo] when there is none. *)
Definition lastEnd (lo : nat) (l : list span) : nat :=
  foldl (fun _ sp => snd (fst sp)) lo l.


Definition currentSpan (f : Current.FunctionRecord) : span :=
  (Current.startIndex f, Current.endIndex f, Current.code f).

Definition previousSpan (f : Previous.FunctionRecord) : span :=
  (Previous.startIndex f, Previous.endIndex f, Previous.code f).


Definition previousPreTextAndCode (l : list Previous.FunctionRecord) : jsstring :=
  concat (map (fun f => Previous.preText f ++ Previous.code f) l).

(** The braces that delimit the JSON object in a response. *)
Definition LBRACE : N := 123.
Definition RBRACE : N := 125.

(** The continuation of [[^]*] in [jsonObjectRegex]: the closing brace,
    then the end of the match. *)
Definition closing : MatcherContinuation :=
  fun y => matcher (Chr (only RBRACE)) y Some.

(** The substring from the first opening brace to the last closing brace,
    inclusive, when the one comes before the other. *)
Definition firstToLast (text : jsstring) : option jsstring :=
  match indexOf text [LBRACE], lastIndexOf text [RBRACE] with
  | Some first, Some last =>
      if first <? last then Some (sliceN text first (last + 1)) else None
  | _, _ => None
  end.

(** [{ needsRefactor: false, refactorPrompt: null }] *)
Definition defaultVerdict : json :=
  JObject [(js "needsRefactor", JBool false); (js "refactorPrompt", JNull)].

(** The analysis read from a text: the substring from the first opening
    to the last closing brace parsed as JSON, the default verdict when
    there is no such substring or it is not JSON. *)
Definition verdictOf (text : jsstring) : json :=
  match firstToLast text with
  | Some jsonText =>
      match JSON.parse jsonText with
      | Normal parsed => parsed
      | Throw _ => defaultVerdict
      end
  | None => defaultVerdict
  end.

(** The sibling path that both variants of [generateRefactorFile] write. *)
Definition refactorPathOf (path : PathModule) (filePath : jsstring) : jsstring :=
  path_join path (path_dirname path filePath)
    (path_basename path filePath (path_extname path filePath)
       ++ js ".refactor" ++ path_extname path filePath).

(** An analysis of the shape of the data model:
    [{ needsRefactor: flag, refactorPrompt: prompt }], [None] for [null]. *)
Definition verdict (flag : bool) (prompt : option jsstring) : json :=
  JObject [ (js "needsRefactor", JBool flag);
            (js "refactorPrompt", match prompt with
                                  | Some s => JString s
                                  | None => JNull
                                  end) ].

(** The analysis [a] has a boolean [needsRefactor] and a [refactorPrompt]
    that is a string or [null], as in the data model. *)
Definition hasVerdict (a : json) (flag : bool) (prompt : option jsstring) : Prop :=
  getProp a (js "needsRefactor") = Normal (Some (JBool flag))
  /\ getProp a (js "refactorPrompt")
     = Normal (Some (match prompt with Some s => JString s | None => JNull end)).

(** The comment block of a record in the spliced variant: the record is
    flagged and its [refactorPrompt] is a string that is not empty. *)
Definition commentBlock (r : Previous.AnalyzedFunctionRecord) : option jsstring :=
  match Previous.needsRefactor r, getProp (Previous.analysis r) (js "refactorPrompt") with
  | Normal true, Normal (Some (JString (c :: s))) =>
      Some (Previous.refactorComment (split LF (c :: s)))
  | _, _ => None
  end.

(** The document the spliced variant is to produce from offset [lo] on:
    the content, with the comment block of each record that has one put
    right before the text of its function. *)
Fixpoint spliced (content : jsstring) (lo : nat)
    (l : list Previous.AnalyzedFunctionRecord) : jsstring :=
  match l with
  | [] => sliceFrom content lo
  | r :: l' =>
      sliceN content lo (Previous.startIndex (Previous.functionData r))
        ++ default [] (commentBlock r)
        ++ Previous.code (Previous.functionData r)
        ++ spliced content (Previous.endIndex (Previous.functionData r)) l'
  end.

Definition analyzedSpan (r : Previous.AnalyzedFunctionRecord) : span :=
  previousSpan (Previous.functionData r).

End Spec.

(** ** Inputs of the examples *)

Module Examples.

(** A file with two function definitions. *)
Definition twoFunctions : jsstring := text [
    "import x from 'y';";
    "function foo(a) { return a; }";
    "function bar() { }" ]%string.

Definition diskWith (filePath content : jsstring) : Disk :=
  mkDisk {[ filePath := content ]} (fun _ => false) [].

Definition emptyContext : Current.ModuleContext := Current.mkContext [] [] [].

(** The record of a function [foo] at the offsets 19 to 48. *)
Definition fooRecord : Current.FunctionRecord :=
  Current.mkFunction (Some (js "foo")) (js "function foo(a) { return a; }") []
    19 48 emptyContext.

Definition barRecord : Current.FunctionRecord :=
  Current.mkFunction (Some (js "bar")) (js "function bar() { }") []
    49 67 emptyContext.

Definition twoFunctionsContent : Current.FileContent :=
  Current.mkFileContent [fooRecord; barRecord] [] twoFunctions.

Definition previousFoo : Previous.FunctionRecord :=
  Previous.mkFunction (Some (js "foo")) (js "function foo(a) { return a; }")
    (js "import x from 'y';" ++ [LF]) 19 48.

Definition previousBar : Previous.FunctionRecord :=
  Previous.mkFunction (Some (js "bar")) (js "function bar() { }") [LF] 49 67.

Definition previousTwoFunctions : Previous.FileContent :=
  Previous.mkFileContent [previousFoo; previousBar] [] twoFunctions.

(** Stubs of the chat capability: one that answers every request with
    the same text, one that picks the answer by a text found in the
    request, one that fails. *)
Definition answering (response : jsstring) : ChatCapability :=
  fun _ => Normal [response].

Definition answeringBy (answers : list (jsstring * jsstring)) : ChatCapability :=
  fun messages =>
    match List.find (fun a => existsb (fun m => includes (content m) (fst a)) messages)
            answers with
    | Some a => Normal [snd a]
    | None => Throw (mkError PlainError (js "request failed"))
    end.

Definition quoted (s : string) : jsstring := [DQUOTE] ++ js s ++ [DQUOTE].

(** The text of a verdict that asks for input validation. *)
Definition addValidation : jsstring :=
  js "{" ++ quoted "needsRefactor" ++ js ": true, " ++ quoted "refactorPrompt"
    ++ js ": " ++ quoted "Add input validation." ++ js "}".

(** Prose, a fenced code block and the verdict. *)
Definition proseFenceVerdict : jsstring :=
  text [ "Here is my analysis.";
         "```js";
         "let x = 1;";
         "```";
         blank ]%string ++ addValidation.

(** The same with braces in the code block. *)
Definition proseBracesVerdict : jsstring :=
  text [ "Here is my analysis.";
         "```js";
         "function f() { return 1; }";
         "```";
         blank ]%string ++ addValidation.

(** An object with a mistyped [needsRefactor] and no [refactorPrompt]. *)
Definition mistyped : jsstring :=
  js "{" ++ quoted "needsRefactor" ++ js ": " ++ quoted "yes" ++ js "}".

End Examples.

(** ** Notions used in the statements about the runs *)

Module RunSpec.

Import Process.

(** The waits of a run, in order. *)
Definition sleeps (out : list Event) : list nat :=
  omap (fun event => match event with Sleep ms => Some ms | _ => None end) out.

(** What [process.stdout.write] put on the terminal. *)
Definition written (out : list Event) : jsstring :=
  concat (omap (fun event => match event with StdoutWrite s => Some s | _ => None end)
            out).

(** An argument that [main] takes as the path of the file to analyze. *)
Definition isFilePath (filePath : jsstring) : Prop :=
  filePath <> [] /\ filePath <> js "--help" /\ filePath <> js "-h".

(** An analysis counts as flagged when its [needsRefactor] is truthy. *)
Definition flagged (analysis : json) : bool :=
  match getProp analysis (js "needsRefactor") with
  | Normal v => truthy v
  | Throw _ => false
  end.

(** A list in ascending order of [key]. *)
Fixpoint ascending {A} (key : A -> nat) (l : list A) : Prop :=
  match l with
  | [] => True
  | x :: l' => Forall (fun y => key x <= key y) l' /\ ascending key l'
  end.

(** The text that the consolidated [generateRefactorFile] writes for the
    numbered [prompts] and the [content] of the file. *)
Definition consolidated (prompts : list jsstring) (content : jsstring) : jsstring :=
  js "Refactor the following file, focusing on these "
    ++ numberToString (length prompts)
    ++ text [" functions:"; blank; blank]%string
    ++ join [LF] prompts
    ++ text [blank; blank; "FILE CONTENT:"; blank]%string
    ++ content
    ++ text [blank; blank;
             "Return only the complete refactored code, maintaining the same exports and core functionality."]%string.

(** The start of the line of the [index]-th prompt, for the function
    [name]. *)
Definition promptHeading (index : nat) (name : option jsstring) : jsstring :=
  numberToString (index + 1) ++ js ". Function '" ++ showName name ++ js "': ".

(** A text with every run of white space replaced by one space;
    [inRun] tells that the code unit before was white space. *)
Fixpoint collapse (inRun : bool) (s : jsstring) : jsstring :=
  match s with
  | [] => []
  | c :: s' =>
      if isWhiteSpace c then
        if inRun then collapse true s' else 32%N :: collapse true s'
      else c :: collapse false s'
  end.

(** A text whose only white space is single spaces. *)
Definition singleSpaced (s : jsstring) : Prop :=
  (forall c, c ∈ s -> isWhiteSpace c = true -> c = 32%N)
  /\ (forall i, s !! i = Some 32%N -> s !! (S i) <> Some 32%N).

(** The lines of a prompt that [formatRefactorPrompt] keeps. *)
Definition keptLine (line : jsstring) : bool :=
  negb (includes line (js "Module Context"))
  && negb (JSON.eqStr (trim line) [])
  && negb (includes line (js "javascript")).

(** A prompt on one line: its lines that are kept, trimmed and joined by
    a space, with every run of white space replaced by one space. *)
Definition promptLine (prompt : jsstring) : jsstring :=
  collapse false (join (js " ") (map trim (List.filter keptLine (split LF prompt)))).



(** [f] is a record that the scanner of the current revision returns for
    the file. *)
Definition scanned (fuel : nat) (disk : Disk) (filePath : jsstring)
    (f : Current.FunctionRecord) : Prop :=
  exists fileContent,
    Current.extractFunctions fuel disk filePath = Some (Normal fileContent)
    /\ f ∈ Current.functions fileContent.

(** The analysis that a run of the current revision stores for [f]. *)
Definition analysisOf (chat : ChatCapability) (userPrompt : option jsstring)
    (f : Current.FunctionRecord) : json :=
  Current.analysis
    (fst (Current.analyzeFunction chat (Current.buildAnalysisPrompt userPrompt) f)).

(** The same for the previous revision. *)
Definition previouslyScanned (fuel : nat) (disk : Disk) (filePath : jsstring)
    (f : Previous.FunctionRecord) : Prop :=
  exists fileContent,
    Previous.extractFunctions fuel disk filePath = Some (Normal fileContent)
    /\ f ∈ Previous.functions fileContent.

(** The disk after [fs.writeFile(path, data)] succeeded. *)
Definition afterWrite (disk : Disk) (path data : jsstring) : Disk :=
  mkDisk (<[path := data]> (files disk)) (readOnly disk) (writes disk ++ [(path, data)]).

End RunSpec.

(** ** Notions used in the statements about the shape of a match *)

Module MatchSpec.

Import RegExp.

(** A matcher that, when it succeeds, has read a text that satisfies [Q],
    handed the state after it to its continuation and left the captures
    as they were. *)
Definition passes (Q : jsstring -> Prop)
    (m : MatchState -> MatcherContinuation -> option MatchState) : Prop :=
  forall x c z, m x c = Some z ->
    exists pre y,
      rest x = pre ++ rest y /\ endIndex y = endIndex x + length pre
      /\ captures y = captures x /\ Q pre /\ c y = Some z.

(** The greedy [\s*] with the continuation [c]. *)
Abbreviation wsStar c fuel x :=
  (repeatMatcher (matcher (Chr isWhiteSpace)) 0 None true [] c fuel x).

(** A word: one or more of [A-Za-z0-9_]. *)
Definition isWord (s : jsstring) : Prop :=
  s <> [] /\ Forall (fun c => isWordChar c = true) s.

(** The keywords that start a match of [declRegex]. *)
Definition declarationKeywords : list jsstring :=
  [js "const"; js "let"; js "var"; js "type"; js "interface"].

End MatchSpec.

(** ** Inputs of the examples of the runs *)

Module RunExamples.

Import Process.

(** [node refactor-prompt.mjs /a/b.mjs] *)
Definition argv : list jsstring :=
  [js "/usr/bin/node"; js "/a/refactor-prompt.mjs"; js "/a/b.mjs"].

(** A chat capability whose requests all fail. *)
Definition failing : ChatCapability :=
  fun _ => Throw (mkError PlainError (js "request failed")).

(** A chat capability whose requests all fail, each with an error of its
    own: the one about [foo] and the others. *)
Definition failingEach : ChatCapability :=
  fun messages =>
    if existsb (fun m => includes (content m) (js "function foo")) messages
    then Throw (mkError PlainError (js "no answer about foo"))
    else Throw (mkError PlainError (js "no answer about the rest")).

(** A verdict that is not flagged. *)
Definition keepAsIs : jsstring :=
  js "{" ++ Examples.quoted "needsRefactor" ++ js ": false, "
    ++ Examples.quoted "refactorPrompt" ++ js ": null}".

(** Every batch of one analysis settles. *)
Definition oneByOne : nat -> list nat := fun _ => [0].

(** A verdict that is flagged and has no prompt. *)
Definition flaggedNoPrompt : jsstring :=
  js "{" ++ Examples.quoted "needsRefactor" ++ js ": true, "
    ++ Examples.quoted "refactorPrompt" ++ js ": null}".

(** A file with a REFACTOR comment, an [export] and a function. *)
Definition commented : jsstring := text [
    "/**";
    " * REFACTOR: split";
    " */";
    "export function foo(a) { return a; }" ]%string.

(** The chunks of a streamed answer: a delta without content between the
    two halves of the text [{}]. *)
Definition streamed : list DeepSeek.Chunk :=
  [ DeepSeek.mkChunk [DeepSeek.mkChoice (Some (Some (js "{")))];
    DeepSeek.mkChunk [DeepSeek.mkChoice (Some None)];
    DeepSeek.mkChunk [];
    DeepSeek.mkChunk [DeepSeek.mkChoice (Some (Some (js "}")))] ].

Definition streaming : DeepSeek.Api :=
  DeepSeek.mkApi (fun _ => Normal (streamed, None))
    (fun _ => Normal (DeepSeek.mkCompleted [])).

(** A disk that holds the token file of [/home/u]. *)
Definition tokenDisk : Disk :=
  Examples.diskWith (js "/home/u/.config/deepseek.token") (js "secret" ++ [LF]).

End RunExamples.

(** ** The matcher *)

Module RegExpFacts.

Import RegExp Spec.

Lemma extends_refl x : extends x x.
Proof. exists []. simpl. split; [done | lia]. Qed.

Lemma extends_trans x y z : extends x y -> extends y z -> extends x z.
Proof.
  intros (p & Hp & Hi) (q & Hq & Hj). exists (p ++ q).
  rewrite Hp, Hq, <- app_assoc, length_app. split; [done | lia].
Qed.

Lemma extends_length x y :
  extends x y -> length (rest x) = (endIndex y - endIndex x) + length (rest y).
Proof. intros (p & Hp & Hi). rewrite Hp, length_app. lia. Qed.

Lemma extends_le x y : extends x y -> endIndex x <= endIndex y.
Proof. intros (p & _ & Hi). lia. Qed.

Lemma extends_clear gs x y : extends (clearCaptures gs x) y -> extends x y.
Proof. done. Qed.

Lemma extends_setCapture n i x y : extends x y -> extends x (setCapture n i y).
Proof. done. Qed.

Lemma repeatMatcher_reach m greedy gs c :
  sound false m ->
  forall fuel min max x z, repeatMatcher m min max greedy gs c fuel x = Some z ->
    exists y, extends x y /\ c y = Some z.
Proof.
  intros Hm. induction fuel as [|fuel IH]; intros min max x z; [done |].
  cbn [repeatMatcher].
  assert (Hskip : c x = Some z -> exists y, extends x y /\ c y = Some z).
  { intros H. exists x. split; [apply extends_refl | done]. }
  destruct (decide (max = Some 0)) as [-> | Hmax]; [done |].
  set (d := fun y => if (min =? 0) && (endIndex y =? endIndex x) then None
                     else repeatMatcher m (min - 1) (Nat.pred <$> max) greedy gs c fuel y).
  assert (Hiter : m (clearCaptures gs x) d = Some z ->
                  exists y, extends x y /\ c y = Some z).
  { intros H. apply Hm in H as (y & Hxy & _ & Hd). unfold d in Hd.
    destruct ((min =? 0) && (endIndex y =? endIndex x)); [done |].
    apply IH in Hd as (y' & Hyy' & Hc). exists y'. split; [| done].
    eapply extends_trans; [| exact Hyy']. by apply extends_clear in Hxy. }
  assert (Hbody :
            (if negb (min =? 0) then m (clearCaptures gs x) d
             else if greedy then
               match m (clearCaptures gs x) d with Some z => Some z | None => c x end
             else match c x with Some z => Some z | None => m (clearCaptures gs x) d end)
            = Some z -> exists y, extends x y /\ c y = Some z).
  { destruct (negb (min =? 0)); [done |]. destruct greedy.
    - destruct (m (clearCaptures gs x) d) eqn:E; [| done].
      intros [= <-]. by apply Hiter.
    - destruct (c x) eqn:E; [| done]. intros [= <-]. by apply Hskip. }
  destruct max as [[|k]|]; [done | exact Hbody | exact Hbody].
Qed.

Lemma matcher_sound r : sound (consumes r) (matcher r).
Proof.
  induction r as [| p | r1 IH1 r2 IH2 | r1 IH1 r2 IH2 | min max g r1 IH1 | n r1 IH1 |];
    intros x c z; cbn [matcher consumes].
  - intros H. exists x. split; [apply extends_refl |]. split; [done | done].
  - destruct x as [i [|a tl] caps]; simpl; [done |].
    destruct (p a); [| done]. intros H.
    exists (mkState (S i) tl caps). split; [| split; [simpl; lia | done]].
    exists [a]. simpl. split; [done | lia].
  - intros H. apply IH1 in H as (y & Hxy & Hs1 & H).
    apply IH2 in H as (y' & Hyy' & Hs2 & H).
    exists y'. split; [by eapply extends_trans |]. split; [| done].
    intros Hs. apply extends_le in Hxy as Hle1. apply extends_le in Hyy' as Hle2.
    apply orb_true_iff in Hs as [Hs | Hs]; [specialize (Hs1 Hs) | specialize (Hs2 Hs)]; lia.
  - destruct (matcher r1 x c) eqn:E.
    + intros [= <-]. apply IH1 in E as (y & Hxy & Hs & H).
      exists y. split; [done |]. split; [| done].
      intros Hc. apply andb_true_iff in Hc as [Hc _]. auto.
    + intros H. apply IH2 in H as (y & Hxy & Hs & H).
      exists y. split; [done |]. split; [| done].
      intros Hc. apply andb_true_iff in Hc as [_ Hc]. auto.
  - intros H. apply repeatMatcher_reach in H as (y & Hxy & H).
    + exists y. done.
    + intros x' c' z' H'. apply IH1 in H' as (y & ? & _ & ?). exists y. done.
  - intros H. apply IH1 in H as (y & Hxy & Hs & H).
    exists (setCapture n (endIndex x) y). split; [by apply extends_setCapture |].
    split; [| done]. simpl. done.
  - destruct (atLineEnd x); [| done]. intros H.
    exists x. split; [apply extends_refl | done].
Qed.

Lemma repeatMatcher_local m greedy gs :
  local m ->
  forall fuel min max x c c', (forall y, extends x y -> c y = c' y) ->
    repeatMatcher m min max greedy gs c fuel x
    = repeatMatcher m min max greedy gs c' fuel x.
Proof.
  intros Hm. induction fuel as [|fuel IH]; intros min max x c c' Hc; [done |].
  cbn [repeatMatcher]. rewrite (Hc x (extends_refl x)).
  rewrite (Hm (clearCaptures gs x) _
             (fun y => if (min =? 0) && (endIndex y =? endIndex x) then None
                       else repeatMatcher m (min - 1) (Nat.pred <$> max) greedy gs c' fuel y));
    [done |].
  intros y Hy. destruct ((min =? 0) && (endIndex y =? endIndex x)); [done |].
  apply IH. intros y' Hy'. apply Hc. eapply extends_trans; [| exact Hy'].
  by apply extends_clear in Hy.
Qed.

Lemma matcher_local r : local (matcher r).
Proof.
  induction r as [| p | r1 IH1 r2 IH2 | r1 IH1 r2 IH2 | min max g r1 IH1 | n r1 IH1 |];
    intros x c c' Hc; cbn [matcher].
  - apply Hc, extends_refl.
  - destruct x as [i [|a tl] caps]; simpl; [done |].
    destruct (p a); [| done]. apply Hc. exists [a]. simpl. split; [done | lia].
  - apply IH1. intros y Hy. apply IH2. intros y' Hy'. apply Hc.
    by eapply extends_trans.
  - rewrite (IH1 x c c' Hc), (IH2 x c c' Hc). done.
  - by apply repeatMatcher_local.
  - apply IH1. intros y Hy. apply Hc. by apply extends_setCapture.
  - destruct (atLineEnd x); [| done]. apply Hc, extends_refl.
Qed.

(** The fuel of the repetition is never used up: any amount above the
    iterations that are due plus the length of the remaining input gives
    the same result. *)
Lemma repeatMatcher_fuel r greedy gs c : forall fuel1 fuel2 min max x,
  min + length (rest x) < fuel1 -> min + length (rest x) < fuel2 ->
  repeatMatcher (matcher r) min max greedy gs c fuel1 x
  = repeatMatcher (matcher r) min max greedy gs c fuel2 x.
Proof.
  induction fuel1 as [|fuel1 IH]; intros fuel2 min max x H1 H2; [lia |].
  destruct fuel2 as [|fuel2]; [lia |]. cbn [repeatMatcher].
  rewrite (matcher_local r (clearCaptures gs x) _
             (fun y => if (min =? 0) && (endIndex y =? endIndex x) then None
                       else repeatMatcher (matcher r) (min - 1) (Nat.pred <$> max)
                              greedy gs c fuel2 y)); [done |].
  intros y Hy. apply extends_clear in Hy.
  pose proof (extends_length _ _ Hy). pose proof (extends_le _ _ Hy).
  destruct (Nat.eqb_spec min 0) as [-> | Hmin]; cbn [andb].
  - destruct (Nat.eqb_spec (endIndex y) (endIndex x)); [done |]. apply IH; lia.
  - apply IH; lia.
Qed.

(** ** [exec] *)

Lemma sliceN_take_drop (s : jsstring) a b : sliceN s a b = take (b - a) (drop a s).
Proof.
  unfold sliceN, slice, clampIndex.
  destruct (Z.ltb_spec (Z.of_nat a) 0); [lia |].
  destruct (Z.ltb_spec (Z.of_nat b) 0); [lia |].
  rewrite !Nat2Z.id.
  destruct (Nat.le_gt_cases a (length s)) as [Ha | Ha].
  - rewrite (Nat.min_l a) by done.
    destruct (Nat.le_gt_cases b (length s)) as [Hb | Hb].
    + by rewrite (Nat.min_l b).
    + rewrite (Nat.min_r b) by lia.
      rewrite !take_ge; [done | |]; rewrite length_drop; lia.
  - rewrite (Nat.min_r a) by lia. rewrite !drop_ge by lia. by rewrite !take_nil.
Qed.

Lemma sliceFrom_drop (s : jsstring) a : sliceFrom s a = drop a s.
Proof.
  unfold sliceFrom, slice, clampIndex.
  destruct (Z.ltb_spec (Z.of_nat a) 0); [lia |]. rewrite Nat2Z.id.
  destruct (Nat.le_gt_cases a (length s)) as [Ha | Ha].
  - rewrite (Nat.min_l a) by done. apply take_ge. rewrite length_drop. lia.
  - rewrite (Nat.min_r a) by lia. rewrite !drop_ge by lia. by rewrite take_nil.
Qed.

Lemma search_spec r suffix : forall i j y,
  search r i suffix = Some (j, y) ->
  exists k, j = i + k /\ k <= length suffix
            /\ matcher r (mkState j (drop k suffix) []) Some = Some y.
Proof.
  induction suffix as [|a tl IH]; intros i j y; simpl.
  - destruct (matcher r (mkState i [] []) Some) eqn:E; [| done].
    intros [= <- <-]. exists 0. rewrite Nat.add_0_r. done.
  - destruct (matcher r (mkState i (a :: tl) []) Some) eqn:E.
    + intros [= <- <-]. exists 0. rewrite Nat.add_0_r. simpl. split; [done |].
      split; [lia | done].
    + intros H. apply IH in H as (k & -> & Hk & H). exists (S k). simpl.
      split; [lia |]. split; [lia |]. by replace (i + S k) with (S i + k) by lia.
Qed.

(** A match lies within the subject at or after [lastIndex], and
    [match[0]] is the text of its span. *)
Lemma exec_spec r (subject : jsstring) lastIndex m :
  exec r subject lastIndex = Some m ->
  lastIndex <= index m /\ index m <= lastIndexAfter m
  /\ lastIndexAfter m <= length subject
  /\ (consumes r = true -> index m < lastIndexAfter m)
  /\ matched m = take (lastIndexAfter m - index m) (drop (index m) subject)
  /\ length (matched m) = lastIndexAfter m - index m.
Proof.
  unfold exec. destruct (Nat.ltb_spec (length subject) lastIndex) as [| Hle]; [done |].
  destruct (search r lastIndex (drop lastIndex subject)) as [[j y]|] eqn:E; [| done].
  intros [= <-]. simpl.
  apply search_spec in E as (k & -> & Hk & E). rewrite length_drop in Hk.
  apply matcher_sound in E as (y' & Hext & Hs & [= ->]).
  pose proof (extends_length _ _ Hext) as Hlen.
  pose proof (extends_le _ _ Hext) as Hle'. simpl in Hlen, Hle', Hs.
  rewrite length_drop, length_drop in Hlen.
  rewrite sliceN_take_drop.
  split; [lia |]. split; [lia |]. split; [lia |]. split; [done |]. split; [done |].
  rewrite length_take, length_drop. lia.
Qed.

(** The rounds of [execAll] are never used up: each match starts at or
    after [lastIndex] and the next search starts further on, so any amount
    of fuel above [length subject + 1 - lastIndex] gives the same matches. *)
Lemma execAll_fuel r (subject : jsstring) : forall fuel1 fuel2 lastIndex,
  length subject + 1 - lastIndex < fuel1 ->
  length subject + 1 - lastIndex < fuel2 ->
  execAll fuel1 r subject lastIndex = execAll fuel2 r subject lastIndex.
Proof.
  induction fuel1 as [|fuel1 IH]; intros fuel2 lastIndex H1 H2; [lia |].
  destruct fuel2 as [|fuel2]; [lia |]. cbn [execAll].
  destruct (exec r subject lastIndex) as [m|] eqn:E; [| done].
  apply exec_spec in E as (Hlo & Hle & Hhi & _ & _ & Hlen).
  f_equal. destruct (matched m); simpl in Hlen; apply IH; lia.
Qed.

Lemma matchAll_fuel r (subject : jsstring) fuel :
  length subject + 1 < fuel -> matchAll r subject = execAll fuel r subject 0.
Proof. intros H. apply execAll_fuel; lia. Qed.

End RegExpFacts.

(** ** Spans *)

Module SpanFacts.

Import RegExp Spec RegExpFacts.

Lemma lastEnd_snoc lo l s e c : lastEnd lo (l ++ [(s, e, c)]) = e.
Proof. unfold lastEnd. by rewrite foldl_app. Qed.

Lemma lastEnd_cons lo s e c l : lastEnd lo ((s, e, c) :: l) = lastEnd e l.
Proof. done. Qed.

Lemma wellScanned_snoc content l : forall lo s e c,
  wellScanned content lo l ->
  lastEnd lo l <= s -> s < e -> e <= length content -> c = sliceN content s e ->
  wellScanned content lo (l ++ [(s, e, c)]).
Proof.
  induction l as [|[[s0 e0] c0] l IH]; intros lo s e c Hl Hs Hlt He Hc; simpl in *.
  - done.
  - destruct Hl as (? & ? & ? & ? & Hl). repeat split; try done.
    apply IH; try done.
Qed.

Lemma wellScanned_lastEnd content l : forall lo,
  lo <= length content -> wellScanned content lo l ->
  lo <= lastEnd lo l /\ lastEnd lo l <= length content.
Proof.
  induction l as [|[[s0 e0] c0] l IH]; intros lo Hlo Hl.
  - unfold lastEnd. simpl. lia.
  - destruct Hl as (? & ? & ? & ? & Hl). rewrite lastEnd_cons.
    specialize (IH e0 ltac:(done) Hl). lia.
Qed.

(** Spans in source order are sorted by offset and do not overlap. *)
Lemma wellScanned_lookup content l : forall lo i s e c,
  wellScanned content lo l -> l !! i = Some (s, e, c) ->
  lo <= s /\ s < e /\ e <= length content /\ c = sliceN content s e
  /\ forall j s' e' c', i < j -> l !! j = Some (s', e', c') -> e <= s' /\ s < s'.
Proof.
  induction l as [|[[s0 e0] c0] l IH]; intros lo i s e c Hl Hi; [done |].
  destruct Hl as (H1 & H2 & H3 & H4 & Hl). destruct i as [|i]; simpl in Hi.
  - injection Hi as <- <- <-. repeat split; try done;
      destruct j as [|j]; try lia; simpl in *;
      destruct (IH _ _ _ _ _ Hl H0) as (? & ? & _); lia.
  - destruct (IH _ _ _ _ _ Hl Hi) as (? & ? & ? & ? & Hlater).
    repeat split; try done; try lia;
      destruct j as [|j]; try lia; simpl in *;
      apply (Hlater j s' e' c'); try done; lia.
Qed.


Lemma take_app_slice (content : jsstring) a b :
  a <= b -> take a content ++ sliceN content a b = take b content.
Proof.
  intros Hab. rewrite sliceN_take_drop.
  rewrite <- (take_drop a (take b content)).
  rewrite take_take, Nat.min_l by lia. f_equal.
  symmetry. apply skipn_firstn_comm.
Qed.

(** A sorted array is left as it is by [sort]. *)
Lemma sort_sorted {A} (compare : A -> A -> Z) (l : list A) :
  (forall i x y, l !! i = Some x -> l !! (S i) = Some y -> (compare x y <= 0)%Z) ->
  sort compare l = l.
Proof.
  induction l as [|x l IH]; intros H; [done |].
  unfold sort in *. simpl. rewrite IH.
  - destruct l as [|y l]; [done |]. simpl.
    destruct (Z.ltb_spec 0 (compare x y)); [| done].
    specialize (H 0 x y eq_refl eq_refl). lia.
  - intros i a b Ha Hb. by apply (H (S i)).
Qed.

End SpanFacts.

(** ** The scanner *)

Module ScannerFacts.

Import RegExp Spec RegExpFacts SpanFacts.

Lemma current_consumes : consumes Current.functionRegex = true.
Proof. reflexivity. Qed.

Lemma previous_consumes : consumes Previous.functionRegex = true.
Proof. reflexivity. Qed.

Lemma currentSpan_mk n c p s e ctx :
  currentSpan (Current.mkFunction n c p s e ctx) = (s, e, c).
Proof. reflexivity. Qed.

Lemma previousSpan_mk n c p s e :
  previousSpan (Previous.mkFunction n c p s e) = (s, e, c).
Proof. reflexivity. Qed.

Lemma extractModuleContext_valid (s : jsstring) (n : number) :
  Current.extractModuleContext (VString s) (VNumber n)
  = Normal (Current.mkContext
              (map (fun m => trim (matched m))
                 (matchAll Current.importRegex (slice s (Int 0) (Some (ToIntegerOrInfinity n)))))
              (map (fun m => trim (matched m))
                 (matchAll Current.declRegex (slice s (Int 0) (Some (ToIntegerOrInfinity n)))))
              (slice s (Int 0) (Some (ToIntegerOrInfinity n)))).
Proof. reflexivity. Qed.

(** The loop of the current scanner ends within [length content + 1]
    rounds and keeps the records in source order. *)
Lemma current_scanLoop_spec content : forall fuel st,
  Current.regexLastIndex st = Current.lastIndex st ->
  Current.lastIndex st <= length content ->
  wellScanned content 0 (map currentSpan (Current.scanned st)) ->
  lastEnd 0 (map currentSpan (Current.scanned st)) = Current.lastIndex st ->
  length content - Current.regexLastIndex st < fuel ->
  exists st', Current.scanLoop fuel content st = Some (Normal st')
    /\ wellScanned content 0 (map currentSpan (Current.scanned st'))
    /\ lastEnd 0 (map currentSpan (Current.scanned st')) = Current.lastIndex st'
    /\ Current.lastIndex st' <= length content.
Proof.
  induction fuel as [|fuel IH]; intros st Hre Hli Hws Hle Hfuel; [lia |].
  cbn [Current.scanLoop].
  destruct (exec Current.functionRegex content (Current.regexLastIndex st)) as [m|] eqn:E.
  - apply exec_spec in E as (H1 & H2 & H3 & H4 & H5 & H6).
    specialize (H4 current_consumes).
    rewrite extractModuleContext_valid.
    assert (Hend : index m + length (matched m) = lastIndexAfter m) by lia.
    apply IH; cbn [Current.regexLastIndex Current.lastIndex Current.scanned].
    + lia.
    + lia.
    + rewrite map_app. cbn [map]. rewrite currentSpan_mk.
      apply wellScanned_snoc; try done; try lia.
      rewrite sliceN_take_drop, Hend. done.
    + rewrite map_app. cbn [map]. rewrite currentSpan_mk.
      rewrite lastEnd_snoc. done.
    + lia.
  - eexists. split; [done |]. done.
Qed.

(** The loop of the previous scanner; its records store the gaps. *)
Lemma previous_scanLoop_spec content : forall fuel st,
  Previous.regexLastIndex st = Previous.lastIndex st ->
  Previous.lastIndex st <= length content ->
  wellScanned content 0 (map previousSpan (Previous.scanned st)) ->
  lastEnd 0 (map previousSpan (Previous.scanned st)) = Previous.lastIndex st ->
  previousPreTextAndCode (Previous.scanned st) = take (Previous.lastIndex st) content ->
  length content - Previous.regexLastIndex st < fuel ->
  exists st', Previous.scanLoop fuel content st = Some st'
    /\ wellScanned content 0 (map previousSpan (Previous.scanned st'))
    /\ lastEnd 0 (map previousSpan (Previous.scanned st')) = Previous.lastIndex st'
    /\ previousPreTextAndCode (Previous.scanned st') = take (Previous.lastIndex st') content
    /\ Previous.lastIndex st' <= length content.
Proof.
  induction fuel as [|fuel IH]; intros st Hre Hli Hws Hle Hpre Hfuel; [lia |].
  cbn [Previous.scanLoop].
  destruct (exec Previous.functionRegex content (Previous.regexLastIndex st)) as [m|] eqn:E.
  - apply exec_spec in E as (H1 & H2 & H3 & H4 & H5 & H6).
    specialize (H4 previous_consumes).
    assert (Hend : index m + length (matched m) = lastIndexAfter m) by lia.
    apply IH; cbn [Previous.regexLastIndex Previous.lastIndex Previous.scanned].
    + lia.
    + lia.
    + rewrite map_app.
      cbn [map]. rewrite previousSpan_mk.
      apply wellScanned_snoc; try done; try lia.
      rewrite sliceN_take_drop, Hend. done.
    + rewrite map_app.
      cbn [map]. rewrite previousSpan_mk.
      rewrite lastEnd_snoc. done.
    + unfold previousPreTextAndCode in *. rewrite map_app, concat_app, Hpre.
      cbn [map concat Previous.preText Previous.code]. rewrite app_nil_r, app_assoc.
      rewrite take_app_slice by lia. rewrite Hend, H5, <- sliceN_take_drop.
      apply take_app_slice. lia.
    + lia.
  - eexists. split; [done |]. done.
Qed.

Lemma current_scan_result content fuel :
  length content < fuel ->
  exists st, Current.scanLoop fuel content (Current.mkScan 0 [] 0) = Some (Normal st)
    /\ wellScanned content 0 (map currentSpan (Current.scanned st))
    /\ lastEnd 0 (map currentSpan (Current.scanned st)) = Current.lastIndex st
    /\ Current.lastIndex st <= length content
    /\ sort Current.byStartIndex (Current.scanned st) = Current.scanned st.
Proof.
  intros Hfuel.
  destruct (current_scanLoop_spec content fuel (Current.mkScan 0 [] 0))
    as (st & Hrun & Hws & Hle & Hli); simpl; try done; try lia.
  exists st. repeat split; try done.
  apply sort_sorted. intros i f g Hf Hg. unfold Current.byStartIndex.
  assert (Hf' : map currentSpan (Current.scanned st) !! i = Some (currentSpan f))
    by (by rewrite list_lookup_fmap, Hf).
  assert (Hg' : map currentSpan (Current.scanned st) !! S i = Some (currentSpan g))
    by (by rewrite list_lookup_fmap, Hg).
  destruct (wellScanned_lookup _ _ _ _ _ _ _ Hws Hf') as (_ & _ & _ & _ & Hlater).
  destruct (Hlater (S i) _ _ _ ltac:(lia) Hg'). lia.
Qed.

Lemma previous_scan_result content fuel :
  length content < fuel ->
  exists st, Previous.scanLoop fuel content (Previous.mkScan 0 [] 0) = Some st
    /\ wellScanned content 0 (map previousSpan (Previous.scanned st))
    /\ lastEnd 0 (map previousSpan (Previous.scanned st)) = Previous.lastIndex st
    /\ previousPreTextAndCode (Previous.scanned st) = take (Previous.lastIndex st) content
    /\ Previous.lastIndex st <= length content.
Proof.
  intros Hfuel.
  destruct (previous_scanLoop_spec content fuel (Previous.mkScan 0 [] 0))
    as (st & Hrun & Hws & Hle & Hpre & Hli); simpl; try done; try lia.
  exists st. done.
Qed.

End ScannerFacts.

(** ** The match of [jsonObjectRegex] *)

Module JsonMatchFacts.

Import RegExp Spec RegExpFacts.

Lemma jsonObjectRegex_unfold :
  Current.jsonObjectRegex
  = Cat (Chr (only LBRACE)) (Cat (Star (Chr anyChar)) (Chr (only RBRACE))).
Proof. reflexivity. Qed.

Lemma closing_cons i a tl caps :
  closing (mkState i (a :: tl) caps)
  = if (a =? RBRACE)%N then Some (mkState (S i) tl caps) else None.
Proof. reflexivity. Qed.

Lemma closing_nil i caps : closing (mkState i [] caps) = None.
Proof. reflexivity. Qed.

(** One round of the greedy [[^]*]: first the longer matches, then the
    continuation here. *)
Lemma anyStar_cons fuel i a tl :
  repeatMatcher (matcher (Chr anyChar)) 0 None true [] closing (S fuel) (mkState i (a :: tl) [])
  = match repeatMatcher (matcher (Chr anyChar)) 0 None true [] closing fuel (mkState (S i) tl []) with
    | Some z => Some z
    | None => closing (mkState i (a :: tl) [])
    end.
Proof.
  transitivity
    (match (if (0 =? 0) && (S i =? i) then None
            else repeatMatcher (matcher (Chr anyChar)) 0 None true [] closing fuel
                   (mkState (S i) tl [])) with
     | Some z => Some z
     | None => closing (mkState i (a :: tl) [])
     end); [reflexivity |].
  by rewrite (proj2 (Nat.eqb_neq (S i) i)) by lia.
Qed.

Lemma anyStar_nil fuel i :
  repeatMatcher (matcher (Chr anyChar)) 0 None true [] closing (S fuel) (mkState i [] []) = None.
Proof. reflexivity. Qed.

(** Without a closing brace ahead, [[^]*}] fails. *)
Lemma anyStar_none l : forall fuel i,
  RBRACE ∉ l ->
  repeatMatcher (matcher (Chr anyChar)) 0 None true [] closing fuel (mkState i l []) = None.
Proof.
  induction l as [|a tl IH]; intros [|fuel] i Hno; try done.
  rewrite anyStar_cons, IH, closing_cons.
  - destruct (N.eqb_spec a RBRACE) as [-> |]; [| done].
    exfalso. apply Hno, list_elem_of_here.
  - intros H. apply Hno. by apply list_elem_of_further.
Qed.

(** [[^]*}] ends after the last closing brace. *)
Lemma anyStar_last post body : forall fuel i,
  RBRACE ∉ post -> length (body ++ RBRACE :: post) < fuel ->
  repeatMatcher (matcher (Chr anyChar)) 0 None true [] closing fuel
    (mkState i (body ++ RBRACE :: post) [])
  = Some (mkState (i + length body + 1) post []).
Proof.
  induction body as [|a body IH]; intros [|fuel] i Hno Hfuel; try (simpl in Hfuel; lia).
  - cbn [app]. rewrite anyStar_cons, anyStar_none by done.
    rewrite closing_cons, N.eqb_refl. f_equal. f_equal. simpl. lia.
  - cbn [app]. rewrite anyStar_cons, IH; [| done | simpl in Hfuel; lia].
    f_equal. f_equal. simpl. lia.
Qed.

Lemma matcher_json_cons i a tl :
  matcher Current.jsonObjectRegex (mkState i (a :: tl) []) Some
  = if (a =? LBRACE)%N then
      repeatMatcher (matcher (Chr anyChar)) 0 None true [] closing (S (length tl)) (mkState (S i) tl [])
    else None.
Proof. reflexivity. Qed.

Lemma matcher_json_nil i : matcher Current.jsonObjectRegex (mkState i [] []) Some = None.
Proof. reflexivity. Qed.

(** No match without an opening brace, or without a closing one. *)
Lemma search_json_none l : forall i,
  LBRACE ∉ l \/ RBRACE ∉ l -> search Current.jsonObjectRegex i l = None.
Proof.
  induction l as [|a tl IH]; intros i Hno.
  - done.
  - cbn [search]. rewrite matcher_json_cons.
    assert (Htl : LBRACE ∉ tl \/ RBRACE ∉ tl).
    { destruct Hno as [H | H]; [left | right]; intros H'; apply H;
        by apply list_elem_of_further. }
    destruct (N.eqb_spec a LBRACE) as [-> | Hne].
    + destruct Hno as [H | H]; [exfalso; apply H, list_elem_of_here |].
      rewrite anyStar_none, IH; [done | done |].
      intros H'. apply H. by apply list_elem_of_further.
    + by rewrite IH.
Qed.

(** The match runs from the first opening brace to the last closing one. *)
Lemma search_json_first_last pre body post : forall i,
  LBRACE ∉ pre -> RBRACE ∉ post ->
  search Current.jsonObjectRegex i (pre ++ LBRACE :: body ++ RBRACE :: post)
  = Some (i + length pre, mkState (i + length pre + length body + 2) post []).
Proof.
  induction pre as [|a pre IH]; intros i Hpre Hpost.
  - cbn [app search]. rewrite matcher_json_cons, N.eqb_refl.
    rewrite anyStar_last; [| done | lia]. simpl. do 3 f_equal; lia.
  - cbn [app search]. rewrite matcher_json_cons.
    destruct (N.eqb_spec a LBRACE) as [-> | Hne];
      [exfalso; apply Hpre, list_elem_of_here |].
    rewrite IH; [| | done].
    + simpl. do 3 f_equal; lia.
    + intros H. apply Hpre. by apply list_elem_of_further.
Qed.

Lemma exec_json_none (text : jsstring) :
  LBRACE ∉ text \/ RBRACE ∉ text -> exec Current.jsonObjectRegex text 0 = None.
Proof.
  intros Hno. unfold exec.
  destruct (Nat.ltb_spec (length text) 0); [done |].
  by rewrite drop_0, search_json_none.
Qed.

Lemma exec_json_first_last (pre body post : jsstring) :
  LBRACE ∉ pre -> RBRACE ∉ post ->
  exec Current.jsonObjectRegex (pre ++ LBRACE :: body ++ RBRACE :: post) 0
  = Some (mkMatch (length pre) (LBRACE :: body ++ [RBRACE])
            (length pre + length body + 2) []).
Proof.
  intros Hpre Hpost. unfold exec.
  destruct (Nat.ltb_spec (length (pre ++ LBRACE :: body ++ RBRACE :: post)) 0); [lia |].
  rewrite drop_0, search_json_first_last by done. cbn [endIndex captures map].
  f_equal. f_equal. rewrite sliceN_take_drop.
  replace (0 + length pre + length body + 2 - (0 + length pre)) with (S (length body + 1)) by lia.
  rewrite Nat.add_0_l, drop_app_length. cbn [take]. f_equal.
  replace (body ++ RBRACE :: post) with ((body ++ [RBRACE]) ++ post)
    by (by rewrite <- app_assoc).
  rewrite take_app_length'; [done |]. rewrite length_app. simpl. lia.
Qed.

End JsonMatchFacts.

(** ** [indexOf], [lastIndexOf] and [Promise.all] *)

Module PlatformFacts.

Import Spec.

Lemma startsWith_one c a (s : jsstring) : startsWith [c] (a :: s) = (c =? a)%N.
Proof. simpl. by rewrite andb_true_r. Qed.

Lemma indexOfFrom_none c (l : jsstring) : forall i,
  c ∉ l -> indexOfFrom [c] l i = None.
Proof.
  induction l as [|a l IH]; intros i Hno; [done |].
  cbn [indexOfFrom]. rewrite startsWith_one.
  destruct (N.eqb_spec c a) as [-> |]; [exfalso; apply Hno, list_elem_of_here |].
  apply IH. intros H. apply Hno. by apply list_elem_of_further.
Qed.

Lemma indexOfFrom_first c (pre rest : jsstring) : forall i,
  c ∉ pre -> indexOfFrom [c] (pre ++ c :: rest) i = Some (i + length pre).
Proof.
  induction pre as [|a pre IH]; intros i Hno.
  - cbn [app indexOfFrom]. rewrite startsWith_one, N.eqb_refl. simpl. f_equal. lia.
  - cbn [app indexOfFrom]. rewrite startsWith_one.
    destruct (N.eqb_spec c a) as [-> |]; [exfalso; apply Hno, list_elem_of_here |].
    rewrite IH; [simpl; f_equal; lia |].
    intros H. apply Hno. by apply list_elem_of_further.
Qed.

Lemma lastIndexOfFrom_none c (l : jsstring) : forall i,
  c ∉ l -> lastIndexOfFrom [c] l i = None.
Proof.
  induction l as [|a l IH]; intros i Hno; [done |].
  cbn [lastIndexOfFrom]. rewrite startsWith_one, IH.
  - destruct (N.eqb_spec c a) as [-> |]; [exfalso; apply Hno, list_elem_of_here | done].
  - intros H. apply Hno. by apply list_elem_of_further.
Qed.

Lemma lastIndexOfFrom_last c (l post : jsstring) : forall i,
  c ∉ post -> lastIndexOfFrom [c] (l ++ c :: post) i = Some (i + length l).
Proof.
  induction l as [|a l IH]; intros i Hno.
  - cbn [app lastIndexOfFrom]. rewrite startsWith_one, N.eqb_refl.
    rewrite lastIndexOfFrom_none by done. simpl. f_equal. lia.
  - cbn [app lastIndexOfFrom]. rewrite IH by done. simpl. f_equal. lia.
Qed.

Lemma indexOfFrom_lookup c (l : jsstring) : forall i j,
  indexOfFrom [c] l i = Some j -> i <= j /\ l !! (j - i) = Some c.
Proof.
  induction l as [|a l IH]; intros i j; [done |].
  cbn [indexOfFrom]. rewrite startsWith_one.
  destruct (N.eqb_spec c a) as [-> |].
  - intros [= <-]. by rewrite Nat.sub_diag.
  - intros H. apply IH in H as [Hle Hl]. split; [lia |].
    replace (j - i) with (S (j - S i)) by lia. done.
Qed.

Lemma lastIndexOfFrom_lookup c (l : jsstring) : forall i j,
  lastIndexOfFrom [c] l i = Some j -> i <= j /\ l !! (j - i) = Some c.
Proof.
  induction l as [|a l IH]; intros i j; [done |].
  cbn [lastIndexOfFrom]. rewrite startsWith_one.
  destruct (lastIndexOfFrom [c] l (S i)) as [k|] eqn:E.
  - intros [= <-]. apply IH in E as [Hle Hl]. split; [lia |].
    replace (k - i) with (S (k - S i)) by lia. done.
  - destruct (N.eqb_spec c a) as [-> |]; [| done].
    intros [= <-]. by rewrite Nat.sub_diag.
Qed.

(** [Promise.all] over promises that all fulfil: once each has settled,
    in whatever order, the values are those of the promises in the order
    of the array. *)
Lemma promiseAllFrom_fulfilled {A} (vs : list A) (schedule : list nat) :
  forall values : list (option A),
    length values = length vs ->
    (forall i v, values !! i = Some (Some v) -> vs !! i = Some v) ->
    (forall i, i < length vs -> i ∈ schedule \/ exists v, values !! i = Some (Some v)) ->
    promiseAllFrom (map Normal vs) values schedule = Some (Normal vs).
Proof.
  induction schedule as [|i schedule IH]; intros values Hlen Hok Hcover.
  - cbn [promiseAllFrom]. assert (values = Some <$> vs) as ->.
    { apply list_eq. intros i. rewrite list_lookup_fmap.
      destruct (Nat.lt_ge_cases i (length vs)) as [Hi | Hi].
      - destruct (Hcover i Hi) as [Hin | [v Hv]]; [by inversion Hin |].
        rewrite Hv, (Hok _ _ Hv). done.
      - rewrite !lookup_ge_None_2; [done | lia | lia]. }
    assert (mapM id (Some <$> vs) = Some vs) as ->; [| done].
    apply mapM_Some_2. apply Forall2_fmap_l. by apply Forall_Forall2_diag, Forall_true.
  - cbn [promiseAllFrom]. change (map Normal vs) with (Normal <$> vs).
    rewrite list_lookup_fmap.
    destruct (vs !! i) as [v|] eqn:Ev; cbn [fmap option_fmap option_map].
    + apply IH.
      * by rewrite length_insert.
      * intros j w Hj. destruct (decide (i = j)) as [<- | Hne].
        -- rewrite list_lookup_insert_eq in Hj; [congruence |].
           apply lookup_lt_Some in Ev. lia.
        -- by rewrite list_lookup_insert_ne in Hj; [apply Hok |].
      * intros j Hj. destruct (decide (i = j)) as [<- | Hne].
        -- right. exists v. apply list_lookup_insert_eq.
           apply lookup_lt_Some in Ev. lia.
        -- destruct (Hcover j Hj) as [Hin | [w Hw]].
           ++ left. apply elem_of_cons in Hin as [-> | Hin]; [done | done].
           ++ right. exists w. by rewrite list_lookup_insert_ne.
    + apply IH; [done | done |].
      intros j Hj. destruct (Hcover j Hj) as [Hin | Hv]; [| by right].
      left. apply elem_of_cons in Hin as [-> | Hin]; [| done].
      apply lookup_ge_None in Ev. lia.
Qed.

Lemma promiseAll_fulfilled {A} (vs : list A) (schedule : list nat) :
  schedule ≡ₚ seq 0 (length vs) ->
  promiseAll (map Normal vs) schedule = Some (Normal vs).
Proof.
  intros Hperm. unfold promiseAll. apply promiseAllFrom_fulfilled.
  - by rewrite length_replicate, length_map.
  - intros i v Hi. apply lookup_replicate in Hi as [? _]. done.
  - intros i Hi. left. rewrite Hperm. apply elem_of_seq. lia.
Qed.

(** [sort], [filter] and [map] *)

Lemma insertSorted_perm {A} (compare : A -> A -> Z) x l :
  insertSorted compare x l ≡ₚ x :: l.
Proof.
  induction l as [|y l IH]; simpl; [done |].
  destruct (0 <? compare x y)%Z; [| done].
  rewrite IH. apply Permutation_swap.
Qed.

Lemma sort_perm {A} (compare : A -> A -> Z) (l : list A) : sort compare l ≡ₚ l.
Proof.
  induction l as [|x l IH]; [done |].
  unfold sort in *. simpl. rewrite insertSorted_perm. by rewrite IH.
Qed.

Lemma elem_of_rev {A} (x : A) (l : list A) : x ∈ rev l <-> x ∈ l.
Proof. rewrite !list_elem_of_In. symmetry. apply in_rev. Qed.

Lemma insertSorted_last {A} (compare : A -> A -> Z) x l :
  (forall y, y ∈ l -> (0 < compare x y)%Z) -> insertSorted compare x l = l ++ [x].
Proof.
  induction l as [|y l IH]; intros H; [done |]. simpl.
  destruct (Z.ltb_spec 0 (compare x y)) as [_ | Hle].
  - rewrite IH; [done |]. intros z Hz. apply H. by apply list_elem_of_further.
  - specialize (H y (list_elem_of_here _ _)). lia.
Qed.

Lemma filterC_elem {A} (f : A -> Completion bool) (l l' : list A) x :
  filterC f l = Normal l' -> x ∈ l -> f x = Normal true -> x ∈ l'.
Proof.
  revert l'. induction l as [|y l IH]; intros l' Hrun Hx Hfx; [by inversion Hx |].
  simpl in Hrun. destruct (f y) as [keep|] eqn:Ey; [| done]. simpl in Hrun.
  destruct (filterC f l) as [tl|] eqn:Etl; [| done]. simpl in Hrun.
  injection Hrun as <-.
  apply elem_of_cons in Hx as [-> | Hx].
  - rewrite Hfx in Ey. injection Ey as <-. apply list_elem_of_here.
  - specialize (IH tl eq_refl Hx Hfx). destruct keep; [by apply list_elem_of_further | done].
Qed.

Lemma filterC_none {A} (f : A -> Completion bool) (l : list A) :
  (forall x, x ∈ l -> f x = Normal false) -> filterC f l = Normal [].
Proof.
  induction l as [|y l IH]; intros H; [done |]. simpl.
  rewrite (H y) by apply list_elem_of_here. simpl.
  rewrite IH; [done |]. intros x Hx. apply H. by apply list_elem_of_further.
Qed.

Lemma filterC_total {A} (f : A -> Completion bool) (g : A -> bool) (l : list A) :
  (forall x, x ∈ l -> f x = Normal (g x)) -> filterC f l = Normal (List.filter g l).
Proof.
  induction l as [|y l IH]; intros H; [done |]. simpl.
  rewrite (H y) by apply list_elem_of_here. simpl.
  rewrite IH; [done |]. intros x Hx. apply H. by apply list_elem_of_further.
Qed.

Lemma mapIndexC_throws {A B} (f : A -> nat -> Completion B) (l : list A) x :
  x ∈ l -> (forall i, exists e, f x i = Throw e) ->
  forall i, exists e, mapIndexC f i l = Throw e.
Proof.
  intros Hx Hf. induction l as [|y l IH]; intros i; [by inversion Hx |].
  simpl. destruct (f y i) as [b|e] eqn:Ey; [| by exists e]. simpl.
  apply elem_of_cons in Hx as [-> | Hx].
  - destruct (Hf i) as [e He]. congruence.
  - destruct (IH Hx (S i)) as [e ->]. by exists e.
Qed.

End PlatformFacts.

(** ** [JSON.parse]: the fuel of the parser is never used up *)

Module JsonFacts.

Import JSON.

Lemma skipWs_length (s : jsstring) : length (skipWs s) <= length s.
Proof.
  induction s as [|c s IH]; [done |]. simpl.
  destruct (isJsonWs c); simpl; lia.
Qed.

Lemma eat_length c (s s' : jsstring) : eat c s = Some s' -> length s = S (length s').
Proof.
  destruct s as [|a s]; [done |]. simpl.
  destruct (a =? c)%N; [| done]. by intros [= ->].
Qed.

Lemma stripPrefix_length (p : jsstring) : forall s s' : jsstring,
  stripPrefix p s = Some s' -> length s = length p + length s'.
Proof.
  induction p as [|a p IH]; intros s s'; simpl.
  - by intros [= ->].
  - destruct s as [|b s]; [done |]. destruct (a =? b)%N; [| done].
    intros H. apply IH in H. simpl. lia.
Qed.

Lemma digits_length (s : jsstring) : forall acc n v k s',
  digits s acc n = (v, k, s') -> length s' + k = length s + n.
Proof.
  induction s as [|c s IH]; intros acc n v k s'; simpl.
  - intros [= <- <- <-]. simpl. lia.
  - destruct (isDigit c).
    + intros H. apply IH in H. lia.
    + intros [= <- <- <-]. simpl. lia.
Qed.

Lemma parseInt_length (s : jsstring) i s' :
  parseInt s = Some (i, s') -> length s' < length s.
Proof.
  unfold parseInt. destruct (eat 48 s) as [t|] eqn:E.
  - intros [= <- <-]. apply eat_length in E. lia.
  - destruct (digits s 0%Z 0) as [[v n] t] eqn:D. apply digits_length in D.
    destruct (Nat.eqb_spec n 0); [done |]. intros [= <- <-]. lia.
Qed.

Lemma parseFraction_length i (s : jsstring) m scale s' :
  parseFraction i s = Some (m, scale, s') -> length s' <= length s.
Proof.
  unfold parseFraction. destruct (eat 46 s) as [t|] eqn:E.
  - apply eat_length in E.
    destruct (digits t i 0) as [[v n] t'] eqn:D. apply digits_length in D.
    destruct (n =? 0); [done |]. intros [= <- <- <-]. lia.
  - intros [= <- <- <-]. lia.
Qed.

Lemma parseExponent_length (s : jsstring) e s' :
  parseExponent s = Some (e, s') -> length s' <= length s.
Proof.
  unfold parseExponent. destruct s as [|c s]; [by intros [= <- <-] |].
  destruct ((c =? 101) || (c =? 69))%N; [| by intros [= <- <-]].
  destruct (eat 45 s) as [u|] eqn:E1; [| destruct (eat 43 s) as [u|] eqn:E2];
    cbv beta iota zeta;
    match goal with
    | |- context [digits ?t 0%Z 0] =>
        destruct (digits t 0%Z 0) as [[v n] t'] eqn:D; apply digits_length in D
    end;
    (destruct (n =? 0); [done |]); intros [= <- <-];
    try apply eat_length in E1; try apply eat_length in E2; simpl; lia.
Qed.

Lemma parseNumber_length (s : jsstring) v s' :
  parseNumber s = Some (v, s') -> length s' < length s.
Proof.
  unfold parseNumber, parseSign.
  destruct (eat 45 s) as [u|] eqn:E0; cbv beta iota zeta;
    match goal with
    | |- context [parseInt ?t] =>
        destruct (parseInt t) as [[i s1]|] eqn:E1; [| done];
        apply parseInt_length in E1
    end;
    (destruct (parseFraction i s1) as [[[m scale] s2]|] eqn:E2; [| done]);
    apply parseFraction_length in E2;
    (destruct (parseExponent s2) as [[e rest]|] eqn:E3; [| done]);
    apply parseExponent_length in E3;
    intros [= <- <-]; try apply eat_length in E0; lia.
Qed.

Lemma parseString_length (s : jsstring) : forall acc k s',
  parseString s acc = Some (k, s') -> length s' < length s.
Proof.
  induction s as [s IH] using (induction_ltof1 _ (@length N)). unfold ltof in IH.
  intros acc k s'. destruct s as [|c s]; [done |]. cbn [parseString].
  destruct (c =? 34)%N; [intros [= <- <-]; simpl; lia |].
  destruct (c =? 92)%N.
  - destruct s as [|e s]; [done |].
    destruct (simpleEscape e).
    + intros H. apply IH in H; simpl in *; lia.
    + destruct (e =? 117)%N; [| done].
      destruct s as [|h1 [|h2 [|h3 [|h4 s]]]]; try done.
      destruct (hexValue h1), (hexValue h2), (hexValue h3), (hexValue h4); try done.
      intros H. apply IH in H; simpl in *; lia.
  - destruct (c <? 32)%N; [done |].
    intros H. apply IH in H; simpl in *; lia.
Qed.

(** A value, the rest of an array and the rest of an object all read at
    least one code unit. *)
Lemma parse_shrinks fuel :
  (forall s v s', parseValue fuel s = Some (v, s') -> length s' < length s)
  /\ (forall s acc v s', parseElements fuel s acc = Some (v, s') -> length s' < length s)
  /\ (forall s acc v s', parseMembers fuel s acc = Some (v, s') -> length s' < length s).
Proof.
  induction fuel as [|fuel (IHv & IHe & IHm)]; [done |]. split; [| split].
  - intros s v s'. cbn [parseValue].
    pose proof (skipWs_length s) as Hws.
    destruct (skipWs s) as [|c s0]; [done |]. simpl in Hws.
    pose proof (skipWs_length s0) as Hws0.
    destruct (c =? 123)%N.
    { destruct (eat 125 (skipWs s0)) as [rest|] eqn:E.
      - apply eat_length in E. intros [= <- <-]. lia.
      - intros H. apply IHm in H. lia. }
    destruct (c =? 91)%N.
    { destruct (eat 93 (skipWs s0)) as [rest|] eqn:E.
      - apply eat_length in E. intros [= <- <-]. lia.
      - intros H. apply IHe in H. lia. }
    destruct (c =? 34)%N.
    { destruct (parseString s0 []) as [[str rest]|] eqn:E; [| done].
      apply parseString_length in E. intros [= <- <-]. lia. }
    destruct (stripPrefix (js "true") (c :: s0)) as [rest|] eqn:E1.
    { apply stripPrefix_length in E1. change (length (js "true")) with 4 in E1.
      intros [= <- <-]. simpl in E1. lia. }
    destruct (stripPrefix (js "false") (c :: s0)) as [rest|] eqn:E2.
    { apply stripPrefix_length in E2. change (length (js "false")) with 5 in E2.
      intros [= <- <-]. simpl in E2. lia. }
    destruct (stripPrefix (js "null") (c :: s0)) as [rest|] eqn:E3.
    { apply stripPrefix_length in E3. change (length (js "null")) with 4 in E3.
      intros [= <- <-]. simpl in E3. lia. }
    intros H. apply parseNumber_length in H. simpl in H. lia.
  - intros s acc v s'. cbn [parseElements].
    destruct (parseValue fuel s) as [[w s1]|] eqn:E; [| done]. apply IHv in E.
    pose proof (skipWs_length s1) as Hws.
    destruct (skipWs s1) as [|c s2]; [done |]. simpl in Hws.
    destruct (c =? 44)%N; [intros H; apply IHe in H; lia |].
    destruct (c =? 93)%N; [| done]. intros [= <- <-]. lia.
  - intros s acc v s'. cbn [parseMembers].
    pose proof (skipWs_length s) as Hws.
    destruct (eat 34 (skipWs s)) as [s1|] eqn:E1; [| done]. apply eat_length in E1.
    destruct (parseString s1 []) as [[k s2]|] eqn:E2; [| done].
    apply parseString_length in E2.
    pose proof (skipWs_length s2) as Hws2.
    destruct (eat 58 (skipWs s2)) as [s3|] eqn:E3; [| done]. apply eat_length in E3.
    destruct (parseValue fuel s3) as [[w s4]|] eqn:E4; [| done]. apply IHv in E4.
    pose proof (skipWs_length s4) as Hws4.
    destruct (skipWs s4) as [|c s5]; [done |]. simpl in Hws4.
    destruct (c =? 44)%N; [intros H; apply IHm in H; lia |].
    destruct (c =? 125)%N; [| done]. intros [= <- <-]. lia.
Qed.

(** Above two rounds for each code unit, more fuel changes nothing. *)
Lemma parse_fuel_enough fuel1 :
  (forall s fuel2,
      2 * length s + 2 <= fuel1 -> 2 * length s + 2 <= fuel2 ->
      parseValue fuel1 s = parseValue fuel2 s)
  /\ (forall s acc fuel2,
        2 * length s + 3 <= fuel1 -> 2 * length s + 3 <= fuel2 ->
        parseElements fuel1 s acc = parseElements fuel2 s acc)
  /\ (forall s acc fuel2,
        2 * length s + 3 <= fuel1 -> 2 * length s + 3 <= fuel2 ->
        parseMembers fuel1 s acc = parseMembers fuel2 s acc).
Proof.
  induction fuel1 as [|fuel1 (IHv & IHe & IHm)]; [split; [| split]; intros; lia |].
  split; [| split].
  - intros s [|fuel2] H1 H2; [lia |]. cbn [parseValue].
    pose proof (skipWs_length s) as Hws.
    destruct (skipWs s) as [|c s0]; [done |]. simpl in Hws.
    destruct (c =? 123)%N.
    { destruct (eat 125 (skipWs s0)); [done |]. apply IHm; lia. }
    destruct (c =? 91)%N; [| done].
    destruct (eat 93 (skipWs s0)); [done |]. apply IHe; lia.
  - intros s acc [|fuel2] H1 H2; [lia |]. cbn [parseElements].
    rewrite (IHv s fuel2) by lia.
    destruct (parseValue fuel2 s) as [[w s1]|] eqn:E; [| done].
    apply (proj1 (parse_shrinks fuel2)) in E.
    pose proof (skipWs_length s1) as Hws.
    destruct (skipWs s1) as [|c s2]; [done |]. simpl in Hws.
    destruct (c =? 44)%N; [| done]. apply IHe; lia.
  - intros s acc [|fuel2] H1 H2; [lia |]. cbn [parseMembers].
    pose proof (skipWs_length s) as Hws.
    destruct (eat 34 (skipWs s)) as [s1|] eqn:E1; [| done]. apply eat_length in E1.
    destruct (parseString s1 []) as [[k s2]|] eqn:E2; [| done].
    apply parseString_length in E2.
    pose proof (skipWs_length s2) as Hws2.
    destruct (eat 58 (skipWs s2)) as [s3|] eqn:E3; [| done]. apply eat_length in E3.
    rewrite (IHv s3 fuel2) by lia.
    destruct (parseValue fuel2 s3) as [[w s4]|] eqn:E4; [| done].
    apply (proj1 (parse_shrinks fuel2)) in E4.
    pose proof (skipWs_length s4) as Hws4.
    destruct (skipWs s4) as [|c s5]; [done |]. simpl in Hws4.
    destruct (c =? 44)%N; [| done]. apply IHm; lia.
Qed.

Lemma parse_fuel (text : jsstring) fuel :
  2 * length text + 2 <= fuel ->
  parseValue fuel text = parseValue (2 * length text + 2) text.
Proof. intros H. apply parse_fuel_enough; lia. Qed.

End JsonFacts.

(** ** From the first opening brace to the last closing brace *)

Module ExtractionFacts.

Import RegExp Spec RegExpFacts JsonMatchFacts PlatformFacts.

Lemma braces_differ : LBRACE <> RBRACE.
Proof. done. Qed.

Lemma slice_braces (pre body post : jsstring) :
  sliceN (pre ++ LBRACE :: body ++ RBRACE :: post) (length pre)
    (length pre + length body + 2)
  = LBRACE :: body ++ [RBRACE].
Proof.
  rewrite sliceN_take_drop.
  replace (length pre + length body + 2 - length pre) with (S (length body + 1)) by lia.
  rewrite drop_app_length. cbn [take]. f_equal.
  replace (body ++ RBRACE :: post) with ((body ++ [RBRACE]) ++ post)
    by (by rewrite <- app_assoc).
  rewrite take_app_length'; [done |]. rewrite length_app. simpl. lia.
Qed.

(** When no opening brace comes before and no closing brace after, the
    braces found are those of the object. *)
Lemma firstToLast_exact (pre body post : jsstring) :
  LBRACE ∉ pre -> RBRACE ∉ post ->
  firstToLast (pre ++ LBRACE :: body ++ RBRACE :: post) = Some (LBRACE :: body ++ [RBRACE]).
Proof.
  intros Hpre Hpost. unfold firstToLast, indexOf, lastIndexOf.
  rewrite indexOfFrom_first by done.
  replace (pre ++ LBRACE :: body ++ RBRACE :: post)
    with ((pre ++ LBRACE :: body) ++ RBRACE :: post) at 1
    by (by rewrite <- app_assoc).
  rewrite lastIndexOfFrom_last by done. rewrite length_app. cbn [length Nat.add].
  destruct (Nat.ltb_spec (length pre) (length pre + S (length body))); [| lia].
  f_equal. replace (length pre + S (length body) + 1) with (length pre + length body + 2) by lia.
  apply slice_braces.
Qed.

Lemma firstToLast_none (text : jsstring) :
  LBRACE ∉ text \/ RBRACE ∉ text -> firstToLast text = None.
Proof.
  intros [H | H]; unfold firstToLast, indexOf, lastIndexOf.
  - by rewrite indexOfFrom_none.
  - rewrite (lastIndexOfFrom_none _ _ _ H). by destruct (indexOfFrom _ _ _).
Qed.

Lemma search_json_unclosed rest pre : forall i,
  LBRACE ∉ pre -> RBRACE ∉ rest ->
  search Current.jsonObjectRegex i (pre ++ LBRACE :: rest) = None.
Proof.
  induction pre as [|a pre IH]; intros i Hpre Hrest.
  - cbn [app search]. rewrite matcher_json_cons, N.eqb_refl.
    rewrite anyStar_none by done. apply search_json_none. by right.
  - cbn [app search]. rewrite matcher_json_cons.
    destruct (N.eqb_spec a LBRACE) as [-> | Hne];
      [exfalso; apply Hpre, list_elem_of_here |].
    apply IH; [| done]. intros H. apply Hpre. by apply list_elem_of_further.
Qed.

(** The regular expression of the current revision finds what the
    previous revision computes with [indexOf] and [lastIndexOf]. *)
Lemma exec_json_firstToLast (text : jsstring) :
  matched <$> exec Current.jsonObjectRegex text 0 = firstToLast text.
Proof.
  destruct (decide (LBRACE ∈ text)) as [Hin | Hno].
  - apply list_elem_of_split_l in Hin as (pre & rest1 & -> & Hpre).
    destruct (decide (RBRACE ∈ rest1)) as [Hin' | Hno'].
    + apply list_elem_of_split_r in Hin' as (body & post & -> & Hpost).
      by rewrite exec_json_first_last, firstToLast_exact.
    + unfold exec.
      destruct (Nat.ltb_spec (length (pre ++ LBRACE :: rest1)) 0); [lia |].
      rewrite drop_0, search_json_unclosed by done. cbn [fmap option_fmap option_map].
      unfold firstToLast, indexOf, lastIndexOf. rewrite indexOfFrom_first by done.
      destruct (decide (RBRACE ∈ pre)) as [Hin'' | Hno''].
      * apply list_elem_of_split_r in Hin'' as (p1 & p2 & -> & Hp2).
        rewrite <- app_assoc. cbn [app].
        rewrite lastIndexOfFrom_last.
        -- rewrite length_app. cbn [length Nat.add].
           by destruct (Nat.ltb_spec (length p1 + S (length p2)) (length p1)); [lia |].
        -- intros Hx. apply elem_of_app in Hx as [Hx | Hx]; [done |].
           apply elem_of_cons in Hx as [Hx | Hx]; [by apply braces_differ | done].
      * rewrite lastIndexOfFrom_none; [done |].
        intros Hx. apply elem_of_app in Hx as [Hx | Hx]; [done |].
        apply elem_of_cons in Hx as [Hx | Hx]; [by apply braces_differ | done].
  - rewrite exec_json_none, firstToLast_none; [done | by left | by left].
Qed.

(** The substring from the first opening to the last closing brace holds
    the object; it is the object when no opening brace comes before it
    and no closing brace after it, and only then. *)
Lemma firstToLast_around (pre body post : jsstring) :
  exists before after,
    firstToLast (pre ++ LBRACE :: body ++ RBRACE :: post)
    = Some (before ++ LBRACE :: body ++ RBRACE :: after)
    /\ (before = [] <-> LBRACE ∉ pre) /\ (after = [] <-> RBRACE ∉ post).
Proof.
  assert (Hleft : exists p1 before,
            pre = p1 ++ before /\ (LBRACE ∉ p1)
            /\ (before = [] \/ exists p2, before = LBRACE :: p2)
            /\ (before = [] <-> LBRACE ∉ pre)).
  { destruct (decide (LBRACE ∈ pre)) as [Hin | Hno].
    - apply list_elem_of_split_l in Hin as (p1 & p2 & -> & Hp1).
      exists p1, (LBRACE :: p2). split; [done |]. split; [done |].
      split; [right; by exists p2 |]. split; [done |].
      intros Hno. exfalso. apply Hno, elem_of_app. right. apply list_elem_of_here.
    - exists pre, []. rewrite app_nil_r. split; [done |]. split; [done |].
      split; [by left | done]. }
  assert (Hright : exists after q2,
            post = after ++ q2 /\ (RBRACE ∉ q2)
            /\ (after = [] \/ exists q1, after = q1 ++ [RBRACE])
            /\ (after = [] <-> RBRACE ∉ post)).
  { destruct (decide (RBRACE ∈ post)) as [Hin | Hno].
    - apply list_elem_of_split_r in Hin as (q1 & q2 & -> & Hq2).
      exists (q1 ++ [RBRACE]), q2. rewrite <- app_assoc. split; [done |].
      split; [done |]. split; [right; by exists q1 |]. split.
      + intros H. by destruct q1.
      + intros Hno. exfalso. apply Hno, elem_of_app. right. apply list_elem_of_here.
    - exists [], post. split; [done |]. split; [done |]. split; [by left | done]. }
  destruct Hleft as (p1 & before & -> & Hp1 & Hbefore & Hiff1).
  destruct Hright as (after & q2 & -> & Hq2 & Hafter & Hiff2).
  exists before, after. split; [| done].
  destruct Hbefore as [-> | [p2 ->]]; destruct Hafter as [-> | [q1 ->]];
    rewrite <- ?app_assoc; cbn [app].
  - by rewrite firstToLast_exact.
  - replace (p1 ++ LBRACE :: body ++ RBRACE :: q1 ++ RBRACE :: q2)
      with (p1 ++ LBRACE :: (body ++ RBRACE :: q1) ++ RBRACE :: q2)
      by (rewrite <- ?app_assoc; cbn [app]; by rewrite <- ?app_assoc).
    rewrite firstToLast_exact by done. rewrite <- ?app_assoc; cbn [app]; by rewrite <- ?app_assoc.
  - replace (p1 ++ LBRACE :: p2 ++ LBRACE :: body ++ RBRACE :: q2)
      with (p1 ++ LBRACE :: (p2 ++ LBRACE :: body) ++ RBRACE :: q2)
      by (rewrite <- ?app_assoc; cbn [app]; by rewrite <- ?app_assoc).
    rewrite firstToLast_exact by done. rewrite <- ?app_assoc; cbn [app]; by rewrite <- ?app_assoc.
  - replace (p1 ++ LBRACE :: p2 ++ LBRACE :: body ++ RBRACE :: q1 ++ RBRACE :: q2)
      with (p1 ++ LBRACE :: (p2 ++ LBRACE :: body ++ RBRACE :: q1) ++ RBRACE :: q2)
      by (rewrite <- ?app_assoc; cbn [app]; by rewrite <- ?app_assoc).
    rewrite firstToLast_exact by done. rewrite <- ?app_assoc; cbn [app]; by rewrite <- ?app_assoc.
Qed.

(** An opening brace with no closing brace after it gives no substring. *)
Lemma firstToLast_unclosed (pre rest : jsstring) :
  LBRACE ∉ pre -> RBRACE ∉ rest -> firstToLast (pre ++ LBRACE :: rest) = None.
Proof.
  intros Hpre Hrest. rewrite <- exec_json_firstToLast. unfold exec.
  destruct (Nat.ltb_spec (length (pre ++ LBRACE :: rest)) 0); [lia |].
  by rewrite drop_0, search_json_unclosed.
Qed.

(** What [analyzeFunction] stores as the analysis. *)
Lemma analyzeFunction_spec chat analysisPrompt functionData :
  fst (Current.analyzeFunction chat analysisPrompt functionData)
  = Current.mkAnalyzed functionData
      match chat (Current.analysisMessages analysisPrompt functionData) with
      | Throw _ => defaultVerdict
      | Normal response => verdictOf (Current.accumulate response)
      end.
Proof.
  unfold Current.analyzeFunction, verdictOf.
  destruct (chat _) as [response | e]; cbn [bindC]; [| done].
  rewrite <- exec_json_firstToLast.
  destruct (exec Current.jsonObjectRegex (Current.accumulate response) 0) as [m|];
    cbn [fmap option_fmap option_map]; [| done].
  by destruct (JSON.parse (matched m)).
Qed.

(** What [analyzeFunctionForRefactoring] returns for a response. *)
Lemma analyzeFunctionForRefactoring_spec chat functionCode analysisPrompt response :
  chat (Previous.analysisMessages functionCode analysisPrompt) = Normal response ->
  Previous.analyzeFunctionForRefactoring chat functionCode analysisPrompt
  = Normal (verdictOf (Previous.cleaned (Previous.accumulate response))).
Proof.
  intros Hchat. unfold Previous.analyzeFunctionForRefactoring. rewrite Hchat.
  cbn [bindC]. unfold verdictOf, firstToLast, indexOf, lastIndexOf.
  change (js "{") with [LBRACE]. change (js "}") with [RBRACE].
  set (text := Previous.cleaned (Previous.accumulate response)).
  destruct (indexOfFrom [LBRACE] text 0) as [first|] eqn:Efirst;
    destruct (lastIndexOfFrom [RBRACE] text 0) as [last|] eqn:Elast; try done.
  rewrite (proj2 (Nat.eqb_neq (last + 1) 0)) by lia.
  destruct (Nat.ltb_spec first last) as [Hlt | Hge].
  - by destruct (JSON.parse (sliceN text first (last + 1))).
  - apply indexOfFrom_lookup in Efirst as [_ Hf].
    apply lastIndexOfFrom_lookup in Elast as [_ Hl].
    rewrite Nat.sub_0_r in Hf, Hl.
    assert (last < first).
    { destruct (decide (first = last)) as [-> |]; [| lia].
      rewrite Hf in Hl. exfalso. apply braces_differ. congruence. }
    rewrite sliceN_take_drop. replace (last + 1 - first) with 0 by lia. done.
Qed.

Lemma analyzeFunctionBatch_results chat functionBatch analysisPrompt schedule :
  functionBatch <> [] -> analysisPrompt <> [] ->
  schedule ≡ₚ seq 0 (length functionBatch) ->
  fst (Current.analyzeFunctionBatch chat functionBatch analysisPrompt schedule)
  = Some (Normal (map (fun f => fst (Current.analyzeFunction chat analysisPrompt f))
                    functionBatch)).
Proof.
  intros Hbatch Hprompt Hperm. unfold Current.analyzeFunctionBatch.
  destruct functionBatch as [|f0 batch]; [done |].
  destruct analysisPrompt as [|c0 prompt]; [done |].
  cbn [length Nat.eqb orb fst]. rewrite map_map.
  rewrite <- (map_map (fun f => fst (Current.analyzeFunction chat (c0 :: prompt) f)) Normal).
  apply promiseAll_fulfilled. by rewrite length_map.
Qed.

End ExtractionFacts.

(** ** The spliced generator *)

Module SplicedFacts.

Import Spec RegExpFacts SpanFacts PlatformFacts.

Lemma wellScanned_lower content l : forall lo sp,
  wellScanned content lo l -> sp ∈ l -> lo <= fst (fst sp).
Proof.
  induction l as [|[[s e] c] l IH]; intros lo sp Hl Hin; [by inversion Hin |].
  destruct Hl as (H1 & H2 & H3 & H4 & Hl).
  apply elem_of_cons in Hin as [-> | Hin]; [done |].
  specialize (IH _ _ Hl Hin). lia.
Qed.

(** Records in source order are processed last to first. *)
Lemma sort_descending_rev content l : forall lo,
  wellScanned content lo (map analyzedSpan l) ->
  sort Previous.byStartIndexDescending l = rev l.
Proof.
  induction l as [|r l IH]; intros lo Hl; [done |].
  destruct Hl as (H1 & H2 & H3 & H4 & Hl).
  change (sort Previous.byStartIndexDescending (r :: l))
    with (insertSorted Previous.byStartIndexDescending r
            (sort Previous.byStartIndexDescending l)).
  rewrite (IH _ Hl). cbn [rev]. apply insertSorted_last.
  intros y Hy. apply (proj1 (elem_of_rev _ _)) in Hy.
  assert (Hy' : analyzedSpan y ∈ map analyzedSpan l)
    by (change (analyzedSpan y ∈ analyzedSpan <$> l); by apply list_elem_of_fmap_2).
  pose proof (wellScanned_lower _ _ _ _ Hl Hy') as Hlow.
  unfold Previous.byStartIndexDescending. cbn [analyzedSpan previousSpan fst] in Hlow.
  lia.
Qed.

Lemma insertSorted_descending {A} (key : A -> nat) x l :
  StronglySorted (fun a b => key b < key a) l ->
  (forall y, y ∈ l -> key y <> key x) ->
  StronglySorted (fun a b => key b < key a)
    (insertSorted (fun a b => Z.of_nat (key b) - Z.of_nat (key a))%Z x l).
Proof.
  induction l as [|y l IH]; intros Hl Hx.
  { constructor; constructor. }
  apply StronglySorted_inv in Hl as [Hl Hy]. cbn [insertSorted].
  pose proof (Hx y (list_elem_of_here _ _)) as Hne.
  destruct (Z.ltb_spec 0 (Z.of_nat (key y) - Z.of_nat (key x))) as [Hlt | Hge].
  - constructor.
    + apply IH; [done |]. intros z Hz. apply Hx. by apply list_elem_of_further.
    + rewrite (insertSorted_perm _ x l). constructor; [lia | done].
  - constructor; [by constructor |].
    constructor; [lia |]. eapply Forall_impl; [exact Hy |]. cbn. intros z Hz. lia.
Qed.

Lemma sort_descending {A} (key : A -> nat) (l : list A) :
  NoDup (map key l) ->
  StronglySorted (fun a b => key b < key a)
    (sort (fun a b => Z.of_nat (key b) - Z.of_nat (key a))%Z l).
Proof.
  induction l as [|x l IH]; intros Hl; [constructor |].
  apply NoDup_cons in Hl as [Hx Hl].
  apply insertSorted_descending; [by apply IH |].
  intros y Hy Heq. apply Hx. rewrite <- Heq.
  assert (Hy' : y ∈ l)
    by (rewrite <- (sort_perm (fun a b => Z.of_nat (key b) - Z.of_nat (key a))%Z l);
        exact Hy).
  change (key y ∈ key <$> l). by apply list_elem_of_fmap_2.
Qed.

Lemma descending_unique {A} (key : A -> nat) : forall l1 l2 : list A,
  StronglySorted (fun a b => key b < key a) l1 ->
  StronglySorted (fun a b => key b < key a) l2 ->
  l1 ≡ₚ l2 -> l1 = l2.
Proof.
  induction l1 as [|x l1 IH]; intros l2 H1 H2 Hperm.
  { by apply Permutation_nil_l in Hperm. }
  destruct l2 as [|y l2]; [by apply Permutation_nil_r in Hperm |].
  apply StronglySorted_inv in H1 as [H1 Hx].
  apply StronglySorted_inv in H2 as [H2 Hy].
  assert (x = y) as <-.
  { assert (Hxin : x ∈ y :: l2) by (rewrite <- Hperm; apply list_elem_of_here).
    assert (Hyin : y ∈ x :: l1) by (rewrite Hperm; apply list_elem_of_here).
    apply elem_of_cons in Hxin as [-> | Hxin]; [done |].
    apply elem_of_cons in Hyin as [-> | Hyin]; [done |].
    rewrite Forall_forall in Hx, Hy.
    specialize (Hx y Hyin). specialize (Hy x Hxin). cbn in Hx, Hy. lia. }
  f_equal. apply IH; [done | done |]. by apply Permutation_cons_inv in Hperm.
Qed.

Lemma StronglySorted_snoc {A} (R : A -> A -> Prop) l x :
  StronglySorted R l -> Forall (fun y => R y x) l -> StronglySorted R (l ++ [x]).
Proof.
  induction l as [|y l IH]; intros Hl Hx; [by repeat constructor |].
  apply StronglySorted_inv in Hl as [Hl Hy]. apply Forall_cons in Hx as [Hyx Hx].
  cbn [app]. constructor; [by apply IH |].
  apply Forall_app. split; [done | by constructor].
Qed.

(** The spans of records in source order start at offsets that grow. *)
Lemma wellScanned_descending content l : forall lo,
  wellScanned content lo (map analyzedSpan l) ->
  StronglySorted (fun a b => Previous.startIndex (Previous.functionData b)
                             < Previous.startIndex (Previous.functionData a)) (rev l)
  /\ NoDup (map (fun r => Previous.startIndex (Previous.functionData r)) l).
Proof.
  induction l as [|r l IH]; intros lo Hl.
  { split; constructor. }
  destruct Hl as (H1 & H2 & H3 & H4 & Hl).
  cbn [analyzedSpan previousSpan] in H1, H2, H3, H4, Hl.
  destruct (IH _ Hl) as [Hsorted Hdistinct].
  assert (Hlater : forall y, y ∈ l ->
            Previous.startIndex (Previous.functionData r)
            < Previous.startIndex (Previous.functionData y)).
  { intros y Hy.
    assert (Hy' : analyzedSpan y ∈ map analyzedSpan l)
      by (change (analyzedSpan y ∈ analyzedSpan <$> l); by apply list_elem_of_fmap_2).
    pose proof (wellScanned_lower _ _ _ _ Hl Hy') as Hlow.
    cbn [analyzedSpan previousSpan fst] in Hlow. lia. }
  split.
  - cbn [rev]. apply StronglySorted_snoc; [done |].
    apply Forall_forall. intros y Hy. apply Hlater. by apply elem_of_rev.
  - cbn [map]. apply NoDup_cons. split; [| done].
    intros Hin. apply list_elem_of_In, in_map_iff in Hin as (y & Heq & Hy).
    apply list_elem_of_In in Hy. specialize (Hlater y Hy). lia.
Qed.

(** Records in any order are processed last to first. *)
Lemma sort_descending_perm content l ordered :
  l ≡ₚ ordered ->
  wellScanned content 0 (map analyzedSpan ordered) ->
  sort Previous.byStartIndexDescending l = rev ordered.
Proof.
  intros Hperm Hws.
  destruct (wellScanned_descending content ordered 0 Hws) as [Hsorted Hdistinct].
  apply (descending_unique (fun r => Previous.startIndex (Previous.functionData r))).
  - apply (sort_descending (fun r => Previous.startIndex (Previous.functionData r))).
    change (NoDup ((fun r => Previous.startIndex (Previous.functionData r)) <$> l)).
    by rewrite Hperm.
  - exact Hsorted.
  - rewrite sort_perm, Hperm. apply Permutation_rev.
Qed.

Lemma forEach_app l1 l2 c :
  Previous.forEach (l1 ++ l2) c
  = bindC (Previous.forEach l1 c) (Previous.forEach l2).
Proof.
  revert c. induction l1 as [|r l1 IH]; intros c; [done |].
  cbn [app Previous.forEach]. destruct (Previous.insertComment c r); [| done].
  cbn [bindC]. apply IH.
Qed.

Lemma needsRefactor_verdict r flag prompt :
  hasVerdict (Previous.analysis r) flag prompt -> Previous.needsRefactor r = Normal flag.
Proof. intros [H _]. unfold Previous.needsRefactor. by rewrite H. Qed.

(** One round of the loop on a document whose text before [hi] is still
    that of the content: the comment goes right before the function. *)
Lemma insertComment_spec content r flag prompt tail hi :
  hasVerdict (Previous.analysis r) flag prompt ->
  Previous.startIndex (Previous.functionData r) <= hi -> hi <= length content ->
  Previous.insertComment (take hi content ++ tail) r
  = Normal (take (Previous.startIndex (Previous.functionData r)) content
              ++ match prompt with
                 | Some (c :: s) => Previous.refactorComment (split LF (c :: s))
                 | _ => []
                 end
              ++ sliceN content (Previous.startIndex (Previous.functionData r)) hi
              ++ tail).
Proof.
  intros [_ Hp] Hs Hhi. unfold Previous.insertComment. rewrite Hp. cbn [bindC].
  set (s := Previous.startIndex (Previous.functionData r)) in *.
  assert (Hsame : take hi content ++ tail
                  = take s content ++ [] ++ sliceN content s hi ++ tail).
  { cbn [app]. by rewrite app_assoc, take_app_slice. }
  destruct prompt as [[|c p]|]; cbn [truthy]; try (by rewrite Hsame).
  cbn [splitLines bindC]. f_equal.
  rewrite sliceN_take_drop, sliceFrom_drop, Nat.sub_0_r, drop_0.
  rewrite take_app_le by (rewrite length_take; lia).
  rewrite take_take, Nat.min_l by lia.
  rewrite drop_app_le by (rewrite length_take; lia).
  by rewrite skipn_firstn_comm, <- sliceN_take_drop.
Qed.

Lemma commentBlock_verdict r flag prompt :
  hasVerdict (Previous.analysis r) flag prompt ->
  commentBlock r
  = match flag, prompt with
    | true, Some (c :: s) => Some (Previous.refactorComment (split LF (c :: s)))
    | _, _ => None
    end.
Proof.
  intros H. unfold commentBlock. rewrite (needsRefactor_verdict _ _ _ H).
  destruct H as [_ ->]. by destruct flag, prompt as [[|c s]|].
Qed.

(** The loop over the flagged records, last to first, produces the
    spliced document. *)
Lemma forEach_spliced content l : forall lo,
  wellScanned content lo (map analyzedSpan l) ->
  (forall r, r ∈ l -> exists flag prompt, hasVerdict (Previous.analysis r) flag prompt) ->
  lo <= length content ->
  exists flags,
    filterC Previous.needsRefactor (rev l) = Normal flags
    /\ Previous.forEach flags content = Normal (take lo content ++ spliced content lo l).
Proof.
  induction l as [|r l IH]; intros lo Hl Hv Hlo.
  - exists []. split; [done |]. cbn [Previous.forEach spliced].
    by rewrite sliceFrom_drop, take_drop.
  - destruct Hl as (H1 & H2 & H3 & H4 & Hl).
    cbn [analyzedSpan previousSpan] in H1, H2, H3, H4, Hl.
    destruct (IH _ Hl) as (flags & Hflags & Hrun);
      [intros r' Hr'; apply Hv; by apply list_elem_of_further | done |].
    destruct (Hv r (list_elem_of_here _ _)) as (flag & prompt & Hr).
    pose proof (needsRefactor_verdict _ _ _ Hr) as Hflag.
    exists (flags ++ if flag then [r] else []). split.
    + cbn [rev].
      assert (Hall : forall x, x ∈ rev l ++ [r] ->
                exists b, Previous.needsRefactor x = Normal b).
      { intros x Hx. apply elem_of_app in Hx as [Hx | Hx].
        - apply (proj1 (elem_of_rev _ _)) in Hx.
          destruct (Hv x (list_elem_of_further _ _ _ Hx)) as (b & p & Hb).
          exists b. by eapply needsRefactor_verdict.
        - apply list_elem_of_singleton in Hx as ->. by exists flag. }
      clear -Hflags Hflag. revert flags Hflags.
      induction (rev l) as [|x xs IHx]; intros flags Hflags.
      * injection Hflags as <-. simpl. rewrite Hflag. simpl. by destruct flag.
      * simpl in *. destruct (Previous.needsRefactor x) as [keep|]; [| done].
        simpl in *. destruct (filterC Previous.needsRefactor xs) as [tl|]; [| done].
        simpl in *. injection Hflags as <-. rewrite (IHx tl eq_refl). simpl.
        by destruct keep.
    + rewrite forEach_app, Hrun. cbn [bindC spliced].
      rewrite (commentBlock_verdict _ _ _ Hr).
      set (s := Previous.startIndex (Previous.functionData r)) in *.
      set (e := Previous.endIndex (Previous.functionData r)) in *.
      assert (Hkeep : take e content ++ spliced content e l
                      = take lo content ++ sliceN content lo s ++ []
                          ++ Previous.code (Previous.functionData r)
                          ++ spliced content e l).
      { cbn [app]. rewrite H4.
        rewrite (app_assoc (take lo content)), take_app_slice by done.
        by rewrite app_assoc, take_app_slice by lia. }
      destruct flag.
      * cbn [Previous.forEach].
        rewrite (insertComment_spec content r true prompt _ e Hr) by (fold s; lia).
        cbn [bindC]. f_equal. fold s. rewrite <- H4.
        rewrite (app_assoc (take lo content)), take_app_slice by done.
        by destruct prompt as [[|c p]|].
      * cbn [Previous.forEach default]. by rewrite Hkeep.
Qed.

Lemma spliced_split content l : forall lo r,
  r ∈ l ->
  exists before after,
    spliced content lo l
    = before ++ default [] (commentBlock r)
        ++ Previous.code (Previous.functionData r) ++ after.
Proof.
  induction l as [|r0 l IH]; intros lo r Hr; [by inversion Hr |].
  apply elem_of_cons in Hr as [-> | Hr]; cbn [spliced].
  - eexists _, _. reflexivity.
  - destruct (IH (Previous.endIndex (Previous.functionData r0)) r Hr)
      as (before & after & ->).
    exists (sliceN content lo (Previous.startIndex (Previous.functionData r0))
              ++ default [] (commentBlock r0)
              ++ Previous.code (Previous.functionData r0) ++ before), after.
    by rewrite <- !app_assoc.
Qed.

End SplicedFacts.

(** * The claims *)

Import RegExp Spec RegExpFacts SpanFacts ScannerFacts JsonMatchFacts PlatformFacts
  ExtractionFacts SplicedFacts Examples.

(** ** The scanner is ordered (C1) *)

(** C1: for every content of the file read, the records that the scanner
    ([extractFunctions], current revision) returns are sorted ascending by
    [startIndex], in source order (each carries the text of the content
    between its offsets), and no two spans [startIndex, endIndex) overlap.
    The loop ends within [length content + 1] rounds. *)
Theorem C1_scanner_sorted_without_overlap
    (fuel : nat) (disk : Disk) (filePath content : jsstring) :
  files disk !! filePath = Some content ->
  length content < fuel ->
  exists result,
    Current.extractFunctions fuel disk filePath = Some (Normal result)
    /\ (forall i j f g,
          Current.functions result !! i = Some f ->
          Current.functions result !! j = Some g ->
          i < j ->
          Current.startIndex f < Current.startIndex g
          /\ Current.endIndex f <= Current.startIndex g)
    /\ (forall i f,
          Current.functions result !! i = Some f ->
          Current.startIndex f < Current.endIndex f
          /\ Current.endIndex f <= length content
          /\ Current.code f
             = sliceN content (Current.startIndex f) (Current.endIndex f)).
Proof.
  intros Hfile Hfuel.
  destruct (current_scan_result content fuel Hfuel) as (st & Hrun & Hws & _ & _ & Hsort).
  unfold Current.extractFunctions, readFile. rewrite Hfile, Hrun, Hsort.
  eexists. split; [reflexivity |]. cbn [Current.functions].
  split.
  - intros i j f g Hf Hg Hij.
    assert (Hf' : map currentSpan (Current.scanned st) !! i = Some (currentSpan f))
      by (by rewrite list_lookup_fmap, Hf).
    assert (Hg' : map currentSpan (Current.scanned st) !! j = Some (currentSpan g))
      by (by rewrite list_lookup_fmap, Hg).
    destruct (wellScanned_lookup _ _ _ _ _ _ _ Hws Hf') as (_ & _ & _ & _ & Hlater).
    destruct (Hlater j _ _ _ Hij Hg'). lia.
  - intros i f Hf.
    assert (Hf' : map currentSpan (Current.scanned st) !! i = Some (currentSpan f))
      by (by rewrite list_lookup_fmap, Hf).
    destruct (wellScanned_lookup _ _ _ _ _ _ _ Hws Hf') as (_ & ? & ? & ? & _).
    done.
Qed.

Lemma C1_witness :
  files (diskWith (js "/a/b.mjs") twoFunctions) !! js "/a/b.mjs" = Some twoFunctions
  /\ length twoFunctions < 100
  /\ exists result,
       Current.extractFunctions 100 (diskWith (js "/a/b.mjs") twoFunctions) (js "/a/b.mjs")
       = Some (Normal result)
       /\ (forall i j f g,
             Current.functions result !! i = Some f ->
             Current.functions result !! j = Some g ->
             i < j ->
             Current.startIndex f < Current.startIndex g
             /\ Current.endIndex f <= Current.startIndex g)
       /\ (forall i f,
             Current.functions result !! i = Some f ->
             Current.startIndex f < Current.endIndex f
             /\ Current.endIndex f <= length twoFunctions
             /\ Current.code f
                = sliceN twoFunctions (Current.startIndex f) (Current.endIndex f)).
Proof.
  assert (Hfile : files (diskWith (js "/a/b.mjs") twoFunctions) !! js "/a/b.mjs"
                  = Some twoFunctions) by (vm_compute; reflexivity).
  assert (Hlen : length twoFunctions < 100) by (vm_compute; lia).
  split; [exact Hfile |]. split; [exact Hlen |].
  exact (C1_scanner_sorted_without_overlap 100 _ _ _ Hfile Hlen).
Defined.

(** The two functions of the example are found at offsets 19 and 49. *)
Example current_scan_twoFunctions :
  (fun r => match r with
            | Some (Normal result) =>
                map (fun f => (Current.startIndex f, Current.endIndex f))
                  (Current.functions result)
            | _ => []
            end)
    (Current.extractFunctions 100 (diskWith (js "/a/b.mjs") twoFunctions) (js "/a/b.mjs"))
  = [(19, 48); (49, 67)].
Proof. vm_compute. reflexivity. Qed.

(** ** A failed analysis gives the default verdict (C2) *)

(** C2, as amended: for a batch and a prompt that are not empty the call
    returns normally with one result for each function, in order.  The
    analysis of a function is the default verdict when the chat request
    fails, when the response has no opening brace followed by a closing
    one, or when the text between them is not JSON.  When that text is
    JSON, the parsed value is the analysis as it is: the keys
    [needsRefactor] and [refactorPrompt] are not checked. *)
Theorem C2_failed_analysis_defaults
    (chat : ChatCapability) (functionBatch : list Current.FunctionRecord)
    (analysisPrompt : jsstring) (schedule : list nat) :
  functionBatch <> [] -> analysisPrompt <> [] ->
  schedule ≡ₚ seq 0 (length functionBatch) ->
  exists results,
    fst (Current.analyzeFunctionBatch chat functionBatch analysisPrompt schedule)
    = Some (Normal results)
    /\ length results = length functionBatch
    /\ forall i f,
         functionBatch !! i = Some f ->
         exists r,
           results !! i = Some r
           /\ Current.functionData r = f
           /\ (forall e,
                 chat (Current.analysisMessages analysisPrompt f) = Throw e ->
                 Current.analysis r = Current.defaultAnalysis)
           /\ (forall response,
                 chat (Current.analysisMessages analysisPrompt f) = Normal response ->
                 firstToLast (Current.accumulate response) = None ->
                 Current.analysis r = Current.defaultAnalysis)
           /\ (forall response jsonText e,
                 chat (Current.analysisMessages analysisPrompt f) = Normal response ->
                 firstToLast (Current.accumulate response) = Some jsonText ->
                 JSON.parse jsonText = Throw e ->
                 Current.analysis r = Current.defaultAnalysis)
           /\ (forall response jsonText parsed,
                 chat (Current.analysisMessages analysisPrompt f) = Normal response ->
                 firstToLast (Current.accumulate response) = Some jsonText ->
                 JSON.parse jsonText = Normal parsed ->
                 Current.analysis r = parsed).
Proof.
  intros Hbatch Hprompt Hperm. eexists.
  split; [by apply analyzeFunctionBatch_results |].
  split; [by rewrite length_map |].
  intros i f Hf. exists (fst (Current.analyzeFunction chat analysisPrompt f)).
  split.
  { change (map ?g functionBatch) with (g <$> functionBatch).
    by rewrite list_lookup_fmap, Hf. }
  rewrite analyzeFunction_spec. cbn [Current.functionData Current.analysis].
  split; [done |]. unfold verdictOf. repeat split.
  - intros e ->. done.
  - intros response -> ->. done.
  - intros response jsonText e -> -> ->. done.
  - intros response jsonText parsed -> -> ->. done.
Qed.

Lemma C2_witness :
  [fooRecord; barRecord] <> []
  /\ js "p" <> []
  /\ [1; 0] ≡ₚ List.seq 0 (length [fooRecord; barRecord])
  /\ exists results,
       fst (Current.analyzeFunctionBatch (answeringBy [(js "function bar", addValidation)])
              [fooRecord; barRecord] (js "p") [1; 0])
       = Some (Normal results)
       /\ length results = length [fooRecord; barRecord]
       /\ map Current.analysis results
          = [Current.defaultAnalysis; verdict true (Some (js "Add input validation."))].
Proof.
  assert (Hbatch : [fooRecord; barRecord] <> []) by discriminate.
  assert (Hprompt : js "p" <> []) by (vm_compute; discriminate).
  assert (Hperm : [1; 0] ≡ₚ List.seq 0 (length [fooRecord; barRecord]))
    by (simpl; apply Permutation_swap).
  split; [exact Hbatch |]. split; [exact Hprompt |]. split; [exact Hperm |].
  destruct (C2_failed_analysis_defaults (answeringBy [(js "function bar", addValidation)])
              [fooRecord; barRecord] (js "p") [1; 0] Hbatch Hprompt Hperm)
    as (results & Hrun & Hlen & _).
  exists results. split; [exact Hrun |]. split; [exact Hlen |].
  vm_compute in Hrun. injection Hrun as <-. vm_compute. reflexivity.
Defined.

(** C2 as stated fails for mistyped or missing keys: a response whose
    braces hold the JSON object [{ needsRefactor: 'yes' }] is stored as the
    analysis as it is, not replaced by the default verdict, and the record
    then counts as flagged. *)
Lemma C2_mistyped_keys_counterexample :
  fst (Current.analyzeFunctionBatch (answering mistyped) [fooRecord] (js "p") [0])
  = Some (Normal [Current.mkAnalyzed fooRecord
                    (JObject [(js "needsRefactor", JString (js "yes"))])])
  /\ JObject [(js "needsRefactor", JString (js "yes"))] <> Current.defaultAnalysis
  /\ Current.needsRefactor
       (Current.mkAnalyzed fooRecord (JObject [(js "needsRefactor", JString (js "yes"))]))
     = Normal true.
Proof. repeat split; try (vm_compute; reflexivity). vm_compute. discriminate. Qed.

(** ** The spliced variant puts comments before functions (C3) *)

(** C3, as amended: for the records of the scanner given in any order,
    each with a boolean [needsRefactor] and a [refactorPrompt] that is a
    string or null, the spliced [generateRefactorFile] sorts the records
    and processes them from the last of the source to the first, and
    writes the content with, for each flagged record whose
    [refactorPrompt] is a string that is not empty, its comment block
    right before the unchanged text of its function; the text of the
    content and the blocks put in earlier are otherwise left as they are.
    A flagged record whose [refactorPrompt] is null or empty gets no
    comment block.  [ordered] is the list of the records in source
    order. *)
Theorem C3_spliced_comment_before_flagged_function
    (path : PathModule) (filePath : jsstring)
    (analysisResults ordered : list Previous.AnalyzedFunctionRecord)
    (original : Previous.FileContent) (disk : Disk) (content : jsstring) :
  Previous.originalContent original = content ->
  analysisResults ≡ₚ ordered ->
  wellScanned content 0 (map analyzedSpan ordered) ->
  (forall r, r ∈ analysisResults ->
             exists flag prompt, hasVerdict (Previous.analysis r) flag prompt) ->
  readOnly disk (refactorPathOf path filePath) = false ->
  exists output,
    Previous.generateRefactorFile path filePath analysisResults original disk
    = (Normal (refactorPathOf path filePath),
       mkDisk (<[refactorPathOf path filePath := output]> (files disk)) (readOnly disk)
         (writes disk ++ [(refactorPathOf path filePath, output)]))
    /\ sort Previous.byStartIndexDescending analysisResults = rev ordered
    /\ output = spliced content 0 ordered
    /\ (forall r block,
          r ∈ analysisResults -> commentBlock r = Some block ->
          exists before after,
            output = before ++ block ++ Previous.code (Previous.functionData r) ++ after)
    /\ (forall r,
          r ∈ analysisResults ->
          hasVerdict (Previous.analysis r) true None
          \/ hasVerdict (Previous.analysis r) true (Some []) ->
          commentBlock r = None).
Proof.
  intros Horig Hperm Hws Hv Hwritable.
  assert (Hv' : forall r, r ∈ ordered ->
                  exists flag prompt, hasVerdict (Previous.analysis r) flag prompt).
  { intros r Hr. apply Hv. by rewrite Hperm. }
  destruct (forEach_spliced content ordered 0 Hws Hv' ltac:(lia))
    as (flags & Hflags & Hrun).
  exists (spliced content 0 ordered).
  pose proof (sort_descending_perm _ _ _ Hperm Hws) as Hsort.
  split; [| split; [done | split; [done | split]]].
  - unfold Previous.generateRefactorFile, bindIO, liftC, retIO.
    rewrite Hsort, Hflags, Horig, Hrun. rewrite take_0. cbn [app].
    unfold writeFile. fold (refactorPathOf path filePath). by rewrite Hwritable.
  - intros r block Hr Hblock. rewrite Hperm in Hr.
    destruct (spliced_split content ordered 0 r Hr) as (before & after & ->).
    rewrite Hblock. by eexists _, _.
  - intros r Hr [H | H]; by rewrite (commentBlock_verdict _ _ _ H).
Qed.

Lemma C3_witness :
  Previous.originalContent previousTwoFunctions = twoFunctions
  /\ [ Previous.mkAnalyzed previousBar (verdict true (Some (js "Name the result.")));
       Previous.mkAnalyzed previousFoo (verdict true (Some (js "Add input validation."))) ]
     ≡ₚ [ Previous.mkAnalyzed previousFoo (verdict true (Some (js "Add input validation.")));
          Previous.mkAnalyzed previousBar (verdict true (Some (js "Name the result."))) ]
  /\ wellScanned twoFunctions 0
       (map analyzedSpan
          [ Previous.mkAnalyzed previousFoo (verdict true (Some (js "Add input validation.")));
            Previous.mkAnalyzed previousBar (verdict true (Some (js "Name the result."))) ])
  /\ readOnly (diskWith (js "/a/b.mjs") twoFunctions)
       (refactorPathOf posixPath (js "/a/b.mjs")) = false
  /\ exists output,
       writes (snd (Previous.generateRefactorFile posixPath (js "/a/b.mjs")
                      [ Previous.mkAnalyzed previousBar
                          (verdict true (Some (js "Name the result.")));
                        Previous.mkAnalyzed previousFoo
                          (verdict true (Some (js "Add input validation."))) ]
                      previousTwoFunctions (diskWith (js "/a/b.mjs") twoFunctions)))
       = [(js "/a/b.refactor.mjs", output)]
       /\ output
          = text [ "import x from 'y';";
                   blank;
                   "/**";
                   " * REFACTOR:";
                   " * Add input validation.";
                   " */";
                   "function foo(a) { return a; }";
                   blank;
                   "/**";
                   " * REFACTOR:";
                   " * Name the result.";
                   " */";
                   "function bar() { }" ]%string.
Proof.
  assert (Horig : Previous.originalContent previousTwoFunctions = twoFunctions)
    by reflexivity.
  assert (Hperm :
            [ Previous.mkAnalyzed previousBar (verdict true (Some (js "Name the result.")));
              Previous.mkAnalyzed previousFoo
                (verdict true (Some (js "Add input validation."))) ]
            ≡ₚ [ Previous.mkAnalyzed previousFoo
                   (verdict true (Some (js "Add input validation.")));
                 Previous.mkAnalyzed previousBar
                   (verdict true (Some (js "Name the result."))) ])
    by apply Permutation_swap.
  assert (Hws : wellScanned twoFunctions 0
                  (map analyzedSpan
                     [ Previous.mkAnalyzed previousFoo
                         (verdict true (Some (js "Add input validation.")));
                       Previous.mkAnalyzed previousBar
                         (verdict true (Some (js "Name the result."))) ])).
  { simpl. repeat split; try lia; vm_compute; reflexivity. }
  assert (Hv : forall r,
             r ∈ [ Previous.mkAnalyzed previousBar
                     (verdict true (Some (js "Name the result.")));
                   Previous.mkAnalyzed previousFoo
                     (verdict true (Some (js "Add input validation."))) ] ->
             exists flag prompt, hasVerdict (Previous.analysis r) flag prompt).
  { intros r Hr. apply elem_of_cons in Hr as [-> | Hr].
    - exists true, (Some (js "Name the result.")). split; vm_compute; reflexivity.
    - apply list_elem_of_singleton in Hr as ->.
      exists true, (Some (js "Add input validation.")). split; vm_compute; reflexivity. }
  assert (Hw : readOnly (diskWith (js "/a/b.mjs") twoFunctions)
                 (refactorPathOf posixPath (js "/a/b.mjs")) = false) by reflexivity.
  split; [exact Horig |]. split; [exact Hperm |]. split; [exact Hws |].
  split; [exact Hw |].
  destruct (C3_spliced_comment_before_flagged_function posixPath (js "/a/b.mjs") _ _
              previousTwoFunctions (diskWith (js "/a/b.mjs") twoFunctions) twoFunctions
              Horig Hperm Hws Hv Hw) as (output & Hrun & _ & Hout & _).
  exists output. rewrite Hrun. split.
  - vm_compute. reflexivity.
  - rewrite Hout. vm_compute. reflexivity.
Defined.

(** C3 as stated fails for flagged records without a prompt: both
    records are flagged, one with a null and one with an empty
    [refactorPrompt]; the document written is the unchanged content, with
    no comment block before either function. *)
Lemma C3_flagged_without_prompt_counterexample :
  Previous.needsRefactor (Previous.mkAnalyzed previousFoo (verdict true None)) = Normal true
  /\ Previous.needsRefactor (Previous.mkAnalyzed previousBar (verdict true (Some [])))
     = Normal true
  /\ writes (snd (Previous.generateRefactorFile posixPath (js "/a/b.mjs")
                    [ Previous.mkAnalyzed previousFoo (verdict true None);
                      Previous.mkAnalyzed previousBar (verdict true (Some [])) ]
                    previousTwoFunctions (diskWith (js "/a/b.mjs") twoFunctions)))
     = [(js "/a/b.refactor.mjs", twoFunctions)]
  /\ includes twoFunctions (js "REFACTOR") = false.
Proof. repeat split; vm_compute; reflexivity. Qed.

(** ** Nothing flagged (C4) *)

(** C4, as amended: when no record is flagged (the [needsRefactor] of each
    is read as false), the consolidated [generateRefactorFile] returns
    [null] and leaves the disk as it was; the spliced
    [generateRefactorFile] has no such case: it writes the unchanged
    original content to the [.refactor] path and returns that path. *)
Theorem C4_nothing_flagged (path : PathModule) (filePath : jsstring) (disk : Disk) :
  (forall (analysisResults : list Current.AnalyzedFunctionRecord)
          (original : Current.FileContent),
      (forall r, r ∈ analysisResults -> Current.needsRefactor r = Normal false) ->
      Current.generateRefactorFile path filePath analysisResults original disk
      = (Normal None, disk))
  /\ (forall (analysisResults : list Previous.AnalyzedFunctionRecord)
             (original : Previous.FileContent),
        (forall r, r ∈ analysisResults -> Previous.needsRefactor r = Normal false) ->
        readOnly disk (refactorPathOf path filePath) = false ->
        Previous.generateRefactorFile path filePath analysisResults original disk
        = (Normal (refactorPathOf path filePath),
           mkDisk (<[refactorPathOf path filePath := Previous.originalContent original]>
                     (files disk))
             (readOnly disk)
             (writes disk
                ++ [(refactorPathOf path filePath, Previous.originalContent original)]))).
Proof.
  split.
  - intros analysisResults original Hnone.
    unfold Current.generateRefactorFile, tryCatchIO, bindIO, liftC.
    rewrite (filterC_none _ _ Hnone). reflexivity.
  - intros analysisResults original Hnone Hwritable.
    unfold Previous.generateRefactorFile, bindIO, liftC, retIO.
    rewrite filterC_none.
    + cbn [Previous.forEach]. unfold writeFile.
      fold (refactorPathOf path filePath). rewrite Hwritable. reflexivity.
    + intros r Hr. apply Hnone. by rewrite sort_perm in Hr.
Qed.

Lemma C4_witness :
  (forall r, r ∈ [Current.mkAnalyzed fooRecord (verdict false None)] ->
             Current.needsRefactor r = Normal false)
  /\ Current.generateRefactorFile posixPath (js "/a/b.mjs")
       [Current.mkAnalyzed fooRecord (verdict false None)]
       twoFunctionsContent (diskWith (js "/a/b.mjs") twoFunctions)
     = (Normal None, diskWith (js "/a/b.mjs") twoFunctions).
Proof.
  assert (Hnone : forall r, r ∈ [Current.mkAnalyzed fooRecord (verdict false None)] ->
                            Current.needsRefactor r = Normal false).
  { intros r Hr. apply list_elem_of_singleton in Hr as ->. vm_compute. reflexivity. }
  split; [exact Hnone |].
  exact (proj1 (C4_nothing_flagged posixPath (js "/a/b.mjs")
                  (diskWith (js "/a/b.mjs") twoFunctions)) _ twoFunctionsContent Hnone).
Defined.

(** C4 as stated fails on the spliced variant: with no record at all it
    returns the path, not [null], and has written the original content. *)
Lemma C4_spliced_counterexample :
  fst (Previous.generateRefactorFile posixPath (js "/a/b.mjs") []
         previousTwoFunctions (diskWith (js "/a/b.mjs") twoFunctions))
  = Normal (js "/a/b.refactor.mjs")
  /\ writes (snd (Previous.generateRefactorFile posixPath (js "/a/b.mjs") []
                    previousTwoFunctions (diskWith (js "/a/b.mjs") twoFunctions)))
     = [(js "/a/b.refactor.mjs", twoFunctions)]
  /\ writes (diskWith (js "/a/b.mjs") twoFunctions) = [].
Proof. repeat split; vm_compute; reflexivity. Qed.

(** ** Reading the verdict from the response (C5) *)

(** C5, as amended: the analysis is read from the substring that runs
    from the first opening brace to the last closing brace of the text,
    parsed as one JSON value, and is the default verdict when there is no
    such substring or it is not JSON; nothing is thrown.  The current
    revision searches the accumulated response as it is, the previous one
    the response without its code-fence markers, trimmed.  For a text
    that holds a JSON object, the substring parsed holds the object and is
    the object exactly when no opening brace comes before it and no
    closing brace after it; a closing brace before it or an opening brace
    after it changes nothing.  A text without an opening brace, without a
    closing brace, or with no closing brace after the first opening one
    gives the default verdict. *)
Theorem C5_verdict_extraction (chat : ChatCapability) (analysisPrompt : jsstring) :
  (forall functionData response,
      chat (Current.analysisMessages analysisPrompt functionData) = Normal response ->
      Current.analysis (fst (Current.analyzeFunction chat analysisPrompt functionData))
      = verdictOf (Current.accumulate response))
  /\ (forall functionCode response,
        chat (Previous.analysisMessages functionCode analysisPrompt) = Normal response ->
        Previous.analyzeFunctionForRefactoring chat functionCode analysisPrompt
        = Normal (verdictOf (Previous.cleaned (Previous.accumulate response))))
  /\ (forall pre body post,
        LBRACE ∉ pre -> RBRACE ∉ post ->
        verdictOf (pre ++ LBRACE :: body ++ RBRACE :: post)
        = match JSON.parse (LBRACE :: body ++ [RBRACE]) with
          | Normal parsed => parsed
          | Throw _ => defaultVerdict
          end)
  /\ (forall pre body post,
        exists before after,
          firstToLast (pre ++ LBRACE :: body ++ RBRACE :: post)
          = Some (before ++ LBRACE :: body ++ RBRACE :: after)
          /\ (before = [] <-> LBRACE ∉ pre) /\ (after = [] <-> RBRACE ∉ post))
  /\ (forall text, LBRACE ∉ text \/ RBRACE ∉ text -> verdictOf text = defaultVerdict)
  /\ (forall pre rest,
        LBRACE ∉ pre -> RBRACE ∉ rest -> verdictOf (pre ++ LBRACE :: rest) = defaultVerdict).
Proof.
  split; [| split; [| split; [| split; [| split]]]].
  - intros functionData response Hchat. by rewrite analyzeFunction_spec, Hchat.
  - intros functionCode response Hchat. by apply analyzeFunctionForRefactoring_spec.
  - intros pre body post Hpre Hpost. unfold verdictOf.
    by rewrite firstToLast_exact.
  - apply firstToLast_around.
  - intros text Hno. unfold verdictOf. by rewrite firstToLast_none.
  - intros pre rest Hpre Hrest. unfold verdictOf. by rewrite firstToLast_unclosed.
Qed.

Lemma C5_witness :
  answering proseFenceVerdict (Current.analysisMessages (js "p") fooRecord)
  = Normal [proseFenceVerdict]
  /\ Current.analysis (fst (Current.analyzeFunction (answering proseFenceVerdict)
                              (js "p") fooRecord))
     = verdictOf (Current.accumulate [proseFenceVerdict])
  /\ verdictOf (Current.accumulate [proseFenceVerdict])
     = verdict true (Some (js "Add input validation.")).
Proof.
  assert (Hchat : answering proseFenceVerdict (Current.analysisMessages (js "p") fooRecord)
                  = Normal [proseFenceVerdict]) by reflexivity.
  split; [exact Hchat |]. split.
  - exact (proj1 (C5_verdict_extraction (answering proseFenceVerdict) (js "p"))
             fooRecord _ Hchat).
  - vm_compute. reflexivity.
Defined.

(** Prose, a fenced code block without braces and a trailing JSON object:
    both revisions return the object. *)
Example verdict_after_prose_and_fence :
  Current.analysis (fst (Current.analyzeFunction (answering proseFenceVerdict)
                           (js "p") fooRecord))
  = verdict true (Some (js "Add input validation."))
  /\ Previous.cleaned proseFenceVerdict
     = text ["Here is my analysis."; "js"; "let x = 1;"; blank]%string ++ addValidation
  /\ Previous.analyzeFunctionForRefactoring (answering proseFenceVerdict)
       (js "function foo(a) { return a; }") (js "p")
     = Normal (verdict true (Some (js "Add input validation."))).
Proof. repeat split; vm_compute; reflexivity. Qed.

(** A closing brace in the prose before the object changes nothing: both
    revisions return the object. *)
Example verdict_after_closing_brace :
  Current.analysis (fst (Current.analyzeFunction (answering (js "a } b " ++ addValidation))
                           (js "p") fooRecord))
  = verdict true (Some (js "Add input validation."))
  /\ Previous.analyzeFunctionForRefactoring (answering (js "a } b " ++ addValidation))
       (js "function foo(a) { return a; }") (js "p")
     = Normal (verdict true (Some (js "Add input validation."))).
Proof. split; vm_compute; reflexivity. Qed.

(** C5 as stated fails: when the fenced code block holds braces, the
    substring from the first opening brace starts in the code block, is
    not JSON, and both revisions return the default verdict instead of the
    trailing JSON object. *)
Lemma C5_braces_in_fence_counterexample :
  JSON.parse addValidation = Normal (verdict true (Some (js "Add input validation.")))
  /\ firstToLast proseBracesVerdict
     = Some (text ["{ return 1; }"; "```"; blank]%string ++ addValidation)
  /\ Current.analysis (fst (Current.analyzeFunction (answering proseBracesVerdict)
                              (js "p") fooRecord))
     = defaultVerdict
  /\ Previous.analyzeFunctionForRefactoring (answering proseBracesVerdict)
       (js "function foo(a) { return a; }") (js "p")
     = Normal defaultVerdict
  /\ defaultVerdict <> verdict true (Some (js "Add input validation.")).
Proof. repeat split; try (vm_compute; reflexivity). vm_compute. discriminate. Qed.

(** ** Gaps and spans give back the content (C6) *)




(** ** The results come in the order of the batch (C7) *)

(** C7, as amended: for a batch and a prompt that are not empty,
    [analyzeFunctionBatch] returns one analyzed record for each record of
    the batch, in the order of the batch, whatever the order in which the
    analyses complete; for an empty batch or an empty prompt it throws
    [Invalid arguments: ...]. *)
Theorem C7_batch_results_in_input_order
    (chat : ChatCapability) (functionBatch : list Current.FunctionRecord)
    (analysisPrompt : jsstring) (schedule : list nat) :
  (functionBatch <> [] -> analysisPrompt <> [] ->
   schedule ≡ₚ seq 0 (length functionBatch) ->
   exists results,
     fst (Current.analyzeFunctionBatch chat functionBatch analysisPrompt schedule)
     = Some (Normal results)
     /\ length results = length functionBatch
     /\ map Current.functionData results = functionBatch
     /\ results = map (fun f => fst (Current.analyzeFunction chat analysisPrompt f))
                    functionBatch)
  /\ (functionBatch = [] \/ analysisPrompt = [] ->
      Current.analyzeFunctionBatch chat functionBatch analysisPrompt schedule
      = (Some (Throw Current.invalidBatch), [])).
Proof.
  split.
  - intros Hbatch Hprompt Hperm. eexists.
    split; [by apply analyzeFunctionBatch_results |].
    split; [by rewrite length_map |]. split; [| done].
    rewrite map_map. rewrite <- (map_id functionBatch) at 2.
    apply map_ext. intros f. by rewrite analyzeFunction_spec.
  - intros [-> | ->]; unfold Current.analyzeFunctionBatch; [done |].
    by rewrite orb_true_r.
Qed.

Lemma C7_witness :
  [fooRecord; barRecord] <> []
  /\ js "p" <> []
  /\ [1; 0] ≡ₚ seq 0 (length [fooRecord; barRecord])
  /\ exists results,
       fst (Current.analyzeFunctionBatch (answering addValidation)
              [fooRecord; barRecord] (js "p") [1; 0])
       = Some (Normal results)
       /\ length results = length [fooRecord; barRecord]
       /\ map Current.functionData results = [fooRecord; barRecord]
       /\ results = map (fun f => fst (Current.analyzeFunction (answering addValidation)
                                         (js "p") f))
                      [fooRecord; barRecord].
Proof.
  assert (Hbatch : [fooRecord; barRecord] <> []) by discriminate.
  assert (Hprompt : js "p" <> []) by (vm_compute; discriminate).
  assert (Hperm : [1; 0] ≡ₚ seq 0 (length [fooRecord; barRecord]))
    by (simpl; apply Permutation_swap).
  split; [exact Hbatch |]. split; [exact Hprompt |]. split; [exact Hperm |].
  exact (proj1 (C7_batch_results_in_input_order (answering addValidation)
                  [fooRecord; barRecord] (js "p") [1; 0]) Hbatch Hprompt Hperm).
Defined.

(** C7 as stated fails on the empty batch: the call throws instead of
    returning an empty array. *)
Lemma C7_empty_batch_counterexample :
  Current.analyzeFunctionBatch (answering addValidation) [] (js "p") []
  = (Some (Throw Current.invalidBatch), [])
  /\ message Current.invalidBatch
     = js "Invalid arguments: functionBatch must be non-empty array and analysisPrompt must be string".
Proof. split; vm_compute; reflexivity. Qed.

(** The completion order shows in the console only: the first analysis
    fails and the second succeeds; the results are in the order of the
    batch and the failure is printed, whichever completes first. *)
Example completion_order_console :
  let chat := answeringBy [(js "function bar", addValidation)] in
  fst (Current.analyzeFunctionBatch chat [fooRecord; barRecord] (js "p") [0; 1])
  = fst (Current.analyzeFunctionBatch chat [fooRecord; barRecord] (js "p") [1; 0])
  /\ fst (Current.analyzeFunctionBatch chat [fooRecord; barRecord] (js "p") [1; 0])
     = Some (Normal [ Current.mkAnalyzed fooRecord defaultVerdict;
                      Current.mkAnalyzed barRecord
                        (verdict true (Some (js "Add input validation."))) ])
  /\ snd (Current.analyzeFunctionBatch chat [fooRecord; barRecord] (js "p") [1; 0])
     = [(Some (js "foo"), mkError PlainError (js "request failed"))].
Proof. repeat split; vm_compute; reflexivity. Qed.

(** A call that never completes leaves the batch pending. *)
Example pending_batch :
  fst (Current.analyzeFunctionBatch (answering addValidation)
         [fooRecord; barRecord] (js "p") [1])
  = None.
Proof. vm_compute. reflexivity. Qed.

(** ** The prompt (C8) *)

(** C8: [buildAnalysisPrompt] is a function of its argument alone.  For a
    non-empty requirement the prompt holds it verbatim on the line after
    the heading [Additional requirements:]; for an empty or absent one it
    has no such heading; in every case it ends with the fixed request for
    one JSON object with the keys [needsRefactor] and [refactorPrompt]
    ([RESPONSE_FORMAT]). *)
Theorem C8_buildAnalysisPrompt (userRequirement : option jsstring) :
  (forall request,
      userRequirement = Some request -> request <> [] ->
      Current.buildAnalysisPrompt userRequirement
      = Current.DEFAULT_ANALYSIS_PROMPT
          ++ (text [blank; "Additional requirements:"; blank]%string ++ request)
          ++ Current.RESPONSE_FORMAT)
  /\ (userRequirement = None \/ userRequirement = Some [] ->
      Current.buildAnalysisPrompt userRequirement
      = Current.DEFAULT_ANALYSIS_PROMPT ++ Current.RESPONSE_FORMAT
      /\ includes (Current.buildAnalysisPrompt userRequirement)
           (js "Additional requirements") = false)
  /\ (exists before,
        Current.buildAnalysisPrompt userRequirement = before ++ Current.RESPONSE_FORMAT)
  /\ Current.RESPONSE_FORMAT
     = text [ blank; blank;
              "Return your analysis in this exact JSON format without any markdown formatting or code blocks:";
              "{" ]%string
         ++ [LF] ++ js "  " ++ [DQUOTE] ++ js "needsRefactor" ++ [DQUOTE] ++ js ": boolean,"
         ++ [LF] ++ js "  " ++ [DQUOTE] ++ js "refactorPrompt" ++ [DQUOTE]
         ++ js ": string or null" ++ [LF] ++ js "}".
Proof.
  split; [| split; [| split]].
  - intros request -> Hne. destruct request; [done |]. reflexivity.
  - intros [-> | ->]; (split; [reflexivity | vm_compute; reflexivity]).
  - unfold Current.buildAnalysisPrompt. rewrite app_assoc. eexists. reflexivity.
  - vm_compute. reflexivity.
Qed.

Lemma C8_witness :
  Some (js "Check types") = Some (js "Check types")
  /\ js "Check types" <> []
  /\ Current.buildAnalysisPrompt (Some (js "Check types"))
     = Current.DEFAULT_ANALYSIS_PROMPT
         ++ (text [blank; "Additional requirements:"; blank]%string ++ js "Check types")
         ++ Current.RESPONSE_FORMAT
  /\ Current.buildAnalysisPrompt None
     = Current.DEFAULT_ANALYSIS_PROMPT ++ Current.RESPONSE_FORMAT.
Proof.
  assert (Hne : js "Check types" <> []) by (vm_compute; discriminate).
  split; [reflexivity |]. split; [exact Hne |]. split.
  - exact (proj1 (C8_buildAnalysisPrompt (Some (js "Check types"))) _ eq_refl Hne).
  - exact (proj1 (proj1 (proj2 (C8_buildAnalysisPrompt None)) (or_introl eq_refl))).
Defined.

(** ** The contract of the context extractor (C9) *)

(** C9: [extractModuleContext] throws, whatever else its arguments are,
    when the first is not a string or the second is not a number; for a
    string and a number it returns the imports and the declarations found
    in the slice of the content before the offset, and that slice as
    [fullContext]. *)
Theorem C9_extractModuleContext_contract (content functionEndIndex : jsvalue) :
  (typeof content <> js "string" \/ typeof functionEndIndex <> js "number" ->
   Current.extractModuleContext content functionEndIndex = Throw Current.invalidArguments)
  /\ (forall s n,
        content = VString s -> functionEndIndex = VNumber n ->
        exists context,
          Current.extractModuleContext content functionEndIndex = Normal context
          /\ Current.fullContext context = slice s (Int 0) (Some (ToIntegerOrInfinity n))
          /\ Current.imports context
             = map (fun m => trim (matched m))
                 (matchAll Current.importRegex (Current.fullContext context))
          /\ Current.declarations context
             = map (fun m => trim (matched m))
                 (matchAll Current.declRegex (Current.fullContext context))).
Proof.
  split.
  - intros H.
    destruct content; try reflexivity.
    destruct functionEndIndex; try reflexivity.
    destruct H as [H | H]; exfalso; apply H; reflexivity.
  - intros s n -> ->. rewrite extractModuleContext_valid.
    eexists. split; [reflexivity |]. done.
Qed.

Lemma C9_witness :
  (typeof VNull <> js "string" \/ typeof (VNumber NaN) <> js "number")
  /\ Current.extractModuleContext VNull (VNumber NaN) = Throw Current.invalidArguments
  /\ exists context,
       Current.extractModuleContext
         (VString (js "import a from 'b'; function f() {}")) (VNumber (numberOfNat 18))
       = Normal context
       /\ Current.fullContext context
          = slice (js "import a from 'b'; function f() {}") (Int 0)
              (Some (ToIntegerOrInfinity (numberOfNat 18)))
       /\ Current.imports context
          = map (fun m => trim (matched m))
              (matchAll Current.importRegex (Current.fullContext context))
       /\ Current.declarations context
          = map (fun m => trim (matched m))
              (matchAll Current.declRegex (Current.fullContext context)).
Proof.
  assert (H : typeof VNull <> js "string" \/ typeof (VNumber NaN) <> js "number")
    by (left; vm_compute; discriminate).
  split; [exact H |]. split.
  - exact (proj1 (C9_extractModuleContext_contract VNull (VNumber NaN)) H).
  - exact (proj2 (C9_extractModuleContext_contract
                    (VString (js "import a from 'b'; function f() {}"))
                    (VNumber (numberOfNat 18))) _ _ eq_refl eq_refl).
Defined.

(** The context of the example: its import line, no declaration. *)
Example extractModuleContext_example :
  Current.extractModuleContext
    (VString (js "import a from 'b'; function f() {}")) (VNumber (numberOfNat 18))
  = Normal (Current.mkContext [js "import a from 'b';"] [] (js "import a from 'b';")).
Proof. vm_compute. reflexivity. Qed.

(** A number that is not an offset is still a number: NaN slices as 0, a
    negative offset counts from the end. *)
Example extractModuleContext_NaN :
  Current.extractModuleContext (VString (js "let a = 1; f")) (VNumber NaN)
  = Normal (Current.mkContext [] [] [])
  /\ Current.extractModuleContext (VString (js "let a = 1; f")) (VNumber (Finite (-3) 2))
     = Normal (Current.mkContext [] [js "let a = 1;"] (js "let a = 1; ")).
Proof. split; vm_compute; reflexivity. Qed.

(** ** A flagged record without a prompt stops the consolidated variant (C10) *)

(** C10: when some record passed to the consolidated
    [generateRefactorFile] has [needsRefactor] true and [refactorPrompt]
    null, the call throws an error whose message starts with
    [Failed to generate refactor file: ] and leaves the disk as it was: no
    file is written. *)
Theorem C10_flagged_null_prompt_throws_before_write
    (path : PathModule) (filePath : jsstring)
    (analysisResults : list Current.AnalyzedFunctionRecord)
    (original : Current.FileContent) (disk : Disk)
    (result : Current.AnalyzedFunctionRecord) :
  result ∈ analysisResults ->
  getProp (Current.analysis result) (js "needsRefactor") = Normal (Some (JBool true)) ->
  getProp (Current.analysis result) (js "refactorPrompt") = Normal (Some JNull) ->
  exists reason,
    Current.generateRefactorFile path filePath analysisResults original disk
    = (Throw (mkError PlainError (js "Failed to generate refactor file: " ++ reason)),
       disk).
Proof.
  intros Hin Hflag Hprompt.
  unfold Current.generateRefactorFile, tryCatchIO, bindIO, liftC.
  destruct (filterC Current.needsRefactor analysisResults) as [flagged|e] eqn:Ef.
  - assert (Hkeep : result ∈ sort Current.byAnalyzedStartIndex flagged).
    { rewrite sort_perm. eapply filterC_elem; [exact Ef | exact Hin |].
      unfold Current.needsRefactor. rewrite Hflag. reflexivity. }
    destruct (sort Current.byAnalyzedStartIndex flagged) as [|r0 rs] eqn:Es;
      [by inversion Hkeep |].
    cbn [length Nat.eqb].
    destruct (mapIndexC_throws Current.formatRefactorPrompt (r0 :: rs) result Hkeep) with (i := 0)
      as [e He].
    { intros i. unfold Current.formatRefactorPrompt. rewrite Hprompt. simpl. eauto. }
    rewrite He. eexists. reflexivity.
  - eexists. reflexivity.
Qed.

Lemma C10_witness :
  Current.mkAnalyzed fooRecord (verdict true None)
    ∈ [Current.mkAnalyzed barRecord (verdict false None);
       Current.mkAnalyzed fooRecord (verdict true None)]
  /\ getProp (verdict true None) (js "needsRefactor") = Normal (Some (JBool true))
  /\ getProp (verdict true None) (js "refactorPrompt") = Normal (Some JNull)
  /\ exists reason,
       Current.generateRefactorFile posixPath (js "/a/b.mjs")
         [Current.mkAnalyzed barRecord (verdict false None);
          Current.mkAnalyzed fooRecord (verdict true None)]
         twoFunctionsContent (diskWith (js "/a/b.mjs") twoFunctions)
       = (Throw (mkError PlainError (js "Failed to generate refactor file: " ++ reason)),
          diskWith (js "/a/b.mjs") twoFunctions).
Proof.
  assert (Hin : Current.mkAnalyzed fooRecord (verdict true None)
                  ∈ [Current.mkAnalyzed barRecord (verdict false None);
                     Current.mkAnalyzed fooRecord (verdict true None)])
    by (apply list_elem_of_further, list_elem_of_here).
  assert (Hflag : getProp (verdict true None) (js "needsRefactor")
                  = Normal (Some (JBool true))) by (vm_compute; reflexivity).
  assert (Hnull : getProp (verdict true None) (js "refactorPrompt")
                  = Normal (Some JNull)) by (vm_compute; reflexivity).
  split; [exact Hin |]. split; [exact Hflag |]. split; [exact Hnull |].
  exact (C10_flagged_null_prompt_throws_before_write posixPath (js "/a/b.mjs") _
           twoFunctionsContent (diskWith (js "/a/b.mjs") twoFunctions) _ Hin Hflag Hnull).
Defined.

(** * Part IV: properties of the rest of the script *)

(** ** [chunkArray] *)

Module ChunkFacts.

Import Process CurrentRun.

Lemma ceilDiv_bounds n size :
  0 < size ->
  n <= ceilDiv n size * size /\ (0 < n -> (ceilDiv n size - 1) * size < n).
Proof.
  intros Hsize. unfold ceilDiv.
  pose proof (Nat.div_mod_eq n size) as Hdiv.
  pose proof (Nat.mod_upper_bound n size ltac:(lia)) as Hmod.
  destruct (Nat.eqb_spec (n mod size) 0) as [Hz | Hnz]; split; nia.
Qed.

Lemma chunks_take {A} (array : list A) size : forall count,
  concat (map (fun index => arraySlice array (index * size) ((index + 1) * size))
            (seq 0 count))
  = take (count * size) array.
Proof.
  induction count as [|count IH]; [by rewrite take_0 |].
  rewrite seq_S, map_app, concat_app, IH. cbn [map concat Nat.add].
  rewrite app_nil_r. unfold arraySlice.
  replace ((count + 1) * size - count * size) with size by lia.
  rewrite take_take_drop. f_equal. lia.
Qed.

Lemma chunkArray_spec {A} (array : list A) (size : nat) :
  0 < size ->
  exists chunks,
    chunkArray array size = Chunks chunks
    /\ concat chunks = array
    /\ length chunks = ceilDiv (length array) size
    /\ forall i chunk, chunks !! i = Some chunk ->
         0 < length chunk <= size /\ (S i < length chunks -> length chunk = size).
Proof.
  intros Hsize.
  destruct (ceilDiv_bounds (length array) size Hsize) as [Hup Hlow].
  eexists. split.
  { unfold chunkArray. destruct size; [lia |]. reflexivity. }
  split; [| split].
  - rewrite chunks_take. by apply take_ge.
  - by rewrite length_map, length_seq.
  - intros i chunk Hi. rewrite length_map, length_seq.
    change (map ?f ?l) with (f <$> l) in Hi.
    rewrite list_lookup_fmap in Hi.
    destruct (seq 0 (ceilDiv (length array) size) !! i) as [j|] eqn:Hj; [| done].
    apply lookup_seq in Hj as [-> Hlt]. cbn in Hi. injection Hi as <-.
    unfold arraySlice. rewrite length_take, length_drop.
    assert (0 < length array).
    { destruct (length array); [| lia]. unfold ceilDiv in Hlt.
      rewrite Nat.Div0.mod_0_l, Nat.Div0.div_0_l in Hlt. cbn in Hlt. lia. }
    specialize (Hlow ltac:(done)). nia.
Qed.

End ChunkFacts.

(** ** [processBatches] *)

Module BatchFacts.

Import Process CurrentRun RunSpec ChunkFacts.

Lemma sleeps_app a b : sleeps (a ++ b) = sleeps a ++ sleeps b.
Proof. apply omap_app. Qed.

Lemma sleeps_write s out : sleeps (StdoutWrite s :: out) = sleeps out.
Proof. reflexivity. Qed.

Lemma sleeps_reports console : sleeps (map failureReport console) = [].
Proof. induction console as [|entry console IH]; [done |]. exact IH. Qed.

Lemma buildAnalysisPrompt_not_empty userPrompt :
  Current.buildAnalysisPrompt userPrompt <> [].
Proof. unfold Current.buildAnalysisPrompt. by vm_compute. Qed.

Lemma processFrom_spec chat schedule analysisPrompt count : forall batches i acc,
  analysisPrompt <> [] ->
  (forall j batch, batches !! j = Some batch ->
     batch <> [] /\ schedule (i + j) ≡ₚ seq 0 (length batch)) ->
  i + length batches = count ->
  fst (processFrom chat schedule analysisPrompt count i batches acc)
  = Some (Normal (acc ++ map (fun f => fst (Current.analyzeFunction chat analysisPrompt f))
                           (concat batches)))
  /\ sleeps (snd (processFrom chat schedule analysisPrompt count i batches acc))
     = replicate (length batches - 1) BATCH_DELAY.
Proof.
  induction batches as [|batch batches IH]; intros i acc Hprompt Hbatches Hcount.
  { cbn. by rewrite app_nil_r. }
  destruct (Hbatches 0 batch eq_refl) as [Hne Hperm]. rewrite Nat.add_0_r in Hperm.
  pose proof (analyzeFunctionBatch_results chat batch analysisPrompt (schedule i)
                Hne Hprompt Hperm) as Hrun.
  cbn [processFrom].
  destruct (Current.analyzeFunctionBatch chat batch analysisPrompt (schedule i))
    as [result console].
  cbn [fst] in Hrun. subst result. cbn [fst snd].
  destruct (IH (S i) (acc ++ map (fun f => fst (Current.analyzeFunction chat analysisPrompt f))
                               batch) Hprompt) as [Hres Hsleep].
  { intros j b Hb. specialize (Hbatches (S j) b Hb).
    by replace (S i + j) with (i + S j) by lia. }
  { cbn [length] in Hcount. lia. }
  split.
  - rewrite Hres. cbn [concat]. by rewrite map_app, app_assoc.
  - rewrite sleeps_write.
    rewrite !sleeps_app, sleeps_reports, Hsleep. cbn [app length].
    destruct batches as [|b batches'].
    + cbn [length] in Hcount. replace (i <? count - 1) with false
        by (symmetry; apply Nat.ltb_ge; lia). done.
    + cbn [length] in Hcount. replace (i <? count - 1) with true
        by (symmetry; apply Nat.ltb_lt; lia).
      cbn [length].
      replace (S (length batches') - 1) with (length batches') by lia.
      replace (S (S (length batches')) - 1) with (S (length batches')) by lia.
      reflexivity.
Qed.

Lemma processBatches_spec chat schedule functions size analysisPrompt functionBatches :
  0 < size -> analysisPrompt <> [] ->
  chunkArray functions size = Chunks functionBatches ->
  (forall i batch, functionBatches !! i = Some batch ->
     schedule i ≡ₚ seq 0 (length batch)) ->
  fst (processBatches chat schedule functionBatches analysisPrompt)
  = Some (Normal (map (fun f => fst (Current.analyzeFunction chat analysisPrompt f))
                    functions))
  /\ sleeps (snd (processBatches chat schedule functionBatches analysisPrompt))
     = replicate (length functionBatches - 1) BATCH_DELAY.
Proof.
  intros Hsize Hprompt Hchunks Hschedule.
  destruct (chunkArray_spec functions size Hsize) as (chunks & Heq & Hcat & _ & Hlen).
  rewrite Hchunks in Heq. injection Heq as <-.
  unfold processBatches.
  destruct (processFrom_spec chat schedule analysisPrompt (length functionBatches)
              functionBatches 0 [] Hprompt) as [Hres Hsleep].
  { intros j batch Hj. split; [| by apply Hschedule].
    destruct (Hlen j batch Hj) as [Hpos _]. destruct batch; [cbn in Hpos; lia | done]. }
  { done. }
  by rewrite Hres, Hsleep, Hcat.
Qed.




End BatchFacts.

(** ** The parsed analysis is an object *)

Module ObjectFacts.

Import JSON.

Lemma parseMembers_object : forall fuel s acc v s',
  parseMembers fuel s acc = Some (v, s') -> exists props, v = JObject props.
Proof.
  induction fuel as [|fuel IH]; intros s acc v s' H; [done |].
  cbn [parseMembers] in H.
  repeat (case_match; try done).
  - by eapply IH.
  - injection H as <- _. by eexists.
Qed.

Lemma parseValue_brace fuel (s : jsstring) :
  parseValue (S fuel) (LBRACE :: s)
  = match eat 125 (skipWs s) with
    | Some rest => Some (JObject [], rest)
    | None => parseMembers fuel s []
    end.
Proof. reflexivity. Qed.

Lemma parse_object (s : jsstring) v :
  JSON.parse (LBRACE :: s) = Normal v -> exists props, v = JObject props.
Proof.
  unfold parse. destruct (parseValue _ _) as [[w s']|] eqn:Hparse; [| done].
  intros H. assert (w = v) as -> by (destruct (skipWs s'); congruence).
  clear H.
  replace (2 * length (LBRACE :: s) + 2) with (S (2 * length s + 3)) in Hparse
    by (cbn [length]; lia).
  rewrite parseValue_brace in Hparse.
  destruct (eat 125 (skipWs s)).
  - injection Hparse as <- _. by eexists.
  - by eapply parseMembers_object.
Qed.

Lemma firstToLast_brace (text jsonText : jsstring) :
  firstToLast text = Some jsonText -> exists s, jsonText = LBRACE :: s.
Proof.
  unfold firstToLast.
  destruct (indexOf text [LBRACE]) as [first|] eqn:Hfirst; [| done].
  destruct (lastIndexOf text [RBRACE]) as [last|] eqn:Hlast; [| done].
  destruct (Nat.ltb_spec first last) as [Hlt|]; [| done].
  intros [= <-].
  apply indexOfFrom_lookup in Hfirst as [_ Hfirst].
  apply lastIndexOfFrom_lookup in Hlast as [_ Hlast].
  rewrite Nat.sub_0_r in Hfirst, Hlast.
  rewrite sliceN_take_drop.
  apply lookup_lt_Some in Hlast as Hlen.
  rewrite (drop_S _ _ _ Hfirst).
  replace (last + 1 - first) with (S (last - first)) by lia.
  cbn [take]. by eexists.
Qed.

Lemma verdictOf_object (text : jsstring) : exists props, verdictOf text = JObject props.
Proof.
  unfold verdictOf. destruct (firstToLast text) as [jsonText|] eqn:Hj;
    [| by eexists].
  destruct (firstToLast_brace _ _ Hj) as [s ->].
  destruct (parse (LBRACE :: s)) as [v|] eqn:Hv; [| by eexists].
  by eapply parse_object.
Qed.

Lemma object_needsRefactor props key :
  exists v, getProp (JObject props) key = Normal v.
Proof. by eexists. Qed.

End ObjectFacts.

(** ** [main] *)

Module MainFacts.

Import Process RunSpec ChunkFacts BatchFacts ObjectFacts.

Lemma parseArguments_path argv filePath :
  argv !! 2 = Some filePath -> isFilePath filePath ->
  parseArguments argv = ([], inr (filePath, argv !! 3)).
Proof.
  intros Harg (Hne & Hhelp & Hh). unfold parseArguments. rewrite Harg.
  destruct filePath as [|c filePath]; [done |].
  rewrite (bool_decide_eq_false_2 _ Hhelp), (bool_decide_eq_false_2 _ Hh). done.
Qed.

Lemma someC_spec {A} (f : A -> Completion bool) (g : A -> bool) (l : list A) :
  (forall x, x ∈ l -> f x = Normal (g x)) -> someC f l = Normal (existsb g l).
Proof.
  induction l as [|x l IH]; intros H; [done |].
  cbn [someC existsb]. rewrite (H x) by apply list_elem_of_here. cbn [bindC].
  destruct (g x); [done |]. apply IH. intros y Hy. apply H. by apply list_elem_of_further.
Qed.

Lemma someC_none {A} (f : A -> Completion bool) (l : list A) :
  (forall x, x ∈ l -> f x = Normal false) -> someC f l = Normal false.
Proof.
  intros H. rewrite (someC_spec f (fun _ => false) l H). f_equal.
  clear H. induction l as [|x l' IH]; [reflexivity | exact IH].
Qed.

Lemma someC_found {A} (f : A -> Completion bool) (l : list A) x :
  (forall y, y ∈ l -> exists b, f y = Normal b) -> x ∈ l -> f x = Normal true ->
  someC f l = Normal true.
Proof.
  induction l as [|y l IH]; intros Hall Hx Hfx; [by inversion Hx |].
  cbn [someC]. destruct (Hall y) as [b Hb]; [apply list_elem_of_here |].
  rewrite Hb. cbn [bindC]. destruct b; [done |].
  apply IH; [| | done].
  - intros z Hz. apply Hall. by apply list_elem_of_further.
  - apply elem_of_cons in Hx as [-> | Hx]; [congruence | done].
Qed.

(** The current revision: once the file is read, the run goes through the
    scanner and the batches to the end of [main]. *)
Lemma current_main_analyzed fuel path chat schedule argv disk filePath content :
  argv !! 2 = Some filePath -> isFilePath filePath ->
  files disk !! filePath = Some content -> length content < fuel ->
  (forall i, schedule i = [0]) ->
  exists fileContent progress,
    Current.extractFunctions fuel disk filePath = Some (Normal fileContent)
    /\ Current.originalContent fileContent = content
    /\ CurrentRun.main fuel path chat schedule argv disk
       = Some (CurrentRun.conclude path filePath fileContent
                 (CurrentRun.configuration filePath (argv !! 3) fileContent ++ progress)
                 (map (fun f => fst (Current.analyzeFunction chat
                                       (Current.buildAnalysisPrompt (argv !! 3)) f))
                    (Current.functions fileContent))
                 disk).
Proof.
  intros Harg Hpath Hfile Hfuel Hschedule.
  destruct (current_scan_result content fuel Hfuel) as (st & Hrun & _ & _ & _ & Hsort).
  assert (Hscan : Current.extractFunctions fuel disk filePath
                  = Some (Normal (Current.mkFileContent (Current.scanned st)
                                    (sliceFrom content (Current.lastIndex st)) content))).
  { unfold Current.extractFunctions, readFile. by rewrite Hfile, Hrun, Hsort. }
  unfold CurrentRun.main. rewrite (parseArguments_path _ _ Harg Hpath), Hscan.
  cbn [Current.functions].
  destruct (chunkArray_spec (Current.scanned st) CurrentRun.BATCH_SIZE ltac:(cbv; lia))
    as (batches & Hchunks & _ & _ & Hlen).
  rewrite Hchunks.
  destruct (processBatches_spec chat schedule (Current.scanned st) CurrentRun.BATCH_SIZE
              (Current.buildAnalysisPrompt (argv !! 3)) batches ltac:(cbv; lia)
              (buildAnalysisPrompt_not_empty _) Hchunks) as [Hres _].
  { intros i batch Hi. rewrite Hschedule.
    destruct (Hlen i batch Hi) as [Hpos _].
    assert (length batch = 1) as -> by (unfold CurrentRun.BATCH_SIZE in Hpos; lia).
    done. }
  destruct (CurrentRun.processBatches chat schedule batches _) as [result progress].
  cbn [fst] in Hres. subst result.
  eexists _, progress. split; [reflexivity |]. split; [reflexivity |]. reflexivity.
Qed.

Lemma current_analysis_object chat analysisPrompt f :
  exists props,
    Current.analysis (fst (Current.analyzeFunction chat analysisPrompt f)) = JObject props.
Proof.
  rewrite analyzeFunction_spec. cbn [Current.analysis].
  destruct (chat _); [apply verdictOf_object | by eexists].
Qed.

Lemma current_needsRefactor chat analysisPrompt f :
  exists b, Current.needsRefactor (fst (Current.analyzeFunction chat analysisPrompt f))
            = Normal b.
Proof.
  destruct (current_analysis_object chat analysisPrompt f) as [props Hprops].
  unfold Current.needsRefactor. rewrite Hprops. by eexists.
Qed.

Lemma previous_analyze_agrees chat functionCode analysisPrompt :
  fst (PreviousRun.analyzeFunctionForRefactoring chat functionCode analysisPrompt)
  = Previous.analyzeFunctionForRefactoring chat functionCode analysisPrompt.
Proof.
  unfold PreviousRun.analyzeFunctionForRefactoring, Previous.analyzeFunctionForRefactoring.
  destruct (chat _) as [response|e]; [| done]. cbn [bindC].
  unfold PreviousRun.parseAnalysis, tryCatch.
  destruct (indexOf _ _); [| done].
  destruct (_ =? 0); [done |].
  by destruct (JSON.parse _).
Qed.

End MainFacts.

(** ** The consolidated generator *)

Module GeneratorFacts.

Import Process RunSpec.

Lemma insertSorted_ascending {A} (key : A -> nat) x l :
  ascending key l ->
  ascending key (insertSorted (fun a b => Z.of_nat (key a) - Z.of_nat (key b))%Z x l).
Proof.
  induction l as [|y l IH]; intros Hl; [by cbn |].
  destruct Hl as [Hy Hl]. cbn [insertSorted].
  destruct (Z.ltb_spec 0 (Z.of_nat (key x) - Z.of_nat (key y))) as [Hgt | Hle].
  - cbn [ascending]. split; [| by apply IH].
    rewrite (insertSorted_perm _ x l). constructor; [lia | done].
  - cbn [ascending]. split; [| done].
    constructor; [lia |]. eapply Forall_impl; [exact Hy |]. cbn. intros z Hz. lia.
Qed.

Lemma sort_ascending {A} (key : A -> nat) (l : list A) :
  ascending key (sort (fun a b => Z.of_nat (key a) - Z.of_nat (key b))%Z l).
Proof.
  induction l as [|x l IH]; [by cbn |]. by apply insertSorted_ascending.
Qed.

Lemma mapIndexC_total {A B} (f : A -> nat -> Completion B) (g : nat -> A -> B)
    (l : list A) : forall i,
  (forall x j, x ∈ l -> f x j = Normal (g j x)) ->
  mapIndexC f i l = Normal (imap (fun j => g (i + j)) l).
Proof.
  induction l as [|x l IH]; intros i H; [done |].
  cbn [mapIndexC imap]. rewrite (H x i) by apply list_elem_of_here. cbn [bindC].
  rewrite (IH (S i)) by (intros y j Hy; apply H; by apply list_elem_of_further).
  cbn [bindC]. rewrite Nat.add_0_r. do 2 f_equal.
  apply imap_ext. intros j y _. cbn. f_equal. lia.
Qed.

Lemma needsRefactor_flagged (r : Current.AnalyzedFunctionRecord) b :
  Current.needsRefactor r = Normal b -> flagged (Current.analysis r) = b.
Proof.
  unfold Current.needsRefactor, flagged.
  destruct (getProp _ _); cbn [bindC]; congruence.
Qed.

Lemma filterC_flagged (l : list Current.AnalyzedFunctionRecord) :
  (forall r, r ∈ l -> exists b, Current.needsRefactor r = Normal b) ->
  filterC Current.needsRefactor l
  = Normal (List.filter (fun r => flagged (Current.analysis r)) l).
Proof.
  intros H. apply filterC_total. intros r Hr.
  destruct (H r Hr) as [b Hb]. by rewrite Hb, (needsRefactor_flagged r b Hb).
Qed.

(** The line of a record whose [refactorPrompt] is a string. *)
Lemma formatRefactorPrompt_string (r : Current.AnalyzedFunctionRecord) s index :
  getProp (Current.analysis r) (js "refactorPrompt") = Normal (Some (JString s)) ->
  Current.formatRefactorPrompt r index
  = Normal (promptHeading index (Current.name (Current.functionData r))
              ++ RegExp.replaceAll (RegExp.Plus Current.ws)
                   (join (js " ")
                      (map trim
                         (List.filter
                            (fun line => negb (includes line (js "Module Context"))
                                         && negb (JSON.eqStr (trim line) [])
                                         && negb (includes line (js "javascript")))
                            (split LF s))))
                   (js " ")).
Proof.
  intros Hprompt. unfold Current.formatRefactorPrompt, promptHeading.
  rewrite Hprompt. cbn [bindC splitLines]. by rewrite <- !app_assoc.
Qed.

End GeneratorFacts.

(** ** [replace(/\s+/g, ' ')] *)

Module WhitespaceFacts.

Import RunSpec MatchSpec.

Lemma trimStart_length (l : jsstring) : length (trimStart l) <= length l.
Proof.
  induction l as [|a l IH]; [done |]. cbn [trimStart].
  destruct (isWhiteSpace a); cbn [length]; lia.
Qed.

(** The greedy [\s*] reads the whole run of white space. *)
Lemma wsStar_run (l : jsstring) : forall fuel i,
  length l < fuel ->
  wsStar Some fuel (mkState i l [])
  = Some (mkState (i + (length l - length (trimStart l))) (trimStart l) []).
Proof.
  induction l as [|a tl IH]; intros [|fuel] i Hfuel; try (cbn in Hfuel; lia).
  { cbn. do 2 f_equal. lia. }
  cbn [length] in Hfuel.
  transitivity
    (match (if isWhiteSpace a
            then (if (0 =? 0) && (S i =? i) then None
                  else wsStar Some fuel (mkState (S i) tl []))
            else None) with
     | Some z => Some z
     | None => Some (mkState i (a :: tl) [])
     end); [reflexivity |].
  cbn [trimStart]. destruct (isWhiteSpace a).
  - rewrite (proj2 (Nat.eqb_neq (S i) i)) by lia. cbn [andb].
    rewrite IH by lia. pose proof (trimStart_length tl). cbn [length].
    do 2 f_equal. lia.
  - cbn [length]. do 2 f_equal. lia.
Qed.

Lemma matcher_plus_ws i (l : jsstring) :
  matcher (Plus Current.ws) (mkState i l []) Some
  = match l with
    | a :: tl =>
        if isWhiteSpace a
        then Some (mkState (S i + (length tl - length (trimStart tl))) (trimStart tl) [])
        else None
    | [] => None
    end.
Proof.
  destruct l as [|a tl]; [reflexivity |].
  transitivity
    (if isWhiteSpace a
     then (if (1 =? 0) && (S i =? i) then None
           else wsStar Some (S (S (length tl))) (mkState (S i) tl []))
     else None); [reflexivity |].
  destruct (isWhiteSpace a); [| done]. cbn [Nat.eqb andb].
  by rewrite wsStar_run by lia.
Qed.

Lemma search_plus_ws (l : jsstring) : forall i,
  search (Plus Current.ws) i l
  = match l with
    | [] => None
    | a :: tl =>
        if isWhiteSpace a
        then Some (i, mkState (S i + (length tl - length (trimStart tl))) (trimStart tl) [])
        else search (Plus Current.ws) (S i) tl
    end.
Proof.
  intros i. destruct l as [|a tl].
  - reflexivity.
  - cbn [search]. rewrite matcher_plus_ws. by destruct (isWhiteSpace a).
Qed.

Lemma search_ws_none (l : jsstring) : forall i,
  Forall (fun c => isWhiteSpace c = false) l -> search (Plus Current.ws) i l = None.
Proof.
  induction l as [|a tl IH]; intros i Hl; rewrite search_plus_ws; [done |].
  inversion Hl as [|? ? Ha Htl]; subst. rewrite Ha. by apply IH.
Qed.

Lemma search_ws_first (pre : jsstring) a (tl : jsstring) : forall i,
  Forall (fun c => isWhiteSpace c = false) pre -> isWhiteSpace a = true ->
  search (Plus Current.ws) i (pre ++ a :: tl)
  = Some (i + length pre,
          mkState (S (i + length pre) + (length tl - length (trimStart tl)))
            (trimStart tl) []).
Proof.
  induction pre as [|b pre IH]; intros i Hpre Ha.
  - cbn [app length]. rewrite search_plus_ws, Ha, Nat.add_0_r. done.
  - inversion Hpre as [|? ? Hb Hpre']; subst.
    cbn [app]. rewrite search_plus_ws, Hb, IH by done. cbn [length].
    by replace (S i + length pre) with (i + S (length pre)) by lia.
Qed.

Lemma ws_split (l : jsstring) :
  Forall (fun c => isWhiteSpace c = false) l
  \/ exists pre a tl, l = pre ++ a :: tl
       /\ Forall (fun c => isWhiteSpace c = false) pre /\ isWhiteSpace a = true.
Proof.
  induction l as [|b l IH]; [by left |].
  destruct (isWhiteSpace b) eqn:Hb.
  - right. by exists [], b, l.
  - destruct IH as [Hl | (pre & a & tl & -> & Hpre & Ha)].
    + left. by constructor.
    + right. exists (b :: pre), a, tl. repeat split; [by constructor | done].
Qed.

Lemma trimStart_drop (l : jsstring) :
  drop (length l - length (trimStart l)) l = trimStart l.
Proof.
  induction l as [|a l IH]; [done |]. cbn [trimStart].
  destruct (isWhiteSpace a).
  - pose proof (trimStart_length l). cbn [length].
    replace (S (length l) - length (trimStart l))
      with (S (length l - length (trimStart l))) by lia.
    exact IH.
  - by rewrite Nat.sub_diag.
Qed.

Lemma collapse_true (l : jsstring) : collapse true l = collapse false (trimStart l).
Proof.
  induction l as [|a l IH]; [done |]. cbn [collapse trimStart].
  destruct (isWhiteSpace a) eqn:Ha; [exact IH |]. cbn [collapse]. by rewrite Ha.
Qed.

Lemma collapse_none (l : jsstring) b :
  Forall (fun c => isWhiteSpace c = false) l -> collapse b l = l.
Proof.
  revert b. induction l as [|a l IH]; intros b Hl; [done |].
  inversion Hl as [|? ? Ha Hl']; subst. cbn [collapse]. rewrite Ha. by rewrite IH.
Qed.

Lemma collapse_first (pre : jsstring) a (tl : jsstring) :
  Forall (fun c => isWhiteSpace c = false) pre -> isWhiteSpace a = true ->
  collapse false (pre ++ a :: tl) = pre ++ 32%N :: collapse false (trimStart tl).
Proof.
  induction pre as [|b pre IH]; intros Hpre Ha.
  - cbn [app collapse]. by rewrite Ha, collapse_true.
  - inversion Hpre as [|? ? Hb Hpre']; subst. cbn [app collapse].
    by rewrite Hb, IH.
Qed.

(** Replacing the matches of [\s+] by a space collapses the runs of white
    space. *)
Lemma substitute_ws (s : jsstring) : forall fuel i,
  i <= length s -> length s - i < fuel ->
  substitute s (js " ") (execAll fuel (Plus Current.ws) s i) i
  = collapse false (drop i s).
Proof.
  induction fuel as [|fuel IH]; intros i Hi Hfuel; [lia |].
  cbn [execAll]. unfold exec.
  destruct (Nat.ltb_spec (length s) i); [lia |].
  destruct (ws_split (drop i s)) as [Hnone | (pre & a & tl & Hsplit & Hpre & Ha)].
  - rewrite search_ws_none by done. cbn [substitute].
    by rewrite sliceFrom_drop, collapse_none.
  - rewrite Hsplit, search_ws_first by done.
    cbn [endIndex captures map index matched lastIndexAfter].
    pose proof (trimStart_length tl) as Htrim.
    assert (Hlen : length s = i + length pre + S (length tl)).
    { pose proof (f_equal length Hsplit) as Hl.
      rewrite length_drop, length_app in Hl. cbn [length] in Hl. lia. }
    set (j := i + length pre).
    set (e := S j + (length tl - length (trimStart tl))).
    assert (Hj : drop j s = a :: tl).
    { unfold j. by rewrite <- drop_drop, Hsplit, drop_app_length. }
    assert (Hmatched : sliceN s j e
                       = a :: take (length tl - length (trimStart tl)) tl).
    { rewrite sliceN_take_drop, Hj.
      by replace (e - j) with (S (length tl - length (trimStart tl))) by (unfold e; lia). }
    assert (He : drop e s = trimStart tl).
    { unfold e.
      replace (S j + (length tl - length (trimStart tl)))
        with (j + S (length tl - length (trimStart tl))) by lia.
      rewrite <- drop_drop, Hj. cbn [drop]. apply trimStart_drop. }
    rewrite Hmatched. cbn [substitute index matched length].
    destruct (Nat.leb_spec i j); [| unfold j in *; lia].
    rewrite length_take.
    replace (j + S ((length tl - length (trimStart tl)) `min` length tl)) with e
      by (unfold e; lia).
    rewrite IH by (unfold e, j; lia). rewrite He, collapse_first by done.
    f_equal. rewrite sliceN_take_drop, Hsplit.
    replace (j - i) with (length pre) by (unfold j; lia).
    by rewrite take_app_length.
Qed.

Lemma replaceAll_ws (s : jsstring) :
  replaceAll (Plus Current.ws) s (js " ") = collapse false s.
Proof.
  unfold replaceAll, matchAll. rewrite substitute_ws by lia. by rewrite drop_0.
Qed.

Lemma collapse_spaces (s : jsstring) b c :
  c ∈ collapse b s -> isWhiteSpace c = true -> c = 32%N.
Proof.
  revert b. induction s as [|a s IH]; intros b Hc Hws; [by inversion Hc |].
  cbn [collapse] in Hc. destruct (isWhiteSpace a) eqn:Ha.
  - destruct b; [by eapply IH |].
    apply elem_of_cons in Hc as [-> | Hc]; [done | by eapply IH].
  - apply elem_of_cons in Hc as [-> | Hc]; [congruence | by eapply IH].
Qed.

Lemma collapse_head_true (s : jsstring) :
  collapse true s !! 0 <> Some 32%N.
Proof.
  induction s as [|a s IH]; [done |]. cbn [collapse].
  destruct (isWhiteSpace a) eqn:Ha; [exact IH |].
  cbn. intros [= ->]. by vm_compute in Ha.
Qed.

Lemma collapse_no_double (s : jsstring) b i :
  collapse b s !! i = Some 32%N -> collapse b s !! (S i) <> Some 32%N.
Proof.
  revert b i. induction s as [|a s IH]; intros b i Hi; [done |].
  cbn [collapse] in *. destruct (isWhiteSpace a) eqn:Ha.
  - destruct b; [by apply IH |].
    destruct i as [|i]; [apply collapse_head_true | by apply IH].
  - destruct i as [|i]; [| by apply IH].
    cbn in Hi. injection Hi as ->. by vm_compute in Ha.
Qed.

Lemma collapse_singleSpaced (s : jsstring) : singleSpaced (collapse false s).
Proof.
  split; [intros c; apply collapse_spaces | intros i; apply collapse_no_double].
Qed.

End WhitespaceFacts.

(** ** What the consolidated generator writes *)

Module WrittenFacts.

Import Process RunSpec GeneratorFacts WhitespaceFacts.

(** The line of a prompt, by [formatRefactorPrompt]. *)
Lemma formatRefactorPrompt_line (r : Current.AnalyzedFunctionRecord) s index :
  getProp (Current.analysis r) (js "refactorPrompt") = Normal (Some (JString s)) ->
  Current.formatRefactorPrompt r index
  = Normal (promptHeading index (Current.name (Current.functionData r)) ++ promptLine s).
Proof.
  intros Hprompt. by rewrite (formatRefactorPrompt_string r s index Hprompt), replaceAll_ws.
Qed.

Lemma promptLine_singleSpaced (s : jsstring) : singleSpaced (promptLine s).
Proof. apply collapse_singleSpaced. Qed.

Lemma split_whole (sep : N) (s : jsstring) : sep ∉ s -> split sep s = [s].
Proof.
  induction s as [|c s IH]; intros Hno; [done |].
  cbn [split]. destruct (N.eqb_spec c sep) as [-> | Hne].
  - exfalso. apply Hno, list_elem_of_here.
  - rewrite IH; [done |]. intros Hin. apply Hno. by apply list_elem_of_further.
Qed.

Lemma collapse_fixed (s : jsstring) : forall b,
  (b = true -> forall c, head s = Some c -> isWhiteSpace c = false) ->
  singleSpaced s -> collapse b s = s.
Proof.
  induction s as [|c s IH]; intros b Hhead [Hspaces Hdouble]; [done |].
  assert (Htail : singleSpaced s).
  { split.
    - intros d Hd. apply Hspaces. by apply list_elem_of_further.
    - intros i Hi. apply (Hdouble (S i) Hi). }
  cbn [collapse]. destruct (isWhiteSpace c) eqn:Hc.
  - destruct b; [by rewrite (Hhead eq_refl c eq_refl) in Hc |].
    pose proof (Hspaces c (list_elem_of_here _ _) Hc) as ->.
    f_equal. apply IH; [| done].
    intros _ d Hd. destruct (isWhiteSpace d) eqn:Hws; [| done].
    destruct s as [|d' s]; [done |]. injection Hd as ->.
    pose proof (Hspaces d (list_elem_of_further _ _ _ (list_elem_of_here _ _)) Hws) as ->.
    by destruct (Hdouble 0 eq_refl).
  - f_equal. by apply IH.
Qed.

(** A prompt that is one trimmed line with single spaces is kept as it
    is, unless it holds one of the two phrases. *)
Lemma promptLine_plain (s : jsstring) :
  s <> [] -> LF ∉ s -> trim s = s -> singleSpaced s ->
  includes s (js "Module Context") = false -> includes s (js "javascript") = false ->
  promptLine s = s.
Proof.
  intros Hne Hline Htrim Hsingle Hcontext Hjs. unfold promptLine.
  rewrite (split_whole LF s Hline). cbn [List.filter]. unfold keptLine.
  rewrite Hcontext, Hjs, Htrim. unfold JSON.eqStr.
  rewrite bool_decide_eq_false_2 by done. cbn [negb andb map join].
  rewrite Htrim. by apply collapse_fixed.
Qed.

(** A line that holds one of the two phrases is left out. *)
Lemma promptLine_dropped (s : jsstring) :
  LF ∉ s ->
  includes s (js "Module Context") = true \/ includes s (js "javascript") = true ->
  promptLine s = [].
Proof.
  intros Hline Hphrase. unfold promptLine.
  rewrite (split_whole LF s Hline). cbn [List.filter]. unfold keptLine.
  destruct Hphrase as [-> | ->]; cbn [negb andb]; [done |].
  by rewrite !andb_false_r.
Qed.

Lemma mapIndexC_lines (l : list Current.AnalyzedFunctionRecord) : forall i,
  (forall r, r ∈ l ->
     exists s, getProp (Current.analysis r) (js "refactorPrompt")
               = Normal (Some (JString s))) ->
  exists prompts,
    mapIndexC Current.formatRefactorPrompt i l = Normal prompts
    /\ length prompts = length l
    /\ forall j r, l !! j = Some r ->
         exists s,
           getProp (Current.analysis r) (js "refactorPrompt") = Normal (Some (JString s))
           /\ prompts !! j
              = Some (promptHeading (i + j) (Current.name (Current.functionData r))
                        ++ promptLine s).
Proof.
  induction l as [|r l IH]; intros i H.
  { exists []. by repeat split. }
  destruct (H r) as [s Hs]; [apply list_elem_of_here |].
  pose proof (formatRefactorPrompt_line r s i Hs) as Hline.
  destruct (IH (S i)) as (prompts & Hrun & Hlen & Hlines).
  { intros r' Hr'. apply H. by apply list_elem_of_further. }
  eexists. cbn [mapIndexC]. rewrite Hline, Hrun. cbn [bindC].
  split; [reflexivity |]. split; [cbn [length]; by rewrite Hlen |].
  intros [|j] r' Hj.
  - injection Hj as <-. exists s. by rewrite Nat.add_0_r.
  - destruct (Hlines j r' Hj) as (s' & Hs' & Hl).
    exists s'. split; [done |]. cbn [lookup list_lookup].
    by replace (i + S j) with (S i + j) by lia.
Qed.

Lemma flagged_needsRefactor (r : Current.AnalyzedFunctionRecord) :
  (exists b, Current.needsRefactor r = Normal b) ->
  flagged (Current.analysis r) = true -> Current.needsRefactor r = Normal true.
Proof.
  intros [b Hb] Hf. by rewrite (needsRefactor_flagged r b Hb) in Hf; subst.
Qed.

Lemma generateRefactorFile_written path filePath
    (analysisResults : list Current.AnalyzedFunctionRecord)
    (original : Current.FileContent) disk :
  (forall r, r ∈ analysisResults -> exists b, Current.needsRefactor r = Normal b) ->
  (forall r, r ∈ analysisResults -> Current.needsRefactor r = Normal true ->
     exists s, getProp (Current.analysis r) (js "refactorPrompt")
               = Normal (Some (JString s))) ->
  (exists r, r ∈ analysisResults /\ Current.needsRefactor r = Normal true) ->
  readOnly disk (refactorPathOf path filePath) = false ->
  exists prompts,
    length prompts
    = length (List.filter (fun r => flagged (Current.analysis r)) analysisResults)
    /\ (forall j r,
          sort Current.byAnalyzedStartIndex
            (List.filter (fun r => flagged (Current.analysis r)) analysisResults) !! j
          = Some r ->
          exists s,
            getProp (Current.analysis r) (js "refactorPrompt") = Normal (Some (JString s))
            /\ prompts !! j
               = Some (promptHeading j (Current.name (Current.functionData r))
                         ++ promptLine s))
    /\ Current.generateRefactorFile path filePath analysisResults original disk
       = (Normal (Some (refactorPathOf path filePath)),
          mkDisk (<[refactorPathOf path filePath
                    := consolidated prompts (Current.originalContent original)]>
                    (files disk))
            (readOnly disk)
            (writes disk ++ [(refactorPathOf path filePath,
                              consolidated prompts (Current.originalContent original))])).
Proof.
  intros Hobj Hprompt (r0 & Hr0 & Hflag0) Hwritable.
  set (selected := List.filter (fun r => flagged (Current.analysis r)) analysisResults).
  assert (Hsel : forall r, r ∈ sort Current.byAnalyzedStartIndex selected ->
                   r ∈ analysisResults /\ Current.needsRefactor r = Normal true).
  { intros r Hr. rewrite sort_perm in Hr. unfold selected in Hr.
    apply list_elem_of_In, filter_In in Hr as [Hin Hf].
    apply list_elem_of_In in Hin. split; [done |].
    by apply flagged_needsRefactor; [apply Hobj |]. }
  destruct (mapIndexC_lines (sort Current.byAnalyzedStartIndex selected) 0)
    as (prompts & Hrun & Hlen & Hlines).
  { intros r Hr. destruct (Hsel r Hr). by apply Hprompt. }
  assert (Hlen' : length prompts = length selected)
    by (by rewrite Hlen, (sort_perm Current.byAnalyzedStartIndex selected)).
  exists prompts. split; [done |]. split; [exact Hlines |].
  assert (Hne : (length (sort Current.byAnalyzedStartIndex selected) =? 0) = false).
  { apply Nat.eqb_neq. rewrite (sort_perm Current.byAnalyzedStartIndex selected).
    assert (r0 ∈ selected) as Hin.
    { apply list_elem_of_In, filter_In. split; [by apply list_elem_of_In |].
      by apply needsRefactor_flagged. }
    destruct selected; [by inversion Hin | cbn; lia]. }
  unfold Current.generateRefactorFile, tryCatchIO, bindIO, liftC, retIO.
  rewrite (filterC_flagged _ Hobj). fold selected. rewrite Hne, Hrun.
  unfold writeFile. fold (refactorPathOf path filePath). rewrite Hwritable.
  unfold consolidated. by rewrite Hlen.
Qed.

(** A prompt that is not a string makes [formatRefactorPrompt] throw. *)
Lemma formatRefactorPrompt_throws (r : Current.AnalyzedFunctionRecord) index :
  (forall s, getProp (Current.analysis r) (js "refactorPrompt")
             <> Normal (Some (JString s))) ->
  exists e, Current.formatRefactorPrompt r index = Throw e /\ errorKind e = TypeError.
Proof.
  intros Hprompt. unfold Current.formatRefactorPrompt.
  destruct (Current.analysis r) as [| | | | |props] eqn:Ha; cbn [getProp bindC];
    try (by eexists).
  cbn [getProp] in Hprompt.
  destruct (snd <$> List.find _ props) as [[| | |s| |]|]; cbn [splitLines bindC];
    try (by eexists).
  by destruct (Hprompt s).
Qed.

Lemma generateRefactorFile_no_prompt path filePath
    (analysisResults : list Current.AnalyzedFunctionRecord)
    (original : Current.FileContent) disk r :
  r ∈ analysisResults -> Current.needsRefactor r = Normal true ->
  (forall s, getProp (Current.analysis r) (js "refactorPrompt")
             <> Normal (Some (JString s))) ->
  exists reason,
    Current.generateRefactorFile path filePath analysisResults original disk
    = (Throw (mkError PlainError (js "Failed to generate refactor file: " ++ reason)),
       disk).
Proof.
  intros Hin Hflag Hprompt.
  unfold Current.generateRefactorFile, tryCatchIO, bindIO, liftC.
  destruct (filterC Current.needsRefactor analysisResults) as [selected|e] eqn:Ef;
    [| by eexists].
  assert (Hkeep : r ∈ sort Current.byAnalyzedStartIndex selected)
    by (rewrite sort_perm; by eapply filterC_elem).
  destruct (sort Current.byAnalyzedStartIndex selected) as [|r0 rs] eqn:Es;
    [by inversion Hkeep |].
  cbn [length Nat.eqb].
  destruct (mapIndexC_throws Current.formatRefactorPrompt (r0 :: rs) r Hkeep) with (i := 0)
    as [e He].
  { intros i. destruct (formatRefactorPrompt_throws r i Hprompt) as (e & He & _).
    by exists e. }
  rewrite He. by eexists.
Qed.

End WrittenFacts.

(** ** [chat] of [models/deepseek.mjs] *)

Module DeepSeekFacts.

Import Process RunSpec DeepSeek.

Lemma echo_app chunks : forall fullContent out,
  foldl (fun state chunk =>
           let content := contentOf chunk in
           (fst state ++ content, snd state ++ [StdoutWrite content]))
        (fullContent, out) chunks
  = (fullContent ++ concat (map contentOf chunks),
     out ++ map StdoutWrite (map contentOf chunks)).
Proof.
  induction chunks as [|chunk chunks IH]; intros fullContent out.
  - cbn. by rewrite !app_nil_r.
  - cbn [foldl map concat fst snd]. rewrite IH. by rewrite <- !app_assoc.
Qed.

Lemma echo_spec chunks :
  echo chunks = (concat (map contentOf chunks), map StdoutWrite (map contentOf chunks)).
Proof. unfold echo. by rewrite echo_app. Qed.

Lemma written_writes (contents : list jsstring) :
  written (map StdoutWrite contents) = concat contents.
Proof.
  unfold written. f_equal. induction contents as [|c contents IH]; [done |].
  cbn. by rewrite IH.
Qed.

Lemma written_app a b : written (a ++ b) = written a ++ written b.
Proof. unfold written. by rewrite omap_app, concat_app. Qed.

Lemma accumulate_concat (response : list jsstring) : forall start,
  foldl (fun analysisResult chunk => analysisResult ++ chunk) start response
  = start ++ concat response.
Proof.
  induction response as [|chunk response IH]; intros start.
  - cbn. by rewrite app_nil_r.
  - cbn [foldl concat]. by rewrite IH, app_assoc.
Qed.

Lemma stringIterator_pair c d (s : jsstring) :
  stringIterator (c :: d :: s)
  = if isLeadingSurrogate c && isTrailingSurrogate d
    then [c; d] :: stringIterator s
    else [c] :: stringIterator (d :: s).
Proof. reflexivity. Qed.

Lemma stringIterator_bounded n : forall s : jsstring,
  length s <= n ->
  concat (stringIterator s) = s
  /\ Forall (fun chunk : jsstring => length chunk = 1 \/ length chunk = 2)
       (stringIterator s).
Proof.
  induction n as [|n IH]; intros s Hlen.
  { destruct s; [by split | cbn in Hlen; lia]. }
  destruct s as [|c [|d s]]; [by split | |].
  - split; [done |]. constructor; [by left | done].
  - rewrite stringIterator_pair.
    destruct (isLeadingSurrogate c && isTrailingSurrogate d).
    + destruct (IH s) as [Hcat Hall]; [cbn in Hlen; lia |].
      split; [cbn; by rewrite Hcat |]. constructor; [by right | done].
    + destruct (IH (d :: s)) as [Hcat Hall]; [cbn in Hlen |- *; lia |].
      split; [cbn [concat app]; by rewrite Hcat |]. constructor; [by left | done].
Qed.

End DeepSeekFacts.

(** ** The module context of a scanned function *)

Module ContextFacts.

Lemma slice_prefix (content : jsstring) n :
  slice content (Int 0) (Some (ToIntegerOrInfinity (numberOfNat n))) = take n content.
Proof.
  unfold slice, ToIntegerOrInfinity, numberOfNat, clampIndex.
  rewrite Z.quot_1_r. cbn [Z.ltb Z.compare].
  destruct (Z.ltb_spec (Z.of_nat n) 0); [lia |].
  rewrite Nat2Z.id. cbn [Z.to_nat Nat.min]. rewrite drop_0, Nat.sub_0_r.
  destruct (Nat.min_spec n (length content)) as [[? ->] | [? ->]]; [done |].
  by rewrite !take_ge by lia.
Qed.

(** Every record holds the context extracted at its [startIndex]. *)
Lemma current_scanLoop_context content : forall fuel st st',
  Current.scanLoop fuel content st = Some (Normal st') ->
  (forall f, f ∈ Current.scanned st ->
     Current.extractModuleContext (VString content)
       (VNumber (numberOfNat (Current.startIndex f)))
     = Normal (Current.moduleContext f)) ->
  forall f, f ∈ Current.scanned st' ->
    Current.extractModuleContext (VString content)
      (VNumber (numberOfNat (Current.startIndex f)))
    = Normal (Current.moduleContext f).
Proof.
  induction fuel as [|fuel IH]; intros st st' Hrun Hst; [done |].
  cbn [Current.scanLoop] in Hrun.
  destruct (exec Current.functionRegex content (Current.regexLastIndex st)) as [m|].
  - destruct (Current.extractModuleContext (VString content)
                (VNumber (numberOfNat (index m)))) as [context|] eqn:Hcontext; [| done].
    apply (IH _ _ Hrun). cbn [Current.scanned].
    intros f Hf. apply elem_of_app in Hf as [Hf | Hf]; [by apply Hst |].
    apply list_elem_of_singleton in Hf as ->. exact Hcontext.
  - injection Hrun as <-. exact Hst.
Qed.

End ContextFacts.

(** ** [main] of the previous revision *)

Module PreviousMainFacts.

Import Process RunSpec MainFacts.

(** The analysis that the previous revision stores for a function. *)
Lemma previous_analyze_ok chat functionCode analysisPrompt response :
  chat (Previous.analysisMessages functionCode analysisPrompt) = Normal response ->
  fst (PreviousRun.analyzeFunctionForRefactoring chat functionCode analysisPrompt)
  = Normal (verdictOf (Previous.cleaned (Previous.accumulate response))).
Proof.
  intros Hchat. rewrite previous_analyze_agrees.
  by apply analyzeFunctionForRefactoring_spec.
Qed.

Lemma analyzeAll_ok chat analysisPrompt functions : forall acc,
  (forall f, f ∈ functions ->
     exists response,
       chat (Previous.analysisMessages (Previous.code f) analysisPrompt) = Normal response) ->
  exists results,
    fst (PreviousRun.analyzeAll chat analysisPrompt functions acc) = Normal (acc ++ results)
    /\ map Previous.functionData results = functions
    /\ forall r, r ∈ results ->
         exists response,
           chat (Previous.analysisMessages (Previous.code (Previous.functionData r))
                   analysisPrompt) = Normal response
           /\ Previous.analysis r
              = verdictOf (Previous.cleaned (Previous.accumulate response)).
Proof.
  induction functions as [|f functions IH]; intros acc Hchat.
  { exists []. cbn. rewrite app_nil_r. repeat split. intros r Hr. by inversion Hr. }
  destruct (Hchat f) as [response Hf]; [apply list_elem_of_here |].
  pose proof (previous_analyze_ok chat _ analysisPrompt response Hf) as Hrun.
  cbn [PreviousRun.analyzeAll].
  destruct (PreviousRun.analyzeFunctionForRefactoring chat (Previous.code f) analysisPrompt)
    as [result printed].
  cbn [fst] in Hrun. subst result. cbn [fst].
  destruct (IH (acc ++ [Previous.mkAnalyzed f
                          (verdictOf (Previous.cleaned (Previous.accumulate response)))]))
    as (results & Hres & Hdata & Hall).
  { intros g Hg. apply Hchat. by apply list_elem_of_further. }
  eexists (_ :: results). rewrite Hres, <- app_assoc. split; [reflexivity |].
  split; [cbn; by rewrite Hdata |].
  intros r Hr. apply elem_of_cons in Hr as [-> | Hr]; [by exists response | by apply Hall].
Qed.

(** The loop stops at the first request that fails. *)
Lemma analyzeAll_first_failure chat analysisPrompt functions : forall acc,
  (exists f e, f ∈ functions
     /\ chat (Previous.analysisMessages (Previous.code f) analysisPrompt) = Throw e) ->
  exists before f after e,
    functions = before ++ f :: after
    /\ (forall g, g ∈ before ->
          exists response,
            chat (Previous.analysisMessages (Previous.code g) analysisPrompt)
            = Normal response)
    /\ chat (Previous.analysisMessages (Previous.code f) analysisPrompt) = Throw e
    /\ fst (PreviousRun.analyzeAll chat analysisPrompt functions acc) = Throw e.
Proof.
  induction functions as [|f functions IH]; intros acc (g & e & Hg & He).
  { by inversion Hg. }
  cbn [PreviousRun.analyzeAll].
  destruct (chat (Previous.analysisMessages (Previous.code f) analysisPrompt))
    as [response|e'] eqn:Hf.
  - pose proof (previous_analyze_ok chat _ analysisPrompt response Hf) as Hrun.
    destruct (PreviousRun.analyzeFunctionForRefactoring chat (Previous.code f)
                analysisPrompt) as [result printed].
    cbn [fst] in Hrun. subst result. cbn [fst].
    apply elem_of_cons in Hg as [-> | Hg]; [congruence |].
    destruct (IH (acc ++ [Previous.mkAnalyzed f
                            (verdictOf (Previous.cleaned (Previous.accumulate response)))]))
      as (before & f' & after & e'' & -> & Hbefore & Hthrow & Hrun); [by exists g, e |].
    exists (f :: before), f', after, e''. split; [done |]. split; [| done].
    intros h Hh. apply elem_of_cons in Hh as [-> | Hh]; [by exists response | by apply Hbefore].
  - exists [], f, functions, e'. split; [done |]. split; [intros h Hh; by inversion Hh |].
    split; [done |].
    unfold PreviousRun.analyzeFunctionForRefactoring. by rewrite Hf.
Qed.

Lemma previous_main_scanned fuel path chat argv disk filePath content :
  argv !! 2 = Some filePath -> isFilePath filePath ->
  files disk !! filePath = Some content -> length content < fuel ->
  exists fileContent,
    Previous.extractFunctions fuel disk filePath = Some (Normal fileContent)
    /\ Previous.originalContent fileContent = content
    /\ wellScanned content 0 (map previousSpan (Previous.functions fileContent))
    /\ PreviousRun.main fuel path chat argv disk
       = match PreviousRun.analyzeAll chat (PreviousRun.buildAnalysisPrompt (argv !! 3))
                 (Previous.functions fileContent) [] with
         | (Throw error, progress) =>
             Some (fail (PreviousRun.configuration filePath (argv !! 3) ++ progress)
                     (message error) disk)
         | (Normal analysisResults, progress) =>
             Some (PreviousRun.conclude path filePath fileContent
                     (PreviousRun.configuration filePath (argv !! 3) ++ progress)
                     analysisResults disk)
         end.
Proof.
  intros Harg Hpath Hfile Hfuel.
  destruct (previous_scan_result content fuel Hfuel) as (st & Hrun & Hws & _).
  assert (Hscan : Previous.extractFunctions fuel disk filePath
                  = Some (Normal (Previous.mkFileContent (Previous.scanned st)
                                    (sliceFrom content (Previous.lastIndex st)) content))).
  { unfold Previous.extractFunctions, readFile. by rewrite Hfile, Hrun. }
  eexists. split; [exact Hscan |]. split; [reflexivity |]. split; [exact Hws |].
  unfold PreviousRun.main. by rewrite (parseArguments_path _ _ Harg Hpath), Hscan.
Qed.

Lemma previous_generateRefactorFile_spliced path filePath
    (analysisResults : list Previous.AnalyzedFunctionRecord)
    (original : Previous.FileContent) disk content :
  Previous.originalContent original = content ->
  wellScanned content 0 (map analyzedSpan analysisResults) ->
  (forall r, r ∈ analysisResults ->
     exists flag prompt, hasVerdict (Previous.analysis r) flag prompt) ->
  readOnly disk (refactorPathOf path filePath) = false ->
  Previous.generateRefactorFile path filePath analysisResults original disk
  = (Normal (refactorPathOf path filePath),
     afterWrite disk (refactorPathOf path filePath) (spliced content 0 analysisResults)).
Proof.
  intros Horig Hws Hv Hwritable.
  destruct (forEach_spliced content analysisResults 0 Hws Hv ltac:(lia))
    as (flags & Hflags & Hrun).
  unfold Previous.generateRefactorFile, bindIO, liftC, retIO.
  rewrite (sort_descending_rev _ _ _ Hws), Hflags, Horig, Hrun. rewrite take_0. cbn [app].
  unfold writeFile. fold (refactorPathOf path filePath). by rewrite Hwritable.
Qed.

Lemma previous_flagged (r : Previous.AnalyzedFunctionRecord) flag prompt :
  hasVerdict (Previous.analysis r) flag prompt ->
  Previous.needsRefactor r = Normal (flagged (Previous.analysis r)).
Proof.
  intros Hv. rewrite (needsRefactor_verdict r flag prompt Hv).
  destruct Hv as [Hflag _]. unfold flagged. by rewrite Hflag.
Qed.

End PreviousMainFacts.

(** ** The shape of a match *)

Module ShapeFacts.

Import MatchSpec.

Lemma clearCaptures_nil x : clearCaptures [] x = x.
Proof.
  destruct x as [i l caps]. unfold clearCaptures. cbn [endIndex rest captures existsb negb].
  f_equal. induction caps as [|cap caps IH]; [done |]. cbn. by rewrite IH.
Qed.

Lemma passes_weaken (Q Q' : jsstring -> Prop) m :
  (forall s, Q s -> Q' s) -> passes Q m -> passes Q' m.
Proof.
  intros HQ Hm x c z Hz.
  destruct (Hm x c z Hz) as (pre & y & ? & ? & ? & ? & ?).
  exists pre, y. repeat split; auto.
Qed.

Lemma passes_cat (Q1 Q2 : jsstring -> Prop) r1 r2 :
  passes Q1 (matcher r1) -> passes Q2 (matcher r2) ->
  passes (fun s => exists a b, s = a ++ b /\ Q1 a /\ Q2 b) (matcher (Cat r1 r2)).
Proof.
  intros H1 H2 x c z Hz. cbn [matcher] in Hz.
  destruct (H1 _ _ _ Hz) as (a & y1 & Hr1 & He1 & Hc1 & Hq1 & Hk).
  destruct (H2 _ _ _ Hk) as (b & y2 & Hr2 & He2 & Hc2 & Hq2 & Hk2).
  exists (a ++ b), y2. rewrite Hr1, Hr2, He2, He1, Hc2, Hc1, length_app, <- app_assoc.
  repeat split; [lia | by exists a, b | done].
Qed.

Lemma passes_alt (Q : jsstring -> Prop) r1 r2 :
  passes Q (matcher r1) -> passes Q (matcher r2) -> passes Q (matcher (Alt r1 r2)).
Proof.
  intros H1 H2 x c z Hz. cbn [matcher] in Hz.
  destruct (matcher r1 x c) as [z'|] eqn:E1.
  - injection Hz as <-. by apply H1.
  - by apply H2.
Qed.

Lemma passes_chr p : passes (fun s => exists a, s = [a] /\ p a = true) (matcher (Chr p)).
Proof.
  intros [i l caps] c z Hz. cbn [matcher rest endIndex captures] in Hz.
  destruct l as [|a tl]; [done |]. destruct (p a) eqn:Hp; [| done].
  exists [a], (mkState (S i) tl caps). cbn [rest endIndex captures length app].
  repeat split; [lia | by exists a | done].
Qed.

Lemma passes_lit l : passes (fun s => s = map N_of_ascii l) (matcher (litChars l)).
Proof.
  induction l as [|a l IH].
  { intros x c z Hz. exists [], x. cbn [app length]. rewrite Nat.add_0_r. by repeat split. }
  destruct l as [|b l].
  - eapply passes_weaken; [| apply passes_chr].
    intros s (a' & -> & Ha). cbn. f_equal. unfold chr, only in Ha. by apply N.eqb_eq in Ha.
  - change (litChars (a :: b :: l)) with (Cat (ch a) (litChars (b :: l))).
    eapply passes_weaken; [| apply passes_cat; [apply passes_chr | exact IH]].
    intros s (u & v & -> & (a' & -> & Ha) & ->). cbn. f_equal.
    unfold chr, only in Ha. by apply N.eqb_eq in Ha.
Qed.

(** A repetition of a matcher that passes: so does the whole. *)
Lemma passes_repeat (Q : jsstring -> Prop) m greedy :
  passes Q m ->
  forall fuel min max x c z,
    repeatMatcher m min max greedy [] c fuel x = Some z ->
    exists pres y,
      rest x = concat pres ++ rest y /\ endIndex y = endIndex x + length (concat pres)
      /\ captures y = captures x /\ Forall Q pres
      /\ (max = None -> min <= length pres) /\ c y = Some z.
Proof.
  intros Hm. induction fuel as [|fuel IH]; intros min max x c z Hz; [done |].
  assert (Hstop : c x = Some z -> (max = None -> min = 0) ->
            exists pres y,
              rest x = concat pres ++ rest y
              /\ endIndex y = endIndex x + length (concat pres)
              /\ captures y = captures x /\ Forall Q pres
              /\ (max = None -> min <= length pres) /\ c y = Some z).
  { intros Hc Hmin. exists [], x. cbn. rewrite Nat.add_0_r. repeat split; try done.
    intros Hmax. rewrite (Hmin Hmax). lia. }
  assert (Hstep : m x (fun y =>
              if (min =? 0) && (endIndex y =? endIndex x) then None
              else repeatMatcher m (min - 1) (Nat.pred <$> max) greedy [] c fuel y) = Some z ->
            exists pres y,
              rest x = concat pres ++ rest y
              /\ endIndex y = endIndex x + length (concat pres)
              /\ captures y = captures x /\ Forall Q pres
              /\ (max = None -> min <= length pres) /\ c y = Some z).
  { intros Hrun. destruct (Hm _ _ _ Hrun) as (pre & y1 & Hr1 & He1 & Hc1 & Hq1 & Hk).
    destruct ((min =? 0) && (endIndex y1 =? endIndex x)); [done |].
    destruct (IH _ _ _ _ _ Hk) as (pres & y & Hr & He & Hc & Hq & Hmin & Hcy).
    exists (pre :: pres), y. cbn [concat length].
    rewrite Hr1, Hr, He, He1, Hc, Hc1, length_app, <- app_assoc.
    repeat split; [lia | by constructor | | done].
    intros ->. specialize (Hmin eq_refl). lia. }
  cbn [repeatMatcher] in Hz. rewrite clearCaptures_nil in Hz.
  destruct max as [[|k]|]; [by apply Hstop | |].
  - destruct (min =? 0) eqn:Hmin; cbn [negb] in Hz; [| by apply Hstep].
    destruct greedy.
    + destruct (m x _) eqn:Hrun; [injection Hz as <-; by apply Hstep | by apply Hstop].
    + destruct (c x) eqn:Hc; [injection Hz as <-; by apply Hstop | by apply Hstep].
  - destruct (Nat.eqb_spec min 0) as [Hmin|Hmin]; cbn [negb] in Hz; [| by apply Hstep].
    destruct greedy.
    + destruct (m x _) eqn:Hrun; [injection Hz as <-; by apply Hstep | by apply Hstop].
    + destruct (c x) eqn:Hc; [injection Hz as <-; by apply Hstop | by apply Hstep].
Qed.

(** A pattern without groups leaves the captures alone. *)
Lemma passes_groupless r : groupsOf r = [] -> passes (fun _ => True) (matcher r).
Proof.
  induction r as [|p|r1 IH1 r2 IH2|r1 IH1 r2 IH2|min max greedy r1 IH1|n r1 IH1|];
    intros Hg.
  - intros x c z Hz. exists [], x. cbn [app length]. rewrite Nat.add_0_r. by repeat split.
  - eapply passes_weaken; [| apply passes_chr]. done.
  - cbn [groupsOf] in Hg. apply app_eq_nil in Hg as [Hg1 Hg2].
    eapply passes_weaken; [| apply passes_cat; [by apply IH1 | by apply IH2]]. done.
  - cbn [groupsOf] in Hg. apply app_eq_nil in Hg as [Hg1 Hg2].
    apply passes_alt; [by apply IH1 | by apply IH2].
  - cbn [groupsOf] in Hg. intros x c z Hz. cbn [matcher] in Hz. rewrite Hg in Hz.
    destruct (passes_repeat _ _ greedy (IH1 Hg) _ _ _ _ _ _ Hz)
      as (pres & y & ? & ? & ? & _ & _ & ?).
    by exists (concat pres), y.
  - done.
  - intros x c z Hz. cbn [matcher] in Hz. destruct (atLineEnd x); [| done].
    exists [], x. cbn [app length]. rewrite Nat.add_0_r. by repeat split.
Qed.

(** [p+] reads one or more code units that are in [p]. *)
Lemma passes_plus p :
  passes (fun s => s <> [] /\ Forall (fun c => p c = true) s) (matcher (Plus (Chr p))).
Proof.
  intros x c z Hz. cbn [matcher Plus groupsOf] in Hz.
  destruct (passes_repeat _ _ true (passes_chr p) _ _ _ _ _ _ Hz)
    as (pres & y & Hr & He & Hc & Hq & Hmin & Hk).
  exists (concat pres), y. repeat split; try done.
  - specialize (Hmin eq_refl). destruct pres as [|pre pres]; [cbn in Hmin; lia |].
    inversion Hq as [|? ? (a & -> & _) _]; subst. done.
  - clear Hr He Hmin. induction Hq as [|pre pres (a & -> & Ha) _ IH]; [done |].
    cbn. by constructor.
Qed.

(** A capturing group records the offsets of what its pattern read. *)
Lemma passes_group (Q : jsstring -> Prop) n r x c z :
  passes Q (matcher r) -> matcher (Grp n r) x c = Some z ->
  exists pre y,
    rest x = pre ++ rest y /\ endIndex y = endIndex x + length pre
    /\ captures y = captures x /\ Q pre
    /\ c (setCapture n (endIndex x) y) = Some z.
Proof. intros Hr Hz. cbn [matcher] in Hz. by apply Hr in Hz. Qed.

(** What [exec] returns for a pattern that passes. *)
Lemma exec_passes (Q : jsstring -> Prop) r (subject : jsstring) lastIndex m :
  passes Q (matcher r) -> exec r subject lastIndex = Some m ->
  Q (matched m) /\ groups m = []
  /\ exists before after, subject = before ++ matched m ++ after
                          /\ length before = index m.
Proof.
  intros Hr Hexec. unfold exec in Hexec.
  destruct (Nat.ltb_spec (length subject) lastIndex) as [|Hle]; [done |].
  destruct (search r lastIndex (drop lastIndex subject)) as [[j y]|] eqn:Hsearch; [| done].
  injection Hexec as <-. cbn [matched groups index].
  destruct (search_spec _ _ _ _ _ Hsearch) as (k & -> & Hk & Hrun).
  destruct (Hr _ _ _ Hrun) as (pre & y' & Hrest & Hend & Hcaps & Hq & Hy).
  injection Hy as ->. cbn [rest endIndex captures] in Hrest, Hend, Hcaps.
  rewrite Hcaps. cbn [map].
  assert (Hdrop : drop (lastIndex + k) subject = pre ++ rest y)
    by (by rewrite <- drop_drop).
  assert (Hmatched : sliceN subject (lastIndex + k) (endIndex y) = pre).
  { rewrite sliceN_take_drop, Hdrop, Hend.
    replace (lastIndex + k + length pre - (lastIndex + k)) with (length pre) by lia.
    by rewrite take_app_length. }
  rewrite Hmatched. split; [done |]. split; [done |].
  exists (take (lastIndex + k) subject), (rest y). split.
  - by rewrite <- Hdrop, take_drop.
  - apply length_take_le. rewrite length_drop in Hk. lia.
Qed.

Lemma execAll_elem r (subject : jsstring) m : forall fuel lastIndex,
  m ∈ execAll fuel r subject lastIndex ->
  exists lastIndex', exec r subject lastIndex' = Some m.
Proof.
  induction fuel as [|fuel IH]; intros lastIndex Hm; [by inversion Hm |].
  cbn [execAll] in Hm.
  destruct (exec r subject lastIndex) as [m'|] eqn:Hexec; [| by inversion Hm].
  apply elem_of_cons in Hm as [-> | Hm]; [by eexists | by eapply IH].
Qed.

End ShapeFacts.

(** ** The entries of the module context *)

Module EntryFacts.

Import MatchSpec ShapeFacts.

Lemma trimStart_app (u v : jsstring) a :
  isWhiteSpace a = false -> trimStart (u ++ a :: v) = trimStart u ++ a :: v.
Proof.
  intros Ha. induction u as [|c u IH]; cbn [app trimStart]; [by rewrite Ha |].
  by destruct (isWhiteSpace c).
Qed.

Lemma trimStart_idem (s : jsstring) : trimStart (trimStart s) = trimStart s.
Proof.
  induction s as [|c s IH]; [done |]. cbn [trimStart].
  destruct (isWhiteSpace c) eqn:Hc; [done |]. cbn [trimStart]. by rewrite Hc.
Qed.

Lemma trimStart_suffix (s : jsstring) : exists w, s = w ++ trimStart s.
Proof.
  induction s as [|c s [w IH]]; [by exists [] |]. cbn [trimStart].
  destruct (isWhiteSpace c); [| by exists []].
  exists (c :: w). cbn. by rewrite <- IH.
Qed.

Lemma trimEnd_idem (s : jsstring) : trimEnd (trimEnd s) = trimEnd s.
Proof. unfold trimEnd. by rewrite rev_involutive, trimStart_idem. Qed.

Lemma trimEnd_prefix (s : jsstring) : exists w, s = trimEnd s ++ w.
Proof.
  unfold trimEnd. destruct (trimStart_suffix (rev s)) as [w Hw].
  exists (rev w). rewrite <- rev_app_distr, <- Hw. by rewrite rev_involutive.
Qed.

(** Trimming keeps a word that starts the text. *)
Lemma trim_keyword a (k : jsstring) z (b : jsstring) :
  isWhiteSpace a = false -> isWhiteSpace z = false ->
  trim ((a :: k ++ [z]) ++ b) = (a :: k ++ [z]) ++ trimEnd b.
Proof.
  intros Ha Hz. unfold trim. cbn [app trimStart]. rewrite Ha.
  change (a :: (k ++ [z]) ++ b) with ((a :: k ++ [z]) ++ b).
  unfold trimEnd. rewrite rev_app_distr.
  change (a :: k ++ [z]) with ((a :: k) ++ [z]). rewrite (rev_app_distr (a :: k)).
  cbn [rev app]. rewrite (trimStart_app _ _ z Hz), rev_app_distr.
  cbn [rev]. rewrite rev_app_distr, rev_involutive. cbn [rev app].
  by rewrite <- !app_assoc.
Qed.

Lemma passes_prefix l r :
  groupsOf r = [] ->
  passes (fun s => exists b, s = map N_of_ascii l ++ b) (matcher (Cat (litChars l) r)).
Proof.
  intros Hg. eapply passes_weaken;
    [| apply passes_cat; [apply passes_lit | by apply passes_groupless]].
  intros s (u & v & -> & -> & _). by exists v.
Qed.

Lemma passes_importRegex :
  passes (fun s => exists b, s = js "import" ++ b) (matcher Current.importRegex).
Proof. by apply (passes_prefix (list_ascii_of_string "import")). Qed.

Lemma passes_keyword :
  passes (fun s => s ∈ declarationKeywords)
    (matcher (Alt (lit "const") (Alt (lit "let") (Alt (lit "var")
                (Alt (lit "type") (lit "interface")))))).
Proof.
  repeat apply passes_alt;
    (eapply passes_weaken; [| apply passes_lit]); intros s ->; unfold declarationKeywords.
  - apply list_elem_of_here.
  - apply list_elem_of_further, list_elem_of_here.
  - do 2 apply list_elem_of_further. apply list_elem_of_here.
  - do 3 apply list_elem_of_further. apply list_elem_of_here.
  - do 4 apply list_elem_of_further. apply list_elem_of_here.
Qed.

Lemma passes_declRegex :
  passes (fun s => exists keyword b, keyword ∈ declarationKeywords /\ s = keyword ++ b)
    (matcher Current.declRegex).
Proof.
  unfold Current.declRegex. cbn [cat].
  eapply passes_weaken;
    [| apply (passes_cat (fun s => s ∈ declarationKeywords) (fun _ => True));
       [apply passes_keyword | by apply passes_groupless]].
  intros s (u & v & -> & Hu & _). by exists u, v.
Qed.

(** A keyword starts and ends with a code unit that is no white space. *)
Lemma keyword_ends keyword :
  keyword ∈ js "import" :: declarationKeywords ->
  exists a k z, keyword = a :: k ++ [z]
                /\ isWhiteSpace a = false /\ isWhiteSpace z = false.
Proof.
  intros H. repeat (apply elem_of_cons in H as [-> | H]); [.. | by inversion H].
  - by exists 105%N, (js "mpor"), 116%N.
  - by exists 99%N, (js "ons"), 116%N.
  - by exists 108%N, (js "e"), 116%N.
  - by exists 118%N, (js "a"), 114%N.
  - by exists 116%N, (js "yp"), 101%N.
  - by exists 105%N, (js "nterfac"), 101%N.
Qed.

(** The trimmed text of a match that starts with a keyword. *)
Lemma trimmed_entry r (subject : jsstring) m (keywords : list jsstring) :
  (forall keyword, keyword ∈ keywords -> keyword ∈ js "import" :: declarationKeywords) ->
  passes (fun s => exists keyword b, keyword ∈ keywords /\ s = keyword ++ b) (matcher r) ->
  m ∈ matchAll r subject ->
  exists keyword tail,
    keyword ∈ keywords /\ trim (matched m) = keyword ++ tail
    /\ trim (trim (matched m)) = trim (matched m)
    /\ exists before after, subject = before ++ trim (matched m) ++ after.
Proof.
  intros Hkw Hr Hm. apply execAll_elem in Hm as [lastIndex Hexec].
  destruct (exec_passes _ _ _ _ _ Hr Hexec)
    as ((keyword & b & Hin & Hmatched) & _ & before & after & Hsubject & _).
  destruct (keyword_ends keyword (Hkw _ Hin)) as (a & k & z & -> & Ha & Hz).
  exists (a :: k ++ [z]), (trimEnd b). split; [done |].
  rewrite Hmatched, (trim_keyword a k z b Ha Hz). split; [done |].
  split; [by rewrite (trim_keyword a k z _ Ha Hz), trimEnd_idem |].
  destruct (trimEnd_prefix b) as [w Hw].
  exists before, (w ++ after). rewrite Hsubject, Hmatched.
  rewrite Hw at 1. by rewrite <- !app_assoc.
Qed.

End EntryFacts.

(** ** The name of a scanned function *)

Module NameFacts.

Import MatchSpec ShapeFacts.

Lemma cat_step (Q : jsstring -> Prop) r1 r2 x c z :
  passes Q (matcher r1) -> matcher (Cat r1 r2) x c = Some z ->
  exists pre y,
    rest x = pre ++ rest y /\ endIndex y = endIndex x + length pre
    /\ captures y = captures x /\ Q pre /\ matcher r2 y c = Some z.
Proof. intros Hr Hz. cbn [matcher] in Hz. by apply Hr in Hz. Qed.

Lemma alt_step r1 r2 r x c z :
  matcher (Cat (Alt r1 r2) r) x c = Some z ->
  matcher (Cat r1 r) x c = Some z \/ matcher (Cat r2 r) x c = Some z.
Proof.
  intros Hz. cbn [matcher] in Hz |- *.
  destruct (matcher r1 x _) as [z'|]; [left | right]; done.
Qed.

(** A group around a word, between two patterns without groups. *)
Lemma grouped_word P n S x z :
  groupsOf P = [] -> groupsOf S = [] ->
  matcher (Cat P (Cat (Grp n (Plus (Chr isWordChar))) S)) x Some = Some z ->
  exists before name after,
    isWord name
    /\ rest x = before ++ name ++ after ++ rest z
    /\ captures z
       = (n, (endIndex x + length before, endIndex x + length before + length name))
           :: captures x
    /\ endIndex z = endIndex x + length before + length name + length after.
Proof.
  intros HP HS Hz.
  destruct (cat_step _ _ _ _ _ _ (passes_groupless P HP) Hz)
    as (before & y1 & Hr1 & He1 & Hc1 & _ & Hz1).
  cbn [matcher] in Hz1.
  destruct (passes_plus isWordChar _ _ _ Hz1)
    as (name & y2 & Hr2 & He2 & Hc2 & Hname & Hz2).
  destruct (passes_groupless S HS _ _ _ Hz2)
    as (after & y3 & Hr3 & He3 & Hc3 & _ & Hz3).
  injection Hz3 as ->. cbn [rest endIndex captures setCapture] in Hr3, He3, Hc3.
  exists before, name, after. split; [exact Hname |].
  rewrite Hr1, Hr2, Hr3, Hc3, Hc2, Hc1, He3, He2, He1.
  repeat split; lia.
Qed.

Lemma current_functionRegex_name x z :
  captures x = [] -> matcher Current.functionRegex x Some = Some z ->
  exists n before name after,
    (n = 1 \/ n = 2) /\ isWord name
    /\ rest x = before ++ name ++ after ++ rest z
    /\ captures z
       = [(n, (endIndex x + length before, endIndex x + length before + length name))]
    /\ endIndex z = endIndex x + length before + length name + length after.
Proof.
  intros Hcaps Hz. unfold Current.functionRegex in Hz. cbn [cat] in Hz.
  apply (cat_step (fun _ => True)) in Hz as (pA & y1 & Hr1 & He1 & Hc1 & _ & Hz);
    [| by apply passes_groupless].
  apply (cat_step (fun _ => True)) in Hz as (pB & y2 & Hr2 & He2 & Hc2 & _ & Hz);
    [| by apply passes_groupless].
  apply alt_step in Hz as [Hz | Hz].
  - match type of Hz with
    | matcher (Cat (Cat ?l (Cat ?w ?g)) ?D) _ _ = _ =>
        change (matcher (Cat (Cat l w) (Cat g D)) y2 Some = Some z) in Hz
    end.
    apply grouped_word in Hz as (before & name & after & Hname & Hr & Hc & He);
      [| done | done].
    exists 1, (pA ++ pB ++ before), name, after.
    rewrite Hr1, Hr2, Hr, Hc, Hc2, Hc1, Hcaps, He, He2, He1, !length_app, <- !app_assoc.
    split; [by left |]. split; [done |]. split; [done |].
    split; [do 3 f_equal; lia | lia].
  - match type of Hz with
    | matcher (Cat (Cat ?l (Cat ?w (Cat ?g ?R))) ?D) _ _ = _ =>
        change (matcher (Cat (Cat l w) (Cat g (Cat R D))) y2 Some = Some z) in Hz
    end.
    apply grouped_word in Hz as (before & name & after & Hname & Hr & Hc & He);
      [| done | done].
    exists 2, (pA ++ pB ++ before), name, after.
    rewrite Hr1, Hr2, Hr, Hc, Hc2, Hc1, Hcaps, He, He2, He1, !length_app, <- !app_assoc.
    split; [by right |]. split; [done |]. split; [done |].
    split; [do 3 f_equal; lia | lia].
Qed.

Lemma previous_functionRegex_name x z :
  captures x = [] -> matcher Previous.functionRegex x Some = Some z ->
  exists n before name after,
    n = 1 /\ isWord name
    /\ rest x = before ++ name ++ after ++ rest z
    /\ captures z
       = [(n, (endIndex x + length before, endIndex x + length before + length name))]
    /\ endIndex z = endIndex x + length before + length name + length after.
Proof.
  intros Hcaps Hz. unfold Previous.functionRegex in Hz. cbn [cat] in Hz.
  match type of Hz with
  | matcher (Cat ?l (Cat ?w (Cat ?g ?R))) _ _ = _ =>
      change (matcher (Cat (Cat l w) (Cat g R)) x Some = Some z) in Hz
  end.
  apply grouped_word in Hz as (before & name & after & Hname & Hr & Hc & He);
    [| done | done].
  exists 1, before, name, after. by rewrite Hc, Hcaps.
Qed.

(** The group of a match whose state holds one capture. *)
Lemma exec_capture r (subject : jsstring) lastIndex m (allowed : nat -> Prop) :
  (forall x z, captures x = [] -> matcher r x Some = Some z ->
     exists n before name after,
       allowed n /\ isWord name
       /\ rest x = before ++ name ++ after ++ rest z
       /\ captures z
          = [(n, (endIndex x + length before,
                  endIndex x + length before + length name))]
       /\ endIndex z = endIndex x + length before + length name + length after) ->
  exec r subject lastIndex = Some m ->
  exists n name before after,
    allowed n /\ isWord name
    /\ groups m = [(n, name)] /\ matched m = before ++ name ++ after.
Proof.
  intros Hr Hexec. unfold exec in Hexec.
  destruct (Nat.ltb_spec (length subject) lastIndex) as [|Hle]; [done |].
  destruct (search r lastIndex (drop lastIndex subject)) as [[j y]|] eqn:Hsearch; [| done].
  injection Hexec as <-. cbn [matched groups index].
  destruct (search_spec _ _ _ _ _ Hsearch) as (k & -> & Hk & Hrun).
  destruct (Hr (mkState (lastIndex + k) (drop k (drop lastIndex subject)) []) y
              eq_refl Hrun)
    as (n & before & name & after & Hshape & Hname & Hrest & Hcaps & Hend).
  cbn [rest endIndex] in Hrest, Hcaps, Hend.
  assert (Hdrop : drop (lastIndex + k) subject = before ++ name ++ after ++ rest y)
    by (by rewrite <- drop_drop).
  exists n, name, before, after. split; [exact Hshape |]. split; [exact Hname |].
  rewrite Hcaps. cbn [map fst snd]. split.
  - do 2 f_equal. rewrite sliceN_take_drop.
    replace (lastIndex + k + length before) with ((lastIndex + k) + length before) by lia.
    rewrite <- drop_drop, Hdrop, drop_app_length.
    replace (lastIndex + k + length before + length name - (lastIndex + k + length before))
      with (length name) by lia.
    by rewrite take_app_length.
  - rewrite sliceN_take_drop, Hdrop, Hend.
    replace (lastIndex + k + length before + length name + length after - (lastIndex + k))
      with (length (before ++ name ++ after)) by (rewrite !length_app; lia).
    rewrite !app_assoc. rewrite take_app_length. by rewrite <- !app_assoc.
Qed.

Lemma firstTruthy_name n (name : jsstring) m :
  (n = 1 \/ n = 2) -> name <> [] -> groups m = [(n, name)] ->
  Current.firstTruthy (group m 1) (group m 2) = Some name.
Proof.
  intros Hn Hname Hgroups. unfold group. rewrite Hgroups.
  destruct name as [|c name]; [done |].
  by destruct Hn as [-> | ->].
Qed.

(** Every record of the current scanner is named by a word of its code. *)
Lemma current_scanLoop_names content : forall fuel st st',
  Current.scanLoop fuel content st = Some (Normal st') ->
  (forall f, f ∈ Current.scanned st ->
     exists name before after,
       Current.name f = Some name /\ isWord name
       /\ Current.code f = before ++ name ++ after) ->
  forall f, f ∈ Current.scanned st' ->
    exists name before after,
      Current.name f = Some name /\ isWord name
      /\ Current.code f = before ++ name ++ after.
Proof.
  induction fuel as [|fuel IH]; intros st st' Hrun Hst; [done |].
  cbn [Current.scanLoop] in Hrun.
  destruct (exec Current.functionRegex content (Current.regexLastIndex st))
    as [m|] eqn:Hexec.
  - destruct (Current.extractModuleContext (VString content)
                (VNumber (numberOfNat (index m)))) as [context|]; [| done].
    apply (IH _ _ Hrun). cbn [Current.scanned].
    intros f Hf. apply elem_of_app in Hf as [Hf | Hf]; [by apply Hst |].
    apply list_elem_of_singleton in Hf as ->. cbn [Current.name Current.code].
    destruct (exec_capture _ _ _ _ (fun n => n = 1 \/ n = 2)
                current_functionRegex_name Hexec)
      as (n & name & before & after & Hn & Hname & Hgroups & Hmatched).
    exists name, before, after. split; [| done].
    apply (firstTruthy_name n); [done | apply Hname | done].
  - injection Hrun as <-. exact Hst.
Qed.

Lemma previous_scanLoop_names content : forall fuel st st',
  Previous.scanLoop fuel content st = Some st' ->
  (forall f, f ∈ Previous.scanned st ->
     exists name before after,
       Previous.name f = Some name /\ isWord name
       /\ Previous.code f = before ++ name ++ after) ->
  forall f, f ∈ Previous.scanned st' ->
    exists name before after,
      Previous.name f = Some name /\ isWord name
      /\ Previous.code f = before ++ name ++ after.
Proof.
  induction fuel as [|fuel IH]; intros st st' Hrun Hst; [done |].
  cbn [Previous.scanLoop] in Hrun.
  destruct (exec Previous.functionRegex content (Previous.regexLastIndex st))
    as [m|] eqn:Hexec.
  - apply (IH _ _ Hrun). cbn [Previous.scanned].
    intros f Hf. apply elem_of_app in Hf as [Hf | Hf]; [by apply Hst |].
    apply list_elem_of_singleton in Hf as ->. cbn [Previous.name Previous.code].
    destruct (exec_capture _ _ _ _ (fun n => n = 1) previous_functionRegex_name Hexec)
      as (n & name & before & after & -> & Hname & Hgroups & Hmatched).
    exists name, before, after. split; [| done].
    unfold group. by rewrite Hgroups.
  - injection Hrun as <-. exact Hst.
Qed.

End NameFacts.

(** ** The REFACTOR comment kept in [preText] *)

Module PreTextFacts.

Import MatchSpec ShapeFacts.

Lemma passes_refactorCommentRegex :
  passes (fun s => exists middle, s = js "/**" ++ middle ++ js "*/")
    (matcher Current.refactorCommentRegex).
Proof.
  unfold Current.refactorCommentRegex. cbn [cat].
  intros x c z Hz.
  match type of Hz with
  | matcher (Cat ?l (Cat ?a (Cat ?b (Cat ?d (Cat ?e (Cat ?f (Cat ?g (Cat ?h ?l2)))))))) _ _ = _ =>
      change (matcher (Cat l (Cat (Cat a (Cat b (Cat d (Cat e (Cat f (Cat g h)))))) l2))
                x c = Some z) in Hz;
      pose proof (passes_cat _ _ _ _
                    (passes_lit (list_ascii_of_string "/**"))
                    (passes_cat (fun _ => True) _ _ _
                       (passes_groupless
                          (Cat a (Cat b (Cat d (Cat e (Cat f (Cat g h)))))) eq_refl)
                       (passes_lit (list_ascii_of_string "*/")))) as Hpass
  end.
  destruct (Hpass _ _ _ Hz)
    as (pre & y & Hr & He & Hc & (u & v & -> & -> & (middle & w & -> & _ & ->)) & Hk).
  exists (js "/**" ++ middle ++ js "*/"), y. repeat split; try done.
  by exists middle.
Qed.

Lemma last_elem {A} (l : list A) x : last l = Some x -> x ∈ l.
Proof.
  induction l as [|a l IH]; [done |]. destruct l as [|b l].
  - intros [= ->]. apply list_elem_of_here.
  - intros H. apply list_elem_of_further. by apply IH.
Qed.

(** The [preText] of a record: nothing, or a comment of the gap. *)
Lemma preText_shape (gap : jsstring) :
  default [] (last (map matched (matchAll Current.refactorCommentRegex gap))) = []
  \/ exists middle before after,
       default [] (last (map matched (matchAll Current.refactorCommentRegex gap)))
       = js "/**" ++ middle ++ js "*/"
       /\ gap = before ++ (js "/**" ++ middle ++ js "*/") ++ after.
Proof.
  destruct (last (map matched (matchAll Current.refactorCommentRegex gap)))
    as [comment|] eqn:Hlast; [| by left].
  right. apply last_elem, list_elem_of_In, in_map_iff in Hlast as (m & <- & Hm).
  apply list_elem_of_In, execAll_elem in Hm as [lastIndex Hexec].
  destruct (exec_passes _ _ _ _ _ passes_refactorCommentRegex Hexec)
    as ((middle & Hmatched) & _ & before & after & Hgap & _).
  exists middle, before, after. cbn [default]. by rewrite <- Hmatched.
Qed.

Lemma current_scanLoop_preText content : forall fuel st st',
  Current.scanLoop fuel content st = Some (Normal st') ->
  Current.lastIndex st <= length content ->
  Current.regexLastIndex st = Current.lastIndex st ->
  (forall f, f ∈ Current.scanned st ->
     Current.preText f = []
     \/ exists middle before after,
          Current.preText f = js "/**" ++ middle ++ js "*/"
          /\ take (Current.startIndex f) content = before ++ Current.preText f ++ after) ->
  forall f, f ∈ Current.scanned st' ->
    Current.preText f = []
    \/ exists middle before after,
         Current.preText f = js "/**" ++ middle ++ js "*/"
         /\ take (Current.startIndex f) content = before ++ Current.preText f ++ after.
Proof.
  induction fuel as [|fuel IH]; intros st st' Hrun Hle Hsame Hst; [done |].
  cbn [Current.scanLoop] in Hrun.
  destruct (exec Current.functionRegex content (Current.regexLastIndex st))
    as [m|] eqn:Hexec.
  - destruct (Current.extractModuleContext (VString content)
                (VNumber (numberOfNat (index m)))) as [context|]; [| done].
    destruct (exec_spec _ _ _ _ Hexec) as (Hlo & Hhi & Hlen & _ & _ & Hml).
    apply (IH _ _ Hrun); cbn [Current.scanned Current.lastIndex Current.regexLastIndex].
    + lia.
    + lia.
    + intros f Hf. apply elem_of_app in Hf as [Hf | Hf]; [by apply Hst |].
      apply list_elem_of_singleton in Hf as ->.
      cbn [Current.preText Current.startIndex].
      destruct (preText_shape (sliceN content (Current.lastIndex st) (index m)))
        as [Hnone | (middle & before & after & Hpre & Hgap)]; [by left |].
      right. exists middle, (take (Current.lastIndex st) content ++ before), after.
      split; [exact Hpre |]. rewrite Hpre.
      rewrite <- (take_app_slice content (Current.lastIndex st) (index m)) by lia.
      rewrite Hgap. by rewrite <- !app_assoc.
  - injection Hrun as <-. exact Hst.
Qed.

End PreTextFacts.

(** ** What a run writes *)

Module WriteFacts.

Import Process RunSpec MainFacts PreviousMainFacts.

Lemma current_generate_writes path filePath
    (analysisResults : list Current.AnalyzedFunctionRecord)
    (original : Current.FileContent) disk :
  snd (Current.generateRefactorFile path filePath analysisResults original disk) = disk
  \/ exists data,
       snd (Current.generateRefactorFile path filePath analysisResults original disk)
       = afterWrite disk (refactorPathOf path filePath) data.
Proof.
  unfold Current.generateRefactorFile, tryCatchIO, bindIO, liftC, retIO.
  destruct (filterC Current.needsRefactor analysisResults) as [selected|e]; [| by left].
  destruct (length (sort Current.byAnalyzedStartIndex selected) =? 0); [by left |].
  destruct (mapIndexC Current.formatRefactorPrompt 0 _) as [prompts|e]; [| by left].
  unfold writeFile. fold (refactorPathOf path filePath).
  destruct (readOnly disk (refactorPathOf path filePath)); [by left |].
  right. by eexists.
Qed.

Lemma previous_generate_writes path filePath
    (analysisResults : list Previous.AnalyzedFunctionRecord)
    (original : Previous.FileContent) disk :
  snd (Previous.generateRefactorFile path filePath analysisResults original disk) = disk
  \/ exists data,
       snd (Previous.generateRefactorFile path filePath analysisResults original disk)
       = afterWrite disk (refactorPathOf path filePath) data.
Proof.
  unfold Previous.generateRefactorFile, bindIO, liftC, retIO.
  destruct (filterC Previous.needsRefactor _) as [selected|e]; [| by left].
  destruct (Previous.forEach selected _) as [refactored|e]; [| by left].
  unfold writeFile. fold (refactorPathOf path filePath).
  destruct (readOnly disk (refactorPathOf path filePath)); [by left |].
  right. by eexists.
Qed.

Lemma current_conclude_writes path filePath fileContent out analysisResults disk :
  finalDisk (CurrentRun.conclude path filePath fileContent out analysisResults disk) = disk
  \/ exists data,
       finalDisk (CurrentRun.conclude path filePath fileContent out analysisResults disk)
       = afterWrite disk (refactorPathOf path filePath) data.
Proof.
  unfold CurrentRun.conclude.
  destruct (someC Current.needsRefactor analysisResults) as [[|]|e]; try (by left).
  pose proof (current_generate_writes path filePath analysisResults fileContent disk) as H.
  destruct (Current.generateRefactorFile path filePath analysisResults fileContent disk)
    as [[refactorPath|e] disk']; cbn [snd] in H.
  - by destruct (filterC Current.needsRefactor analysisResults).
  - exact H.
Qed.

Lemma previous_conclude_writes path filePath fileContent out analysisResults disk :
  finalDisk (PreviousRun.conclude path filePath fileContent out analysisResults disk) = disk
  \/ exists data,
       finalDisk (PreviousRun.conclude path filePath fileContent out analysisResults disk)
       = afterWrite disk (refactorPathOf path filePath) data.
Proof.
  unfold PreviousRun.conclude.
  destruct (someC Previous.needsRefactor analysisResults) as [[|]|e]; try (by left).
  pose proof (previous_generate_writes path filePath analysisResults fileContent disk) as H.
  destruct (Previous.generateRefactorFile path filePath analysisResults fileContent disk)
    as [[refactorPath|e] disk']; cbn [snd] in H.
  - by destruct (filterC Previous.needsRefactor analysisResults).
  - exact H.
Qed.

Lemma parseArguments_inr argv usage filePath userPrompt :
  parseArguments argv = (usage, inr (filePath, userPrompt)) -> argv !! 2 = Some filePath.
Proof.
  unfold parseArguments. destruct (argv !! 2) as [[|c p]|]; [done | | done].
  destruct (bool_decide _ || bool_decide _); [done |]. congruence.
Qed.

End WriteFacts.

(** * The properties *)

Import Process RunSpec MatchSpec ChunkFacts BatchFacts ObjectFacts MainFacts
  GeneratorFacts WhitespaceFacts WrittenFacts DeepSeekFacts ContextFacts
  PreviousMainFacts ShapeFacts EntryFacts NameFacts PreTextFacts WriteFacts
  RunExamples.

(** ** Batches *)

(** [chunkArray] cuts the array into consecutive chunks: for a size of at
    least 1 the chunks put together give the array back, there are
    [Math.ceil(length / size)] of them, none is empty and all but the last
    hold [size] elements.  For the size 0 an array that is not empty gives
    the RangeError of [Array.from]. *)
Theorem chunkArray_partition {A} (array : list A) (size : nat) :
  (0 < size ->
   exists chunks,
     CurrentRun.chunkArray array size = CurrentRun.Chunks chunks
     /\ concat chunks = array
     /\ length chunks = CurrentRun.ceilDiv (length array) size
     /\ forall i chunk, chunks !! i = Some chunk ->
          0 < length chunk <= size /\ (S i < length chunks -> length chunk = size))
  /\ (size = 0 -> array <> [] ->
      CurrentRun.chunkArray array size = CurrentRun.InvalidArrayLength).
Proof.
  split.
  - apply chunkArray_spec.
  - intros -> Hne. by destruct array.
Qed.

Lemma chunkArray_partition_witness :
  0 < 2
  /\ exists chunks,
       CurrentRun.chunkArray [1; 2; 3; 4; 5] 2 = CurrentRun.Chunks chunks
       /\ concat chunks = [1; 2; 3; 4; 5]
       /\ chunks = [[1; 2]; [3; 4]; [5]].
Proof.
  assert (Hsize : 0 < 2) by lia.
  split; [exact Hsize |].
  destruct (proj1 (chunkArray_partition [1; 2; 3; 4; 5] 2) Hsize)
    as (chunks & Hrun & Hcat & _).
  exists chunks. split; [exact Hrun |]. split; [exact Hcat |].
  vm_compute in Hrun. by injection Hrun as <-.
Defined.



(** ** The analysis *)

(** The analysis stored for a function is always an object: the default
    verdict, or what [JSON.parse] makes of a text that starts with an
    opening brace.  So reading its [needsRefactor] never throws. *)
Theorem analysis_is_an_object (chat : ChatCapability) (analysisPrompt : jsstring) :
  (forall functionData,
      exists props b,
        Current.analysis (fst (Current.analyzeFunction chat analysisPrompt functionData))
        = JObject props
        /\ Current.needsRefactor (fst (Current.analyzeFunction chat analysisPrompt functionData))
           = Normal b)
  /\ (forall functionCode analysis,
        Previous.analyzeFunctionForRefactoring chat functionCode analysisPrompt
        = Normal analysis ->
        exists props, analysis = JObject props).
Proof.
  split.
  - intros functionData.
    destruct (current_analysis_object chat analysisPrompt functionData) as [props Hprops].
    destruct (current_needsRefactor chat analysisPrompt functionData) as [b Hb].
    by exists props, b.
  - intros functionCode analysis Hrun.
    destruct (chat (Previous.analysisMessages functionCode analysisPrompt))
      as [response|e] eqn:Hchat.
    + rewrite (analyzeFunctionForRefactoring_spec _ _ _ _ Hchat) in Hrun.
      injection Hrun as <-. apply verdictOf_object.
    + unfold Previous.analyzeFunctionForRefactoring in Hrun. by rewrite Hchat in Hrun.
Qed.

Lemma analysis_is_an_object_witness :
  Previous.analyzeFunctionForRefactoring (answering mistyped)
    (js "function foo(a) { return a; }") (js "p")
  = Normal (JObject [(js "needsRefactor", JString (js "yes"))])
  /\ exists props, JObject [(js "needsRefactor", JString (js "yes"))] = JObject props.
Proof.
  assert (Hrun : Previous.analyzeFunctionForRefactoring (answering mistyped)
                   (js "function foo(a) { return a; }") (js "p")
                 = Normal (JObject [(js "needsRefactor", JString (js "yes"))]))
    by (vm_compute; reflexivity).
  split; [exact Hrun |].
  exact (proj2 (analysis_is_an_object (answering mistyped) (js "p")) _ _ Hrun).
Defined.

(** ** [main] of the current revision *)

(** Without a file path, or with an empty one, both revisions print the
    usage and exit with code 1; for [--help] and [-h] they print it and
    exit with code 0.  Nothing is read, asked or written. *)
Theorem main_prints_usage (fuel : nat) (path : PathModule) (chat : ChatCapability)
    (schedule : nat -> list nat) (argv : list jsstring) (disk : Disk) :
  (argv !! 2 = None \/ argv !! 2 = Some [] ->
   CurrentRun.main fuel path chat schedule argv disk
   = Some (mkRun (Exited 1) [ConsoleLog [Text USAGE_TEXT]] disk)
   /\ PreviousRun.main fuel path chat argv disk
      = Some (mkRun (Exited 1) [ConsoleLog [Text USAGE_TEXT]] disk))
  /\ (argv !! 2 = Some (js "--help") \/ argv !! 2 = Some (js "-h") ->
      CurrentRun.main fuel path chat schedule argv disk
      = Some (mkRun (Exited 0) [ConsoleLog [Text USAGE_TEXT]] disk)
      /\ PreviousRun.main fuel path chat argv disk
         = Some (mkRun (Exited 0) [ConsoleLog [Text USAGE_TEXT]] disk)).
Proof.
  unfold CurrentRun.main, PreviousRun.main, parseArguments.
  split; intros [-> | ->]; by split.
Qed.

Lemma main_prints_usage_witness :
  ([js "/usr/bin/node"; js "/a/refactor-prompt.mjs"] !! 2 = None
   \/ [js "/usr/bin/node"; js "/a/refactor-prompt.mjs"] !! 2 = Some [])
  /\ outcome <$> CurrentRun.main 100 posixPath failing oneByOne
                   [js "/usr/bin/node"; js "/a/refactor-prompt.mjs"]
                   (diskWith (js "/a/b.mjs") twoFunctions)
     = Some (Exited 1).
Proof.
  assert (H : [js "/usr/bin/node"; js "/a/refactor-prompt.mjs"] !! 2 = None
              \/ [js "/usr/bin/node"; js "/a/refactor-prompt.mjs"] !! 2 = Some [])
    by (left; reflexivity).
  split; [exact H |].
  by rewrite (proj1 (proj1 (main_prints_usage 100 posixPath failing oneByOne _
                              (diskWith (js "/a/b.mjs") twoFunctions)) H)).
Defined.

(** A file that cannot be read ends both revisions with exit code 1 and
    nothing written.  The current revision reports the error of
    [fs.readFile] behind [Failed to extract functions: ], the previous one
    as it is. *)
Theorem main_unreadable_file (fuel : nat) (path : PathModule) (chat : ChatCapability)
    (schedule : nat -> list nat) (argv : list jsstring) (disk : Disk)
    (filePath : jsstring) (error : Error) :
  argv !! 2 = Some filePath -> isFilePath filePath ->
  readFile disk filePath = Throw error ->
  CurrentRun.main fuel path chat schedule argv disk
  = Some (mkRun (Exited 1)
            [ConsoleError [Text (js "Error:");
                           Text (js "Failed to extract functions: " ++ message error)]]
            disk)
  /\ PreviousRun.main fuel path chat argv disk
     = Some (mkRun (Exited 1) [ConsoleError [Text (js "Error:"); Text (message error)]]
               disk).
Proof.
  intros Harg Hpath Hread.
  unfold CurrentRun.main, PreviousRun.main.
  rewrite (parseArguments_path _ _ Harg Hpath).
  unfold Current.extractFunctions, Previous.extractFunctions. rewrite Hread.
  by split.
Qed.

Lemma main_unreadable_file_witness :
  argv !! 2 = Some (js "/a/b.mjs")
  /\ isFilePath (js "/a/b.mjs")
  /\ readFile (diskWith (js "/a/c.mjs") twoFunctions) (js "/a/b.mjs")
     = Throw (mkError PlainError (js "ENOENT: no such file or directory"))
  /\ CurrentRun.main 100 posixPath failing oneByOne argv
       (diskWith (js "/a/c.mjs") twoFunctions)
     = Some (mkRun (Exited 1)
               [ConsoleError
                  [Text (js "Error:");
                   Text (js "Failed to extract functions: ENOENT: no such file or directory")]]
               (diskWith (js "/a/c.mjs") twoFunctions)).
Proof.
  assert (Harg : argv !! 2 = Some (js "/a/b.mjs")) by reflexivity.
  assert (Hpath : isFilePath (js "/a/b.mjs")) by (repeat split; vm_compute; discriminate).
  assert (Hread : readFile (diskWith (js "/a/c.mjs") twoFunctions) (js "/a/b.mjs")
                  = Throw (mkError PlainError (js "ENOENT: no such file or directory")))
    by (vm_compute; reflexivity).
  split; [exact Harg |]. split; [exact Hpath |]. split; [exact Hread |].
  exact (proj1 (main_unreadable_file 100 posixPath failing oneByOne argv
                  (diskWith (js "/a/c.mjs") twoFunctions) _ _ Harg Hpath Hread)).
Defined.

(** When no scanned function is flagged, the current revision says so and
    returns without writing a file; so it does whenever every request to
    the chat fails. *)
Theorem current_main_nothing_flagged (fuel : nat) (path : PathModule)
    (chat : ChatCapability) (schedule : nat -> list nat) (argv : list jsstring)
    (disk : Disk) (filePath content : jsstring) :
  argv !! 2 = Some filePath -> isFilePath filePath ->
  files disk !! filePath = Some content -> length content < fuel ->
  (forall i, schedule i = [0]) ->
  (forall f, scanned fuel disk filePath f ->
             flagged (analysisOf chat (argv !! 3) f) = false) ->
  exists out,
    CurrentRun.main fuel path chat schedule argv disk
    = Some (mkRun Returned
              (out ++ [ConsoleLog [Text ([LF] ++ js "No functions require refactoring!")]])
              disk).
Proof.
  intros Harg Hpath Hfile Hfuel Hschedule Hnone.
  destruct (current_main_analyzed fuel path chat schedule argv disk filePath content
              Harg Hpath Hfile Hfuel Hschedule)
    as (fileContent & progress & Hscan & _ & ->).
  eexists. unfold CurrentRun.conclude. rewrite someC_none; [reflexivity |].
  intros r Hr. apply list_elem_of_In, in_map_iff in Hr as (f & <- & Hf).
  apply list_elem_of_In in Hf.
  destruct (current_needsRefactor chat (Current.buildAnalysisPrompt (argv !! 3)) f)
    as [b Hb].
  rewrite Hb. f_equal. rewrite <- (needsRefactor_flagged _ _ Hb).
  apply Hnone. by exists fileContent.
Qed.

Lemma current_main_nothing_flagged_witness :
  argv !! 2 = Some (js "/a/b.mjs")
  /\ isFilePath (js "/a/b.mjs")
  /\ files (diskWith (js "/a/b.mjs") twoFunctions) !! js "/a/b.mjs" = Some twoFunctions
  /\ length twoFunctions < 100
  /\ exists out,
       CurrentRun.main 100 posixPath failing oneByOne argv
         (diskWith (js "/a/b.mjs") twoFunctions)
       = Some (mkRun Returned
                 (out ++ [ConsoleLog [Text ([LF] ++ js "No functions require refactoring!")]])
                 (diskWith (js "/a/b.mjs") twoFunctions)).
Proof.
  assert (Harg : argv !! 2 = Some (js "/a/b.mjs")) by reflexivity.
  assert (Hpath : isFilePath (js "/a/b.mjs")) by (repeat split; vm_compute; discriminate).
  assert (Hfile : files (diskWith (js "/a/b.mjs") twoFunctions) !! js "/a/b.mjs"
                  = Some twoFunctions) by (vm_compute; reflexivity).
  assert (Hlen : length twoFunctions < 100) by (vm_compute; lia).
  split; [exact Harg |]. split; [exact Hpath |]. split; [exact Hfile |].
  split; [exact Hlen |].
  apply (current_main_nothing_flagged 100 posixPath failing oneByOne argv _ _ _
           Harg Hpath Hfile Hlen).
  - intros i. reflexivity.
  - intros f _. reflexivity.
Defined.

(** When some scanned function is flagged and the flagged ones have a
    string as their prompt, the current revision writes one file, the
    [.refactor] sibling with the consolidated text that embeds the content
    of the file as it is, and reports its path and the number of prompts
    in it. *)
Theorem current_main_writes_prompts (fuel : nat) (path : PathModule)
    (chat : ChatCapability) (schedule : nat -> list nat) (argv : list jsstring)
    (disk : Disk) (filePath content : jsstring) :
  argv !! 2 = Some filePath -> isFilePath filePath ->
  files disk !! filePath = Some content -> length content < fuel ->
  (forall i, schedule i = [0]) ->
  (forall f, scanned fuel disk filePath f ->
     flagged (analysisOf chat (argv !! 3) f) = true ->
     exists s, getProp (analysisOf chat (argv !! 3) f) (js "refactorPrompt")
               = Normal (Some (JString s))) ->
  (exists f, scanned fuel disk filePath f
             /\ flagged (analysisOf chat (argv !! 3) f) = true) ->
  readOnly disk (refactorPathOf path filePath) = false ->
  exists out prompts,
    CurrentRun.main fuel path chat schedule argv disk
    = Some (mkRun Returned
              (out ++
                 [ ConsoleLog [Text ([LF] ++ js "Refactoring prompts have been written to: "
                                       ++ refactorPathOf path filePath)];
                   ConsoleLog [Text (js "Found " ++ numberToString (length prompts)
                                       ++ js " function(s) that need refactoring.")] ])
              (afterWrite disk (refactorPathOf path filePath)
                 (consolidated prompts content))).
Proof.
  intros Harg Hpath Hfile Hfuel Hschedule Hprompts (f0 & Hf0 & Hflag0) Hwritable.
  destruct (current_main_analyzed fuel path chat schedule argv disk filePath content
              Harg Hpath Hfile Hfuel Hschedule)
    as (fileContent & progress & Hscan & Hcontent & ->).
  set (analysisPrompt := Current.buildAnalysisPrompt (argv !! 3)).
  set (analysisResults :=
         map (fun f => fst (Current.analyzeFunction chat analysisPrompt f))
           (Current.functions fileContent)).
  assert (Hobj : forall r, r ∈ analysisResults -> exists b, Current.needsRefactor r = Normal b).
  { intros r Hr. apply list_elem_of_In, in_map_iff in Hr as (f & <- & _).
    apply current_needsRefactor. }
  assert (Hstr : forall r, r ∈ analysisResults -> Current.needsRefactor r = Normal true ->
                   exists s, getProp (Current.analysis r) (js "refactorPrompt")
                             = Normal (Some (JString s))).
  { intros r Hr Hflag. apply list_elem_of_In, in_map_iff in Hr as (f & <- & Hf).
    apply list_elem_of_In in Hf.
    apply Hprompts; [by exists fileContent |]. by apply needsRefactor_flagged. }
  assert (Hsome : exists r, r ∈ analysisResults /\ Current.needsRefactor r = Normal true).
  { destruct Hf0 as (fileContent' & Hscan' & Hin).
    rewrite Hscan in Hscan'. injection Hscan' as <-.
    exists (fst (Current.analyzeFunction chat analysisPrompt f0)). split.
    - apply list_elem_of_In, in_map_iff. exists f0. split; [done |].
      by apply list_elem_of_In.
    - by apply flagged_needsRefactor; [apply current_needsRefactor |]. }
  destruct (generateRefactorFile_written path filePath analysisResults fileContent disk
              Hobj Hstr Hsome Hwritable) as (prompts & Hlen & _ & Hwrite).
  exists (CurrentRun.configuration filePath (argv !! 3) fileContent ++ progress), prompts.
  unfold CurrentRun.conclude.
  destruct Hsome as (r & Hr & Hflag).
  rewrite (someC_found _ _ r Hobj Hr Hflag), Hwrite, (filterC_flagged _ Hobj).
  by rewrite Hlen, Hcontent.
Qed.

Lemma current_main_writes_prompts_witness :
  argv !! 2 = Some (js "/a/b.mjs")
  /\ isFilePath (js "/a/b.mjs")
  /\ files (diskWith (js "/a/b.mjs") twoFunctions) !! js "/a/b.mjs" = Some twoFunctions
  /\ length twoFunctions < 100
  /\ readOnly (diskWith (js "/a/b.mjs") twoFunctions)
       (refactorPathOf posixPath (js "/a/b.mjs")) = false
  /\ exists out prompts,
       CurrentRun.main 100 posixPath (answeringBy [(js "function bar", addValidation)])
         oneByOne argv (diskWith (js "/a/b.mjs") twoFunctions)
       = Some (mkRun Returned
                 (out ++
                    [ ConsoleLog [Text ([LF] ++ js "Refactoring prompts have been written to: "
                                          ++ refactorPathOf posixPath (js "/a/b.mjs"))];
                      ConsoleLog [Text (js "Found " ++ numberToString (length prompts)
                                          ++ js " function(s) that need refactoring.")] ])
                 (afterWrite (diskWith (js "/a/b.mjs") twoFunctions)
                    (refactorPathOf posixPath (js "/a/b.mjs"))
                    (consolidated prompts twoFunctions))).
Proof.
  assert (Harg : argv !! 2 = Some (js "/a/b.mjs")) by reflexivity.
  assert (Hpath : isFilePath (js "/a/b.mjs")) by (repeat split; vm_compute; discriminate).
  assert (Hfile : files (diskWith (js "/a/b.mjs") twoFunctions) !! js "/a/b.mjs"
                  = Some twoFunctions) by (vm_compute; reflexivity).
  assert (Hlen : length twoFunctions < 100) by (vm_compute; lia).
  assert (Hwritable : readOnly (diskWith (js "/a/b.mjs") twoFunctions)
                        (refactorPathOf posixPath (js "/a/b.mjs")) = false)
    by reflexivity.
  assert (Hscanned : forall f,
            scanned 100 (diskWith (js "/a/b.mjs") twoFunctions) (js "/a/b.mjs") f ->
            f = Current.mkFunction (Some (js "foo")) (js "function foo(a) { return a; }") []
                  19 48 (Current.mkContext [js "import x from 'y';"] []
                           (js "import x from 'y';" ++ [LF]))
            \/ f = Current.mkFunction (Some (js "bar")) (js "function bar() { }") []
                     49 67 (Current.mkContext [js "import x from 'y';"] []
                              (js "import x from 'y';" ++ [LF]
                                 ++ js "function foo(a) { return a; }" ++ [LF]))).
  { intros f (fileContent & Hscan & Hf). vm_compute in Hscan. injection Hscan as <-.
    apply elem_of_cons in Hf as [-> | Hf]; [left; vm_compute; reflexivity |].
    apply list_elem_of_singleton in Hf as ->. right. vm_compute. reflexivity. }
  split; [exact Harg |]. split; [exact Hpath |]. split; [exact Hfile |].
  split; [exact Hlen |]. split; [exact Hwritable |].
  apply (current_main_writes_prompts 100 posixPath _ oneByOne argv _ _ _
           Harg Hpath Hfile Hlen); [by intros i | | | exact Hwritable].
  - intros f Hf Hflag. destruct (Hscanned f Hf) as [-> | ->].
    + vm_compute in Hflag. discriminate.
    + eexists. vm_compute. reflexivity.
  - eexists. split.
    + eexists. split; [vm_compute; reflexivity |].
      apply list_elem_of_further, list_elem_of_here.
    + vm_compute. reflexivity.
Defined.

(** A flagged function whose prompt is not a string (null, as in the
    default verdict's shape, or left out) ends the current revision with
    exit code 1: the generator's error is reported behind
    [Failed to generate refactor file: ] and no file is written, also not
    for the other flagged functions. *)
Theorem current_main_flagged_without_prompt (fuel : nat) (path : PathModule)
    (chat : ChatCapability) (schedule : nat -> list nat) (argv : list jsstring)
    (disk : Disk) (filePath content : jsstring) :
  argv !! 2 = Some filePath -> isFilePath filePath ->
  files disk !! filePath = Some content -> length content < fuel ->
  (forall i, schedule i = [0]) ->
  (exists f, scanned fuel disk filePath f
             /\ flagged (analysisOf chat (argv !! 3) f) = true
             /\ forall s, getProp (analysisOf chat (argv !! 3) f) (js "refactorPrompt")
                          <> Normal (Some (JString s))) ->
  exists out reason,
    CurrentRun.main fuel path chat schedule argv disk
    = Some (mkRun (Exited 1)
              (out ++ [ConsoleError [Text (js "Error:");
                                     Text (js "Failed to generate refactor file: "
                                             ++ reason)]])
              disk).
Proof.
  intros Harg Hpath Hfile Hfuel Hschedule (f0 & Hf0 & Hflag0 & Hprompt0).
  destruct (current_main_analyzed fuel path chat schedule argv disk filePath content
              Harg Hpath Hfile Hfuel Hschedule)
    as (fileContent & progress & Hscan & _ & ->).
  set (analysisPrompt := Current.buildAnalysisPrompt (argv !! 3)).
  set (analysisResults :=
         map (fun f => fst (Current.analyzeFunction chat analysisPrompt f))
           (Current.functions fileContent)).
  set (r := fst (Current.analyzeFunction chat analysisPrompt f0)).
  assert (Hobj : forall r, r ∈ analysisResults -> exists b, Current.needsRefactor r = Normal b).
  { intros r' Hr. apply list_elem_of_In, in_map_iff in Hr as (f & <- & _).
    apply current_needsRefactor. }
  assert (Hr : r ∈ analysisResults).
  { destruct Hf0 as (fileContent' & Hscan' & Hin).
    rewrite Hscan in Hscan'. injection Hscan' as <-.
    apply list_elem_of_In, in_map_iff. exists f0. split; [done |].
    by apply list_elem_of_In. }
  assert (Hflag : Current.needsRefactor r = Normal true)
    by (by apply flagged_needsRefactor; [apply current_needsRefactor |]).
  destruct (generateRefactorFile_no_prompt path filePath analysisResults fileContent disk
              r Hr Hflag Hprompt0) as (reason & Hthrow).
  eexists _, reason. unfold CurrentRun.conclude.
  rewrite (someC_found _ _ r Hobj Hr Hflag), Hthrow. reflexivity.
Qed.

Lemma current_main_flagged_without_prompt_witness :
  argv !! 2 = Some (js "/a/b.mjs")
  /\ isFilePath (js "/a/b.mjs")
  /\ files (diskWith (js "/a/b.mjs") twoFunctions) !! js "/a/b.mjs" = Some twoFunctions
  /\ length twoFunctions < 100
  /\ exists out reason,
       CurrentRun.main 100 posixPath
         (answeringBy [(js "function bar", flaggedNoPrompt);
                       (js "function foo", addValidation)])
         oneByOne argv (diskWith (js "/a/b.mjs") twoFunctions)
       = Some (mkRun (Exited 1)
                 (out ++ [ConsoleError [Text (js "Error:");
                                        Text (js "Failed to generate refactor file: "
                                                ++ reason)]])
                 (diskWith (js "/a/b.mjs") twoFunctions)).
Proof.
  assert (Harg : argv !! 2 = Some (js "/a/b.mjs")) by reflexivity.
  assert (Hpath : isFilePath (js "/a/b.mjs")) by (repeat split; vm_compute; discriminate).
  assert (Hfile : files (diskWith (js "/a/b.mjs") twoFunctions) !! js "/a/b.mjs"
                  = Some twoFunctions) by (vm_compute; reflexivity).
  assert (Hlen : length twoFunctions < 100) by (vm_compute; lia).
  split; [exact Harg |]. split; [exact Hpath |]. split; [exact Hfile |].
  split; [exact Hlen |].
  apply (current_main_flagged_without_prompt 100 posixPath _ oneByOne argv _ _ _
           Harg Hpath Hfile Hlen); [by intros i |].
  eexists. split; [| split].
  - eexists. split; [vm_compute; reflexivity |].
    apply list_elem_of_further, list_elem_of_here.
  - vm_compute. reflexivity.
  - intros s. vm_compute. discriminate.
Defined.

(** ** The consolidated generator *)

(** When every record has a readable [needsRefactor], some record is
    flagged and the flagged ones have a string as their prompt, the
    consolidated [generateRefactorFile] returns the [.refactor] path after
    one write.  The text written announces the number of flagged records,
    lists for each of them, in ascending order of [startIndex] and
    numbered from 1, its own [refactorPrompt] put on one line, and embeds
    the original content as it is. *)
Theorem consolidated_file (path : PathModule) (filePath : jsstring)
    (analysisResults : list Current.AnalyzedFunctionRecord)
    (original : Current.FileContent) (disk : Disk) :
  (forall r, r ∈ analysisResults -> exists b, Current.needsRefactor r = Normal b) ->
  (forall r, r ∈ analysisResults -> Current.needsRefactor r = Normal true ->
     exists s, getProp (Current.analysis r) (js "refactorPrompt")
               = Normal (Some (JString s))) ->
  (exists r, r ∈ analysisResults /\ Current.needsRefactor r = Normal true) ->
  readOnly disk (refactorPathOf path filePath) = false ->
  exists selected prompts,
    selected ≡ₚ List.filter (fun r => flagged (Current.analysis r)) analysisResults
    /\ ascending (fun r => Current.startIndex (Current.functionData r)) selected
    /\ length prompts = length selected
    /\ (forall j r, selected !! j = Some r ->
          exists s,
            getProp (Current.analysis r) (js "refactorPrompt") = Normal (Some (JString s))
            /\ prompts !! j
               = Some (promptHeading j (Current.name (Current.functionData r))
                         ++ promptLine s)
            /\ singleSpaced (promptLine s))
    /\ Current.generateRefactorFile path filePath analysisResults original disk
       = (Normal (Some (refactorPathOf path filePath)),
          afterWrite disk (refactorPathOf path filePath)
            (consolidated prompts (Current.originalContent original))).
Proof.
  intros Hobj Hstr Hsome Hwritable.
  destruct (generateRefactorFile_written path filePath analysisResults original disk
              Hobj Hstr Hsome Hwritable) as (prompts & Hlen & Hlines & Hwrite).
  exists (sort Current.byAnalyzedStartIndex
            (List.filter (fun r => flagged (Current.analysis r)) analysisResults)), prompts.
  split; [apply sort_perm |].
  split; [apply (sort_ascending (fun r => Current.startIndex (Current.functionData r))) |].
  split; [by rewrite Hlen, (sort_perm Current.byAnalyzedStartIndex) |].
  split; [| exact Hwrite].
  intros j r Hj. destruct (Hlines j r Hj) as (s & Hs & Hline).
  exists s. split; [exact Hs |]. split; [exact Hline | apply promptLine_singleSpaced].
Qed.

Lemma consolidated_file_witness :
  readOnly (diskWith (js "/a/b.mjs") twoFunctions)
    (refactorPathOf posixPath (js "/a/b.mjs")) = false
  /\ (exists selected prompts,
        selected
        ≡ₚ List.filter (fun r => flagged (Current.analysis r))
             [ Current.mkAnalyzed barRecord
                 (verdict true (Some (js "Add input validation.")));
               Current.mkAnalyzed fooRecord (verdict true (Some (js "A  b"))) ]
        /\ ascending (fun r => Current.startIndex (Current.functionData r)) selected
        /\ length prompts = length selected
        /\ (forall j r, selected !! j = Some r ->
              exists s,
                getProp (Current.analysis r) (js "refactorPrompt")
                = Normal (Some (JString s))
                /\ prompts !! j
                   = Some (promptHeading j (Current.name (Current.functionData r))
                             ++ promptLine s)
                /\ singleSpaced (promptLine s))
        /\ Current.generateRefactorFile posixPath (js "/a/b.mjs")
             [ Current.mkAnalyzed barRecord
                 (verdict true (Some (js "Add input validation.")));
               Current.mkAnalyzed fooRecord (verdict true (Some (js "A  b"))) ]
             twoFunctionsContent (diskWith (js "/a/b.mjs") twoFunctions)
           = (Normal (Some (refactorPathOf posixPath (js "/a/b.mjs"))),
              afterWrite (diskWith (js "/a/b.mjs") twoFunctions)
                (refactorPathOf posixPath (js "/a/b.mjs"))
                (consolidated prompts
                   (Current.originalContent twoFunctionsContent))))
  /\ writes (snd (Current.generateRefactorFile posixPath (js "/a/b.mjs")
                    [ Current.mkAnalyzed barRecord
                        (verdict true (Some (js "Add input validation.")));
                      Current.mkAnalyzed fooRecord (verdict true (Some (js "A  b"))) ]
                    twoFunctionsContent (diskWith (js "/a/b.mjs") twoFunctions)))
     = [ (js "/a/b.refactor.mjs",
          consolidated [ js "1. Function 'foo': A b";
                         js "2. Function 'bar': Add input validation." ]
            twoFunctions) ].
Proof.
  assert (Hwritable : readOnly (diskWith (js "/a/b.mjs") twoFunctions)
                        (refactorPathOf posixPath (js "/a/b.mjs")) = false)
    by reflexivity.
  split; [exact Hwritable |]. split; [| vm_compute; reflexivity].
  apply (consolidated_file posixPath (js "/a/b.mjs")
           [ Current.mkAnalyzed barRecord (verdict true (Some (js "Add input validation.")));
             Current.mkAnalyzed fooRecord (verdict true (Some (js "A  b"))) ]
           twoFunctionsContent (diskWith (js "/a/b.mjs") twoFunctions)).
  - intros r Hr. apply elem_of_cons in Hr as [-> | Hr]; [by eexists |].
    apply list_elem_of_singleton in Hr as ->. by eexists.
  - intros r Hr _. apply elem_of_cons in Hr as [-> | Hr]; [by eexists |].
    apply list_elem_of_singleton in Hr as ->. by eexists.
  - eexists. split; [apply list_elem_of_here | reflexivity].
  - exact Hwritable.
Defined.

(** [formatRefactorPrompt] puts a prompt on one line: for a prompt that is
    a string the result is the heading with the number and the name of the
    function, followed by the lines of the prompt that are kept, trimmed,
    joined by a space and with every run of white space replaced by one
    space, so that its only white space is single spaces.  A prompt that
    is one trimmed line with single spaces and holds neither of the two
    phrases is kept as it is; a one-line prompt that holds one of the
    phrases is left out, and the heading stands alone.  For a prompt that
    is no string [formatRefactorPrompt] throws a TypeError. *)
Theorem formatRefactorPrompt_one_line (result : Current.AnalyzedFunctionRecord)
    (index : nat) :
  (forall s,
      getProp (Current.analysis result) (js "refactorPrompt") = Normal (Some (JString s)) ->
      Current.formatRefactorPrompt result index
      = Normal (promptHeading index (Current.name (Current.functionData result))
                  ++ promptLine s)
      /\ singleSpaced (promptLine s)
      /\ (s <> [] -> LF ∉ s -> trim s = s -> singleSpaced s ->
          includes s (js "Module Context") = false ->
          includes s (js "javascript") = false ->
          promptLine s = s)
      /\ (LF ∉ s ->
          includes s (js "Module Context") = true \/ includes s (js "javascript") = true ->
          promptLine s = []))
  /\ ((forall s, getProp (Current.analysis result) (js "refactorPrompt")
                 <> Normal (Some (JString s))) ->
      exists e, Current.formatRefactorPrompt result index = Throw e
                /\ errorKind e = TypeError).
Proof.
  split.
  - intros s Hs. split; [by apply formatRefactorPrompt_line |].
    split; [apply promptLine_singleSpaced |].
    split; [apply promptLine_plain | apply promptLine_dropped].
  - apply formatRefactorPrompt_throws.
Qed.

Lemma formatRefactorPrompt_one_line_witness :
  getProp (verdict true (Some (text ["Split  it."; "  Then"; blank; "test. "]%string)))
    (js "refactorPrompt")
  = Normal (Some (JString (text ["Split  it."; "  Then"; blank; "test. "]%string)))
  /\ Current.formatRefactorPrompt
       (Current.mkAnalyzed fooRecord
          (verdict true (Some (text ["Split  it."; "  Then"; blank; "test. "]%string)))) 0
     = Normal (promptHeading 0 (Some (js "foo"))
                 ++ promptLine (text ["Split  it."; "  Then"; blank; "test. "]%string))
  /\ promptLine (text ["Split  it."; "  Then"; blank; "test. "]%string)
     = js "Split it. Then test."
  /\ Current.formatRefactorPrompt
       (Current.mkAnalyzed fooRecord
          (verdict true (Some (text ["Split  it."; "  Then"; blank; "test. "]%string)))) 0
     = Normal (js "1. Function 'foo': Split it. Then test.").
Proof.
  assert (H : getProp
                (verdict true (Some (text ["Split  it."; "  Then"; blank; "test. "]%string)))
                (js "refactorPrompt")
              = Normal (Some (JString (text ["Split  it."; "  Then"; blank; "test. "]%string))))
    by (vm_compute; reflexivity).
  split; [exact H |]. split; [| split].
  - exact (proj1 (proj1 (formatRefactorPrompt_one_line
                           (Current.mkAnalyzed fooRecord
                              (verdict true
                                 (Some (text ["Split  it."; "  Then"; blank;
                                              "test. "]%string)))) 0)
                    _ H)).
  - vm_compute. reflexivity.
  - vm_compute. reflexivity.
Defined.

(** ** [main] of the previous revision *)

(** In the previous revision a request to the chat that fails ends the
    run: the functions before the first one whose request fails are
    answered, the error of that first request is reported, the exit code
    is 1 and no file is written. *)
Theorem previous_main_chat_failure (fuel : nat) (path : PathModule)
    (chat : ChatCapability) (argv : list jsstring) (disk : Disk)
    (filePath content : jsstring) :
  argv !! 2 = Some filePath -> isFilePath filePath ->
  files disk !! filePath = Some content -> length content < fuel ->
  (exists f e,
     previouslyScanned fuel disk filePath f
     /\ chat (Previous.analysisMessages (Previous.code f)
                (PreviousRun.buildAnalysisPrompt (argv !! 3))) = Throw e) ->
  exists fileContent before f after e out,
    Previous.extractFunctions fuel disk filePath = Some (Normal fileContent)
    /\ Previous.functions fileContent = before ++ f :: after
    /\ (forall g, g ∈ before ->
          exists response,
            chat (Previous.analysisMessages (Previous.code g)
                    (PreviousRun.buildAnalysisPrompt (argv !! 3))) = Normal response)
    /\ chat (Previous.analysisMessages (Previous.code f)
               (PreviousRun.buildAnalysisPrompt (argv !! 3))) = Throw e
    /\ PreviousRun.main fuel path chat argv disk
       = Some (mkRun (Exited 1)
                 (out ++ [ConsoleError [Text (js "Error:"); Text (message e)]]) disk).
Proof.
  intros Harg Hpath Hfile Hfuel (f0 & e0 & (fileContent0 & Hscan0 & Hin0) & He0).
  destruct (previous_main_scanned fuel path chat argv disk filePath content
              Harg Hpath Hfile Hfuel) as (fileContent & Hscan & _ & _ & ->).
  rewrite Hscan in Hscan0. injection Hscan0 as <-.
  destruct (analyzeAll_first_failure chat (PreviousRun.buildAnalysisPrompt (argv !! 3))
              (Previous.functions fileContent) [])
    as (before & f & after & e & Hsplit & Hbefore & He & Hrun).
  { by exists f0, e0. }
  destruct (PreviousRun.analyzeAll chat _ _ []) as [result progress].
  cbn [fst] in Hrun. subst result.
  exists fileContent, before, f, after, e. eexists.
  split; [exact Hscan |]. split; [exact Hsplit |]. split; [exact Hbefore |].
  split; [exact He | reflexivity].
Qed.

Lemma previous_main_chat_failure_witness :
  argv !! 2 = Some (js "/a/b.mjs")
  /\ isFilePath (js "/a/b.mjs")
  /\ files (diskWith (js "/a/b.mjs") twoFunctions) !! js "/a/b.mjs" = Some twoFunctions
  /\ length twoFunctions < 100
  /\ (exists fileContent before f after e out,
        Previous.extractFunctions 100 (diskWith (js "/a/b.mjs") twoFunctions)
          (js "/a/b.mjs") = Some (Normal fileContent)
        /\ Previous.functions fileContent = before ++ f :: after
        /\ (forall g, g ∈ before ->
              exists response,
                failingEach (Previous.analysisMessages (Previous.code g)
                               (PreviousRun.buildAnalysisPrompt (argv !! 3)))
                = Normal response)
        /\ failingEach (Previous.analysisMessages (Previous.code f)
                          (PreviousRun.buildAnalysisPrompt (argv !! 3))) = Throw e
        /\ PreviousRun.main 100 posixPath failingEach argv
             (diskWith (js "/a/b.mjs") twoFunctions)
           = Some (mkRun (Exited 1)
                     (out ++ [ConsoleError [Text (js "Error:"); Text (message e)]])
                     (diskWith (js "/a/b.mjs") twoFunctions)))
  /\ PreviousRun.main 100 posixPath failingEach argv
       (diskWith (js "/a/b.mjs") twoFunctions)
     = Some (mkRun (Exited 1)
               [ ConsoleLog [Text (js "Analysis configuration:")];
                 ConsoleLog [Text (js "- File:"); Text (js "/a/b.mjs")];
                 StdoutWrite (js "  [Analyzing..] foo..." ++ [13%N]);
                 ConsoleError [Text (js "Error:"); Text (js "no answer about foo")] ]
               (diskWith (js "/a/b.mjs") twoFunctions)).
Proof.
  assert (Harg : argv !! 2 = Some (js "/a/b.mjs")) by reflexivity.
  assert (Hpath : isFilePath (js "/a/b.mjs")) by (repeat split; vm_compute; discriminate).
  assert (Hfile : files (diskWith (js "/a/b.mjs") twoFunctions) !! js "/a/b.mjs"
                  = Some twoFunctions) by (vm_compute; reflexivity).
  assert (Hlen : length twoFunctions < 100) by (vm_compute; lia).
  split; [exact Harg |]. split; [exact Hpath |]. split; [exact Hfile |].
  split; [exact Hlen |]. split; [| vm_compute; reflexivity].
  apply (previous_main_chat_failure 100 posixPath _ argv _ _ _ Harg Hpath Hfile Hlen).
  exists previousBar. eexists. split.
  - eexists. split; [vm_compute; reflexivity |].
    apply list_elem_of_further, list_elem_of_here.
  - vm_compute. reflexivity.
Defined.

(** When every request is answered with a verdict of the shape of the data
    model, the previous revision analyses the scanned functions in source
    order, stores for each the verdict read from the answer to its own
    request, and returns.  If some function is flagged it has written one
    file, the content with the comment blocks spliced in; if none is, it
    has written nothing: the copy of the unchanged content that the
    spliced generator would write is never made. *)
Theorem previous_main_spliced (fuel : nat) (path : PathModule)
    (chat : ChatCapability) (argv : list jsstring) (disk : Disk)
    (filePath content : jsstring) :
  argv !! 2 = Some filePath -> isFilePath filePath ->
  files disk !! filePath = Some content -> length content < fuel ->
  (forall f, previouslyScanned fuel disk filePath f ->
     exists response flag prompt,
       chat (Previous.analysisMessages (Previous.code f)
               (PreviousRun.buildAnalysisPrompt (argv !! 3))) = Normal response
       /\ hasVerdict (verdictOf (Previous.cleaned (Previous.accumulate response)))
            flag prompt) ->
  readOnly disk (refactorPathOf path filePath) = false ->
  exists fileContent analysisResults out,
    Previous.extractFunctions fuel disk filePath = Some (Normal fileContent)
    /\ map Previous.functionData analysisResults = Previous.functions fileContent
    /\ (forall r, r ∈ analysisResults ->
          exists response,
            chat (Previous.analysisMessages (Previous.code (Previous.functionData r))
                    (PreviousRun.buildAnalysisPrompt (argv !! 3))) = Normal response
            /\ Previous.analysis r
               = verdictOf (Previous.cleaned (Previous.accumulate response)))
    /\ PreviousRun.main fuel path chat argv disk
       = Some (mkRun Returned out
                 (if existsb (fun r => flagged (Previous.analysis r)) analysisResults
                  then afterWrite disk (refactorPathOf path filePath)
                         (spliced content 0 analysisResults)
                  else disk)).
Proof.
  intros Harg Hpath Hfile Hfuel Hchat Hwritable.
  destruct (previous_main_scanned fuel path chat argv disk filePath content
              Harg Hpath Hfile Hfuel) as (fileContent & Hscan & Hcontent & Hws & ->).
  destruct (analyzeAll_ok chat (PreviousRun.buildAnalysisPrompt (argv !! 3))
              (Previous.functions fileContent) []) as (results & Hres & Hdata & Hall).
  { intros f Hf. destruct (Hchat f) as (response & _ & _ & Hr & _);
      [by exists fileContent | by exists response]. }
  cbn [app] in Hres.
  destruct (PreviousRun.analyzeAll chat _ _ []) as [result progress].
  cbn [fst] in Hres. subst result.
  assert (Hv : forall r, r ∈ results ->
                 exists flag prompt, hasVerdict (Previous.analysis r) flag prompt).
  { intros r Hr. destruct (Hall r Hr) as (response & Hresp & ->).
    destruct (Hchat (Previous.functionData r)) as (response' & flag & prompt & Hresp' & Hv).
    - exists fileContent. split; [done |]. rewrite <- Hdata.
      apply list_elem_of_In, in_map, list_elem_of_In, Hr.
    - rewrite Hresp in Hresp'. injection Hresp' as <-. by exists flag, prompt. }
  assert (Hneeds : forall r, r ∈ results ->
                     Previous.needsRefactor r = Normal (flagged (Previous.analysis r))).
  { intros r Hr. destruct (Hv r Hr) as (flag & prompt & Hrv).
    by eapply previous_flagged. }
  pose proof (someC_spec _ (fun r => flagged (Previous.analysis r)) _ Hneeds) as Hsome.
  exists fileContent, results. unfold PreviousRun.conclude. rewrite Hsome.
  destruct (existsb _ results).
  - rewrite (previous_generateRefactorFile_spliced path filePath results fileContent disk
               content Hcontent); [| | exact Hv | exact Hwritable].
    + rewrite (filterC_total _ (fun r => flagged (Previous.analysis r)) _ Hneeds).
      by eexists.
    + unfold analyzedSpan. rewrite <- (map_map Previous.functionData previousSpan), Hdata.
      exact Hws.
  - by eexists.
Qed.

Lemma previous_main_spliced_witness :
  argv !! 2 = Some (js "/a/b.mjs")
  /\ isFilePath (js "/a/b.mjs")
  /\ files (diskWith (js "/a/b.mjs") twoFunctions) !! js "/a/b.mjs" = Some twoFunctions
  /\ length twoFunctions < 100
  /\ readOnly (diskWith (js "/a/b.mjs") twoFunctions)
       (refactorPathOf posixPath (js "/a/b.mjs")) = false
  /\ (exists fileContent analysisResults out,
        Previous.extractFunctions 100 (diskWith (js "/a/b.mjs") twoFunctions)
          (js "/a/b.mjs") = Some (Normal fileContent)
        /\ map Previous.functionData analysisResults = Previous.functions fileContent
        /\ (forall r, r ∈ analysisResults ->
              exists response,
                answeringBy [(js "function bar", addValidation);
                             (js "function foo", keepAsIs)]
                  (Previous.analysisMessages (Previous.code (Previous.functionData r))
                     (PreviousRun.buildAnalysisPrompt (argv !! 3))) = Normal response
                /\ Previous.analysis r
                   = verdictOf (Previous.cleaned (Previous.accumulate response)))
        /\ PreviousRun.main 100 posixPath
             (answeringBy [(js "function bar", addValidation);
                           (js "function foo", keepAsIs)])
             argv (diskWith (js "/a/b.mjs") twoFunctions)
           = Some (mkRun Returned out
                     (if existsb (fun r => flagged (Previous.analysis r)) analysisResults
                      then afterWrite (diskWith (js "/a/b.mjs") twoFunctions)
                             (refactorPathOf posixPath (js "/a/b.mjs"))
                             (spliced twoFunctions 0 analysisResults)
                      else diskWith (js "/a/b.mjs") twoFunctions)))
  /\ finalDisk <$> PreviousRun.main 100 posixPath
                     (answeringBy [(js "function bar", addValidation);
                                   (js "function foo", keepAsIs)])
                     argv (diskWith (js "/a/b.mjs") twoFunctions)
     = Some (afterWrite (diskWith (js "/a/b.mjs") twoFunctions) (js "/a/b.refactor.mjs")
               (text [ "import x from 'y';";
                       "function foo(a) { return a; }";
                       blank;
                       "/**";
                       " * REFACTOR:";
                       " * Add input validation.";
                       " */";
                       "function bar() { }" ]%string)).
Proof.
  assert (Harg : argv !! 2 = Some (js "/a/b.mjs")) by reflexivity.
  assert (Hpath : isFilePath (js "/a/b.mjs")) by (repeat split; vm_compute; discriminate).
  assert (Hfile : files (diskWith (js "/a/b.mjs") twoFunctions) !! js "/a/b.mjs"
                  = Some twoFunctions) by (vm_compute; reflexivity).
  assert (Hlen : length twoFunctions < 100) by (vm_compute; lia).
  assert (Hwritable : readOnly (diskWith (js "/a/b.mjs") twoFunctions)
                        (refactorPathOf posixPath (js "/a/b.mjs")) = false)
    by reflexivity.
  split; [exact Harg |]. split; [exact Hpath |]. split; [exact Hfile |].
  split; [exact Hlen |]. split; [exact Hwritable |].
  split; [| vm_compute; reflexivity].
  apply (previous_main_spliced 100 posixPath _ argv _ _ _ Harg Hpath Hfile Hlen);
    [| exact Hwritable].
  intros f (fileContent & Hscan & Hf). vm_compute in Hscan. injection Hscan as <-.
  apply elem_of_cons in Hf as [-> | Hf].
  - exists [keepAsIs], false, None.
    split; [vm_compute; reflexivity |]. split; vm_compute; reflexivity.
  - apply list_elem_of_singleton in Hf as ->.
    exists [addValidation], true, (Some (js "Add input validation.")).
    split; [vm_compute; reflexivity |]. split; vm_compute; reflexivity.
Defined.

(** ** The chat *)

(** With streaming, [chat] returns the contents of the deltas put together
    in order; a chunk without a choice, without a delta or with a content
    that is null or empty adds nothing.  What it returns is what it has
    written to the terminal, which it ends with one empty [console.log].
    When the stream breaks, [chat] throws the error of the stream after
    having written the contents received so far. *)
Theorem chat_returns_what_it_streams (path : PathModule) (home : option jsstring)
    (api : DeepSeek.Api) (options : DeepSeek.Options) (disk : Disk)
    (key : jsstring) (chunks : list DeepSeek.Chunk) (failure : option Error) :
  DeepSeek.getDeepSeekKey path home disk = Normal key ->
  default true (DeepSeek.stream options) = true ->
  DeepSeek.createStream api (DeepSeek.requestFor key options true)
  = Normal (chunks, failure) ->
  exists out,
    DeepSeek.chat path home api options disk
    = (match failure with
       | None => Normal (Some (concat (map DeepSeek.contentOf chunks)))
       | Some error => Throw error
       end, out)
    /\ written out = concat (map DeepSeek.contentOf chunks)
    /\ (failure = None -> last out = Some (ConsoleLog [])).
Proof.
  intros Hkey Hstream Hcreate. unfold DeepSeek.chat.
  rewrite Hkey, Hstream, Hcreate, echo_spec.
  destruct failure as [error|]; eexists; (split; [reflexivity |]).
  - split; [apply written_writes | done].
  - split; [| intros _; apply last_snoc].
    rewrite written_app, written_writes. cbn. by rewrite app_nil_r.
Qed.

Lemma chat_returns_what_it_streams_witness :
  DeepSeek.getDeepSeekKey posixPath (Some (js "/home/u")) tokenDisk = Normal (js "secret")
  /\ exists out,
       DeepSeek.chat posixPath (Some (js "/home/u")) streaming
         (DeepSeek.mkOptions [] None None None None) tokenDisk
       = (Normal (Some (js "{}")), out)
       /\ written out = js "{}".
Proof.
  assert (Hkey : DeepSeek.getDeepSeekKey posixPath (Some (js "/home/u")) tokenDisk
                 = Normal (js "secret")) by (vm_compute; reflexivity).
  split; [exact Hkey |].
  destruct (chat_returns_what_it_streams posixPath (Some (js "/home/u")) streaming
              (DeepSeek.mkOptions [] None None None None) tokenDisk (js "secret")
              streamed None Hkey eq_refl eq_refl) as (out & Hrun & Hwritten & _).
  exists out. split; [exact Hrun | exact Hwritten].
Defined.

(** The script iterates over the string that [chat] returns, one code
    point at a time, a surrogate pair being one piece of two code units.
    Putting the pieces together gives the string back: both revisions
    analyse the text that [chat] returned. *)
Theorem script_reads_the_whole_answer (path : PathModule) (home : option jsstring)
    (api : DeepSeek.Api) (disk : Disk) (messages : list Message)
    (answer : jsstring) (out : list Event) :
  DeepSeek.chat path home api (DeepSeek.mkOptions messages None None None (Some true)) disk
  = (Normal (Some answer), out) ->
  exists response,
    DeepSeek.capability path home api disk messages = Normal response
    /\ Current.accumulate response = answer
    /\ Previous.accumulate response = answer
    /\ Forall (fun chunk : jsstring => length chunk = 1 \/ length chunk = 2) response.
Proof.
  intros Hchat. exists (stringIterator answer).
  unfold DeepSeek.capability. rewrite Hchat. cbn [fst].
  destruct (stringIterator_bounded (length answer) answer ltac:(lia)) as [Hcat Hall].
  split; [done |].
  unfold Current.accumulate, Previous.accumulate. rewrite accumulate_concat.
  cbn [app]. by rewrite Hcat.
Qed.

Lemma script_reads_the_whole_answer_witness :
  DeepSeek.chat posixPath (Some (js "/home/u")) streaming
    (DeepSeek.mkOptions [] None None None (Some true)) tokenDisk
  = (Normal (Some (js "{}")),
     [StdoutWrite (js "{"); StdoutWrite []; StdoutWrite []; StdoutWrite (js "}");
      ConsoleLog []])
  /\ exists response,
       DeepSeek.capability posixPath (Some (js "/home/u")) streaming tokenDisk []
       = Normal response
       /\ Current.accumulate response = js "{}".
Proof.
  assert (Hchat : DeepSeek.chat posixPath (Some (js "/home/u")) streaming
                    (DeepSeek.mkOptions [] None None None (Some true)) tokenDisk
                  = (Normal (Some (js "{}")),
                     [StdoutWrite (js "{"); StdoutWrite []; StdoutWrite [];
                      StdoutWrite (js "}"); ConsoleLog []]))
    by (vm_compute; reflexivity).
  split; [exact Hchat |].
  destruct (script_reads_the_whole_answer posixPath (Some (js "/home/u")) streaming
              tokenDisk [] _ _ Hchat) as (response & Hrun & Hacc & _).
  exists response. split; [exact Hrun | exact Hacc].
Defined.

(** ** The scanner *)

(** The module context of every record that the scanner returns is the
    one extracted at the start of the function: its [fullContext] is the
    text of the file before the function and none of the function or of
    what follows it. *)
Theorem scanned_context_is_the_text_before
    (fuel : nat) (disk : Disk) (filePath content : jsstring) :
  files disk !! filePath = Some content ->
  length content < fuel ->
  exists result,
    Current.extractFunctions fuel disk filePath = Some (Normal result)
    /\ forall f, f ∈ Current.functions result ->
         Current.extractModuleContext (VString content)
           (VNumber (numberOfNat (Current.startIndex f)))
         = Normal (Current.moduleContext f)
         /\ Current.fullContext (Current.moduleContext f)
            = take (Current.startIndex f) content
         /\ Current.fullContext (Current.moduleContext f) ++ Current.code f
            = take (Current.endIndex f) content.
Proof.
  intros Hfile Hfuel.
  destruct (current_scan_result content fuel Hfuel) as (st & Hrun & Hws & _ & _ & Hsort).
  unfold Current.extractFunctions, readFile. rewrite Hfile, Hrun, Hsort.
  eexists. split; [reflexivity |]. cbn [Current.functions].
  intros f Hf.
  pose proof (current_scanLoop_context content fuel _ st Hrun
                ltac:(intros g Hg; by inversion Hg) f Hf) as Hcontext.
  split; [exact Hcontext |].
  assert (Hfull : Current.fullContext (Current.moduleContext f)
                  = take (Current.startIndex f) content).
  { rewrite <- slice_prefix. rewrite extractModuleContext_valid in Hcontext.
    by injection Hcontext as <-. }
  rewrite Hfull. split; [done |].
  apply list_elem_of_lookup in Hf as [i Hi].
  assert (Hspan : map currentSpan (Current.scanned st) !! i = Some (currentSpan f))
    by (by rewrite list_lookup_fmap, Hi).
  destruct (wellScanned_lookup _ _ _ _ _ _ _ Hws Hspan) as (_ & Hlt & _ & Hcode & _).
  rewrite Hcode. apply take_app_slice. lia.
Qed.

Lemma scanned_context_is_the_text_before_witness :
  files (diskWith (js "/a/b.mjs") twoFunctions) !! js "/a/b.mjs" = Some twoFunctions
  /\ length twoFunctions < 100
  /\ exists result,
       Current.extractFunctions 100 (diskWith (js "/a/b.mjs") twoFunctions) (js "/a/b.mjs")
       = Some (Normal result)
       /\ map (fun f => Current.fullContext (Current.moduleContext f))
            (Current.functions result)
          = [ text ["import x from 'y';"; blank]%string;
              text ["import x from 'y';"; "function foo(a) { return a; }"; blank]%string ].
Proof.
  assert (Hfile : files (diskWith (js "/a/b.mjs") twoFunctions) !! js "/a/b.mjs"
                  = Some twoFunctions) by (vm_compute; reflexivity).
  assert (Hlen : length twoFunctions < 100) by (vm_compute; lia).
  split; [exact Hfile |]. split; [exact Hlen |].
  destruct (scanned_context_is_the_text_before 100 _ _ _ Hfile Hlen)
    as (result & Hrun & _).
  exists result. split; [exact Hrun |].
  vm_compute in Hrun. injection Hrun as <-. vm_compute. reflexivity.
Defined.

(** Every import that [extractModuleContext] lists starts with [import],
    every declaration with one of [const], [let], [var], [type] and
    [interface]; each entry has no white space around it and is a piece of
    the text before the offset. *)
Theorem context_entries (content : jsstring) (functionEndIndex : number)
    (context : Current.ModuleContext) :
  Current.extractModuleContext (VString content) (VNumber functionEndIndex)
  = Normal context ->
  (forall entry, entry ∈ Current.imports context ->
     (exists tail, entry = js "import" ++ tail)
     /\ trim entry = entry
     /\ exists before after, Current.fullContext context = before ++ entry ++ after)
  /\ (forall entry, entry ∈ Current.declarations context ->
        (exists keyword tail, keyword ∈ declarationKeywords /\ entry = keyword ++ tail)
        /\ trim entry = entry
        /\ exists before after, Current.fullContext context = before ++ entry ++ after).
Proof.
  rewrite extractModuleContext_valid. intros [= <-].
  cbn [Current.imports Current.declarations Current.fullContext]. split.
  - intros entry Hentry. apply list_elem_of_In, in_map_iff in Hentry as (m & <- & Hm).
    apply list_elem_of_In in Hm.
    destruct (trimmed_entry Current.importRegex
                (slice content (Int 0) (Some (ToIntegerOrInfinity functionEndIndex)))
                m [js "import"])
      as (keyword & tail & Hkw & Htrim & Hidem & Hsub); [| | done |].
    + intros keyword Hk. apply list_elem_of_singleton in Hk as ->. apply list_elem_of_here.
    + eapply passes_weaken; [| apply passes_importRegex].
      intros s [b ->]. exists (js "import"), b. split; [apply list_elem_of_here | done].
    + apply list_elem_of_singleton in Hkw as ->. split; [by exists tail | done].
  - intros entry Hentry. apply list_elem_of_In, in_map_iff in Hentry as (m & <- & Hm).
    apply list_elem_of_In in Hm.
    destruct (trimmed_entry Current.declRegex
                (slice content (Int 0) (Some (ToIntegerOrInfinity functionEndIndex)))
                m declarationKeywords)
      as (keyword & tail & Hkw & Htrim & Hidem & Hsub);
      [| apply passes_declRegex | done |].
    + intros keyword Hk. by apply list_elem_of_further.
    + split; [by exists keyword, tail | done].
Qed.

Lemma context_entries_witness :
  Current.extractModuleContext
    (VString (text ["  import a from 'b';  "; "  let n = 1 ;"; "f()"]%string))
    (VNumber (numberOfNat 36))
  = Normal (Current.mkContext [js "import a from 'b';"] [js "let n = 1 ;"]
              (text ["  import a from 'b';  "; "  let n = 1 ;"]%string))
  /\ (forall entry, entry ∈ [js "import a from 'b';"] ->
        (exists tail, entry = js "import" ++ tail) /\ trim entry = entry).
Proof.
  assert (Hrun : Current.extractModuleContext
                   (VString (text ["  import a from 'b';  "; "  let n = 1 ;"; "f()"]%string))
                   (VNumber (numberOfNat 36))
                 = Normal (Current.mkContext [js "import a from 'b';"] [js "let n = 1 ;"]
                             (text ["  import a from 'b';  "; "  let n = 1 ;"]%string)))
    by (vm_compute; reflexivity).
  split; [exact Hrun |].
  intros entry Hentry.
  destruct (proj1 (context_entries _ _ _ Hrun) entry Hentry) as (Hstart & Htrim & _).
  by split.
Defined.

(** Every record that the scanner returns has a name, in both revisions:
    a word of [A-Za-z0-9_] that occurs in the code of the record.  So no
    prompt of a scanned function is headed [Function 'undefined']. *)
Theorem scanned_functions_are_named
    (fuel : nat) (disk : Disk) (filePath content : jsstring) :
  files disk !! filePath = Some content ->
  length content < fuel ->
  (exists result,
     Current.extractFunctions fuel disk filePath = Some (Normal result)
     /\ forall f, f ∈ Current.functions result ->
          exists name before after,
            Current.name f = Some name /\ isWord name
            /\ Current.code f = before ++ name ++ after)
  /\ (exists result,
        Previous.extractFunctions fuel disk filePath = Some (Normal result)
        /\ forall f, f ∈ Previous.functions result ->
             exists name before after,
               Previous.name f = Some name /\ isWord name
               /\ Previous.code f = before ++ name ++ after).
Proof.
  intros Hfile Hfuel. split.
  - destruct (current_scan_result content fuel Hfuel) as (st & Hrun & _ & _ & _ & Hsort).
    unfold Current.extractFunctions, readFile. rewrite Hfile, Hrun, Hsort.
    eexists. split; [reflexivity |]. cbn [Current.functions].
    apply (current_scanLoop_names content fuel _ st Hrun).
    intros f Hf. by inversion Hf.
  - destruct (previous_scan_result content fuel Hfuel) as (st & Hrun & _).
    unfold Previous.extractFunctions, readFile. rewrite Hfile, Hrun.
    eexists. split; [reflexivity |]. cbn [Previous.functions].
    apply (previous_scanLoop_names content fuel _ st Hrun).
    intros f Hf. by inversion Hf.
Qed.

Lemma scanned_functions_are_named_witness :
  files (diskWith (js "/a/b.mjs") twoFunctions) !! js "/a/b.mjs" = Some twoFunctions
  /\ length twoFunctions < 100
  /\ exists result,
       Current.extractFunctions 100 (diskWith (js "/a/b.mjs") twoFunctions) (js "/a/b.mjs")
       = Some (Normal result)
       /\ map Current.name (Current.functions result) = [Some (js "foo"); Some (js "bar")].
Proof.
  assert (Hfile : files (diskWith (js "/a/b.mjs") twoFunctions) !! js "/a/b.mjs"
                  = Some twoFunctions) by (vm_compute; reflexivity).
  assert (Hlen : length twoFunctions < 100) by (vm_compute; lia).
  split; [exact Hfile |]. split; [exact Hlen |].
  destruct (proj1 (scanned_functions_are_named 100 _ _ _ Hfile Hlen))
    as (result & Hrun & _).
  exists result. split; [exact Hrun |].
  vm_compute in Hrun. injection Hrun as <-. vm_compute. reflexivity.
Defined.

(** The [preText] that the current scanner stores for a record is empty
    or one REFACTOR comment: a text from [/**] to [*/] that occurs in the
    file before the function. *)
Theorem current_preText_is_a_comment
    (fuel : nat) (disk : Disk) (filePath content : jsstring) :
  files disk !! filePath = Some content ->
  length content < fuel ->
  exists result,
    Current.extractFunctions fuel disk filePath = Some (Normal result)
    /\ forall f, f ∈ Current.functions result ->
         Current.preText f = []
         \/ exists middle before after,
              Current.preText f = js "/**" ++ middle ++ js "*/"
              /\ take (Current.startIndex f) content
                 = before ++ Current.preText f ++ after.
Proof.
  intros Hfile Hfuel.
  destruct (current_scan_result content fuel Hfuel) as (st & Hrun & _ & _ & _ & Hsort).
  unfold Current.extractFunctions, readFile. rewrite Hfile, Hrun, Hsort.
  eexists. split; [reflexivity |]. cbn [Current.functions].
  apply (current_scanLoop_preText content fuel _ st Hrun);
    cbn [Current.lastIndex Current.regexLastIndex Current.scanned]; [lia | done |].
  intros f Hf. by inversion Hf.
Qed.

Lemma current_preText_is_a_comment_witness :
  files (diskWith (js "/a/b.mjs") commented) !! js "/a/b.mjs" = Some commented
  /\ length commented < 100
  /\ exists result,
       Current.extractFunctions 100 (diskWith (js "/a/b.mjs") commented) (js "/a/b.mjs")
       = Some (Normal result)
       /\ map Current.preText (Current.functions result)
          = [text ["/**"; " * REFACTOR: split"; " */"]%string].
Proof.
  assert (Hfile : files (diskWith (js "/a/b.mjs") commented) !! js "/a/b.mjs"
                  = Some commented) by (vm_compute; reflexivity).
  assert (Hlen : length commented < 100) by (vm_compute; lia).
  split; [exact Hfile |]. split; [exact Hlen |].
  destruct (current_preText_is_a_comment 100 _ _ _ Hfile Hlen) as (result & Hrun & _).
  exists result. split; [exact Hrun |].
  vm_compute in Hrun. injection Hrun as <-. vm_compute. reflexivity.
Defined.

(** ** What a run writes *)

(** Whatever the arguments, the disk, the answers of the chat and the
    order in which the analyses settle, a run of [main] that ends has
    written at most one file, in both revisions: the disk is left as it
    was, or the [.refactor] sibling of the path argument was written once
    and nothing else. *)
Theorem main_writes_at_most_one_file (fuel : nat) (path : PathModule)
    (chat : ChatCapability) (schedule : nat -> list nat) (argv : list jsstring)
    (disk : Disk) :
  (forall run,
      CurrentRun.main fuel path chat schedule argv disk = Some run ->
      finalDisk run = disk
      \/ exists filePath data,
           argv !! 2 = Some filePath
           /\ finalDisk run = afterWrite disk (refactorPathOf path filePath) data)
  /\ (forall run,
        PreviousRun.main fuel path chat argv disk = Some run ->
        finalDisk run = disk
        \/ exists filePath data,
             argv !! 2 = Some filePath
             /\ finalDisk run = afterWrite disk (refactorPathOf path filePath) data).
Proof.
  split; intros run Hrun.
  - unfold CurrentRun.main in Hrun.
    destruct (parseArguments argv) as [usage [code | [filePath userPrompt]]] eqn:Hargs.
    { injection Hrun as <-. by left. }
    apply parseArguments_inr in Hargs.
    destruct (Current.extractFunctions fuel disk filePath) as [[fileContent|e]|];
      [| injection Hrun as <-; by left | done].
    destruct (CurrentRun.chunkArray _ _) as [functionBatches|];
      [| injection Hrun as <-; by left].
    destruct (CurrentRun.processBatches chat schedule functionBatches _)
      as [[[analysisResults|e]|] progress];
      [| injection Hrun as <-; by left | done].
    injection Hrun as <-.
    destruct (current_conclude_writes path filePath fileContent
                (CurrentRun.configuration filePath userPrompt fileContent ++ progress)
                analysisResults disk) as [H | [data H]]; [by left |].
    right. by exists filePath, data.
  - unfold PreviousRun.main in Hrun.
    destruct (parseArguments argv) as [usage [code | [filePath userPrompt]]] eqn:Hargs.
    { injection Hrun as <-. by left. }
    apply parseArguments_inr in Hargs.
    destruct (Previous.extractFunctions fuel disk filePath) as [[fileContent|e]|];
      [| injection Hrun as <-; by left | done].
    destruct (PreviousRun.analyzeAll chat _ _ []) as [[analysisResults|e] progress];
      [| injection Hrun as <-; by left].
    injection Hrun as <-.
    destruct (previous_conclude_writes path filePath fileContent
                (PreviousRun.configuration filePath userPrompt ++ progress)
                analysisResults disk) as [H | [data H]]; [by left |].
    right. by exists filePath, data.
Qed.

Lemma main_writes_at_most_one_file_witness :
  exists run,
    CurrentRun.main 100 posixPath (answering addValidation) oneByOne argv
      (diskWith (js "/a/b.mjs") twoFunctions) = Some run
    /\ (finalDisk run = diskWith (js "/a/b.mjs") twoFunctions
        \/ exists filePath data,
             argv !! 2 = Some filePath
             /\ finalDisk run
                = afterWrite (diskWith (js "/a/b.mjs") twoFunctions)
                    (refactorPathOf posixPath filePath) data)
    /\ writes (finalDisk run)
       = [ (js "/a/b.refactor.mjs",
            consolidated [ js "1. Function 'foo': Add input validation.";
                           js "2. Function 'bar': Add input validation." ]
              twoFunctions) ].
Proof.
  destruct (CurrentRun.main 100 posixPath (answering addValidation) oneByOne argv
              (diskWith (js "/a/b.mjs") twoFunctions)) as [run|] eqn:Hrun;
    [| by vm_compute in Hrun].
  exists run. split; [reflexivity |]. split.
  - exact (proj1 (main_writes_at_most_one_file 100 posixPath (answering addValidation)
                    oneByOne argv (diskWith (js "/a/b.mjs") twoFunctions)) run Hrun).
  - vm_compute in Hrun. injection Hrun as <-. vm_compute. reflexivity.
Defined.
